(** * ads1115: Nagios check for a 4-20 mA pressure sensor behind an ADS1115 ADC

    A shallow embedding of [src/ads1115.c].  The program is one [main]
    function; it is split here along its own comment blocks:

    - the command line loop ([getopt] and the [switch]) is [parse_options];
    - the two argument checks, the derivation of [VPS], [slope] and [con],
      the bus protocol and the final report are [main], an interaction tree
      over the system calls the C code performs;
    - the arithmetic after the two result bytes are read ([val], the clamp,
      [voltage], [pressure], the floor and the min/max comparison) is the
      pure function [evaluate], which [main] calls.

    C [float] is IEEE binary32 and C [double] is IEEE binary64; both are
    modelled with the executable specification of the Standard Library
    ([SpecFloat]), with the usual arithmetic conversions of C written out
    (a [float] operand meeting a [double] operand is widened, an
    assignment to a [float] variable rounds to nearest-even, expressions
    are evaluated in the type of their operands).  The conversion of an
    [int] to [int16_t] reduces modulo 2^16, as every two's complement
    target does.  [getopt], [atoi], [strtol] and [atof] are not modelled:
    the command line is the list of options [getopt] delivers, each with
    the number the library call returned for its argument.

    The second half of the file is a small theory of rounding to
    nearest-even on [SpecFloat] (what a rounded value is, that rounding is
    monotone, that a representable value is kept), instantiated to
    binary32 and binary64, and then the properties of the program.  The
    runs of [main] are described by [runs]: the calls a terminating
    execution makes, with the answers it received, and its exit status. *)

From Stdlib Require Import ZArith List Bool Lia Ascii String Eqdep.
From Stdlib Require Import Floats.SpecFloat.
From ITree Require Import ITree ITreeFacts.
Import ListNotations.
Import ITreeNotations.

Local Open Scope Z_scope.
Local Open Scope itree_scope.

(* ===================================================================== *)
(** ** IEEE arithmetic: binary32 and binary64 *)
(* ===================================================================== *)

(** C [float]. *)
Module F32.
Definition prec : Z := 24.
Definition emax : Z := 128.
Definition t := spec_float.
Definition valid (x : t) : bool := valid_binary prec emax x.
Definition of_Z (z : Z) : t := binary_normalize prec emax z 0 false.
Definition add : t -> t -> t := SFadd prec emax.
Definition sub : t -> t -> t := SFsub prec emax.
Definition mul : t -> t -> t := SFmul prec emax.
Definition div : t -> t -> t := SFdiv prec emax.
Definition ltb : t -> t -> bool := SFltb.
Definition eqb : t -> t -> bool := SFeqb.
Definition leb : t -> t -> bool := SFleb.
End F32.

(** C [double]. *)
Module F64.
Definition prec : Z := 53.
Definition emax : Z := 1024.
Definition t := spec_float.
Definition valid (x : t) : bool := valid_binary prec emax x.
Definition of_Z (z : Z) : t := binary_normalize prec emax z 0 false.
Definition add : t -> t -> t := SFadd prec emax.
Definition sub : t -> t -> t := SFsub prec emax.
Definition mul : t -> t -> t := SFmul prec emax.
Definition div : t -> t -> t := SFdiv prec emax.
Definition ltb : t -> t -> bool := SFltb.
Definition eqb : t -> t -> bool := SFeqb.
Definition leb : t -> t -> bool := SFleb.
End F64.

Definition float : Type := F32.t.
Definition double : Type := F64.t.

(** Widening [float] to [double] (exact on every binary32 value). *)
Definition double_of_float (x : float) : double :=
  match x with
  | S754_finite s m e =>
      binary_normalize F64.prec F64.emax (cond_Zopp s (Zpos m)) e s
  | _ => x
  end.

(** Narrowing [double] to [float]: round to nearest, ties to even. *)
Definition float_of_double (x : double) : float :=
  match x with
  | S754_finite s m e =>
      binary_normalize F32.prec F32.emax (cond_Zopp s (Zpos m)) e s
  | _ => x
  end.

(** Conversion of an [int] operand to [float]. *)
Definition float_of_int (z : Z) : float := F32.of_Z z.

(** A decimal literal [n / 10^k] of type [double], correctly rounded. *)
Definition double_literal (n : Z) (k : Z) : double :=
  F64.div (F64.of_Z n) (F64.of_Z (10 ^ k)).

(* ===================================================================== *)
(** ** Constants of the source *)
(* ===================================================================== *)

(** [#define minval 2090.0]: reading at 4 mA. *)
Definition minval : double := F64.of_Z 2090.
(** [#define maxval 10630.0]: reading at 20 mA. *)
Definition maxval : double := F64.of_Z 10630.
(** [#define BUFSIZE 256]. *)
Definition BUFSIZE : Z := 256.

Definition EXIT_FAILURE : Z := 1.

(** The literals [0.0], [-1.0], [10.0] and [6.144]. *)
Definition d_zero : double := S754_zero false.
Definition d_minus_one : double := F64.of_Z (-1).
Definition d_ten : double := F64.of_Z 10.
Definition d_6_144 : double := double_literal 6144 3.

(* ===================================================================== *)
(** ** Integer conversions *)
(* ===================================================================== *)

(** Conversion of an [int] to [int16_t]: reduction modulo 2^16 into
    [-32768, 32767]. *)
Definition to_int16 (z : Z) : Z := (z + 32768) mod 65536 - 32768.

(** Binary literals, as the source writes them: [bin "101"] is [0b101]. *)
Fixpoint bin_from (acc : Z) (s : string) : Z :=
  match s with
  | EmptyString => acc
  | String c rest =>
      bin_from (2 * acc + (if Ascii.eqb c "1" then 1 else 0)) rest
  end.

Definition bin (s : string) : Z := bin_from 0 s.

(** [uint8_t] range. *)
Definition is_uint8 (b : Z) : Prop := 0 <= b < 256.

(* ===================================================================== *)
(** ** Command line *)
(* ===================================================================== *)

(** The variables of [main] that the option loop sets. *)
Record settings : Type := mkSettings {
  verbose : Z;
  input : Z;
  ads_address : Z;
  i2cdevice : string;
  minpressure : float;
  maxpressure : float;
  low : float;
  high : float
}.

(** One result of [getopt] together with the value the case of the
    [switch] computes from [optarg]: the [int] of [atoi] and [strtol],
    the [double] of [atof], the string itself for [-d].  [Opt_other] is
    whatever reaches the [default] case. *)
Inductive cli_opt : Type :=
| Opt_v
| Opt_i (n : Z)
| Opt_m (d : double)
| Opt_M (d : double)
| Opt_d (s : string)
| Opt_a (n : Z)
| Opt_A (n : Z)
| Opt_l (d : double)
| Opt_h (d : double)
| Opt_other.

(** [strncpy (i2cdevice, s, BUFSIZE-1)]. *)
Definition strncpy (s : string) : string :=
  substring 0 (Z.to_nat (BUFSIZE - 1)) s.

(** The assignments before the option loop (lines 51-59). *)
Definition defaults : settings :=
  {| verbose := 0;
     input := 1;
     ads_address := 0x48;
     i2cdevice := strncpy "/dev/i2c-1";
     minpressure := float_of_double d_minus_one;
     maxpressure := float_of_double d_minus_one;
     low := float_of_double d_zero;
     high := float_of_double d_ten |}.

(** One case of the [switch]; [None] is the [default] case, which prints
    the usage text and exits. *)
Definition apply_opt (st : settings) (o : cli_opt) : option settings :=
  match o with
  | Opt_v => Some (mkSettings 1 (input st) (ads_address st) (i2cdevice st)
                     (minpressure st) (maxpressure st) (low st) (high st))
  | Opt_i n => Some (mkSettings (verbose st) n (ads_address st) (i2cdevice st)
                     (minpressure st) (maxpressure st) (low st) (high st))
  | Opt_m d => Some (mkSettings (verbose st) (input st) (ads_address st)
                     (i2cdevice st) (float_of_double d) (maxpressure st)
                     (low st) (high st))
  | Opt_M d => Some (mkSettings (verbose st) (input st) (ads_address st)
                     (i2cdevice st) (minpressure st) (float_of_double d)
                     (low st) (high st))
  | Opt_d s => Some (mkSettings (verbose st) (input st) (ads_address st)
                     (strncpy s) (minpressure st) (maxpressure st)
                     (low st) (high st))
  | Opt_a n => Some (mkSettings (verbose st) (input st) n (i2cdevice st)
                     (minpressure st) (maxpressure st) (low st) (high st))
  | Opt_A n => Some (mkSettings (verbose st) (input st) n (i2cdevice st)
                     (minpressure st) (maxpressure st) (low st) (high st))
  | Opt_l d => Some (mkSettings (verbose st) (input st) (ads_address st)
                     (i2cdevice st) (minpressure st) (maxpressure st)
                     (float_of_double d) (high st))
  | Opt_h d => Some (mkSettings (verbose st) (input st) (ads_address st)
                     (i2cdevice st) (minpressure st) (maxpressure st)
                     (low st) (float_of_double d))
  | Opt_other => None
  end.

(** The [while ((c = getopt (...)) != -1)] loop, from a given state. *)
Fixpoint parse_from (st : settings) (opts : list cli_opt) : option settings :=
  match opts with
  | [] => Some st
  | o :: rest =>
      match apply_opt st o with
      | Some st' => parse_from st' rest
      | None => None
      end
  end.

Definition parse_options (opts : list cli_opt) : option settings :=
  parse_from defaults opts.

(** [input < 1 || input > 4] (line 101). *)
Definition input_out_of_range (st : settings) : bool :=
  (input st <? 1) || (input st >? 4).

(** [minpressure == -1.0 || maxpressure == -1.0] (line 106): each
    [float] is widened and compared with the [double] literal. *)
Definition is_sentinel (x : float) : bool :=
  F64.eqb (double_of_float x) d_minus_one.

Definition thresholds_missing (st : settings) : bool :=
  is_sentinel (minpressure st) || is_sentinel (maxpressure st).

(* ===================================================================== *)
(** ** Linear coefficients (lines 111-113) *)
(* ===================================================================== *)

(** [VPS = 6.144 / maxval]. *)
Definition VPS : float := float_of_double (F64.div d_6_144 maxval).

(** [slope = (high - low)/(maxval - minval)]: the numerator is a [float]
    difference, the quotient is taken in [double] and stored in a
    [float]. *)
Definition slope_of (low high : float) : float :=
  float_of_double
    (F64.div (double_of_float (F32.sub high low)) (F64.sub maxval minval)).

(** [con = slope * minval]. *)
Definition con_of (slope : float) : float :=
  float_of_double (F64.mul (double_of_float slope) minval).

(* ===================================================================== *)
(** ** Configuration bytes (lines 134-154) *)
(* ===================================================================== *)

(** [writeBuf[1]]: bits 15-8 of the configuration word. *)
Definition config_high (input : Z) : Z :=
  if input =? 1 then bin "11000001"
  else if input =? 2 then bin "11010001"
  else if input =? 3 then bin "11100001"
  else bin "11110001".

(** [writeBuf[2]]: bits 7-0. *)
Definition config_low : Z := bin "10000101".

(** The three bytes written to start a conversion. *)
Definition writeBuf (input : Z) : list Z :=
  [1; config_high input; config_low].

(** The 16-bit configuration word the two config bytes form on the wire. *)
Definition config_word (input : Z) : Z :=
  Z.lor (Z.shiftl (config_high input) 8) config_low.

(** Bits 14-12 of a configuration word. *)
Definition mux_code (w : Z) : Z := Z.land (Z.shiftr w 12) 7.

(* ===================================================================== *)
(** ** From the two result bytes to the verdict (lines 185-211) *)
(* ===================================================================== *)

(** [val = readBuf[0] << 8 | readBuf[1]], stored in an [int16_t]. *)
Definition compose (b0 b1 : Z) : Z :=
  to_int16 (Z.lor (Z.shiftl b0 8) b1).

(** [if (val < 0 || val > 32768) val = 0;] *)
Definition clamp_fires (val : Z) : bool := (val <? 0) || (val >? 32768).

Definition clamp (val : Z) : Z := if clamp_fires val then 0 else val.

(** [voltage = val * VPS]. *)
Definition toVoltage (val : Z) : float := F32.mul (float_of_int val) VPS.

(** [(slope * val) - con], before the floor. *)
Definition linear (slope con : float) (val : Z) : float :=
  F32.sub (F32.mul slope (float_of_int val)) con.

(** [if (pressure < 0.0) pressure = 0.0;] *)
Definition floor0 (p : float) : float :=
  if F64.ltb (double_of_float p) d_zero then float_of_double d_zero else p.

(** The pressure assigned at lines 191-193. *)
Definition toPressure (slope con : float) (val : Z) : float :=
  floor0 (linear slope con val).

(** The three branches of the final comparison. *)
Inductive verdict : Type :=
| CriticalBelow
| CriticalOver
| Ok.

Definition classify (pressure minpressure maxpressure : float) : verdict :=
  if F32.ltb pressure minpressure then CriticalBelow
  else if F32.ltb maxpressure pressure then CriticalOver
  else Ok.

(** The value given to [nagiosexit] in each branch. *)
Definition nagiosexit (v : verdict) : Z :=
  match v with
  | CriticalBelow => 2
  | CriticalOver => 2
  | Ok => 0
  end.

Definition is_critical (v : verdict) : bool :=
  match v with
  | Ok => false
  | _ => true
  end.

(** Everything computed from the two bytes of the conversion register. *)
Record reading : Type := mkReading {
  val : Z;
  voltage : float;
  pressure : float;
  status : verdict
}.

Definition evaluate (st : settings) (b0 b1 : Z) : reading :=
  let slope := slope_of (low st) (high st) in
  let con := con_of slope in
  let val := clamp (compose b0 b1) in
  let pressure := toPressure slope con val in
  {| val := val;
     voltage := toVoltage val;
     pressure := pressure;
     status := classify pressure (minpressure st) (maxpressure st) |}.

(* ===================================================================== *)
(** ** The program *)
(* ===================================================================== *)

(** What [printf] and [fprintf] are called with: one constructor per
    format string of the source, carrying the arguments. *)
Inductive message : Type :=
| Usage
| ErrInput
| ErrThresholds
| DebugDevice (dev : string) (addr input : Z)
| DebugCoeffs (maxv minv : double) (slope con : float)
| ErrOpen (dev : string)
| ErrAddress
| DebugReading (anc val : Z) (voltage pressure : float)
| CriticalBelowMsg (dev : string) (addr : Z) (pressure minpressure : float)
| CriticalOverMsg (dev : string) (addr : Z) (pressure maxpressure : float)
| OkMsg (dev : string) (addr : Z) (pressure : float).

(** The calls [main] makes.  [Read2 fd] is [read(fd, buf, 2)]: it answers
    the return value and the two bytes [buf[0]], [buf[1]] hold after the
    call. *)
Variant sysE : Type -> Type :=
| Printf (m : message) : sysE unit
| Perror (s : string) : sysE unit
| Open (path : string) : sysE Z
| Ioctl (fd : Z) (addr : Z) : sysE Z
| Write (fd : Z) (buf : list Z) : sysE Z
| Read2 (fd : Z) : sysE (Z * (Z * Z))
| Close (fd : Z) : sysE unit.

(** [if (verbose) printf(...)]. *)
Definition debug (st : settings) (m : message) : itree sysE unit :=
  if verbose st =? 0 then Ret tt else ITree.trigger (Printf m).

(** A call of [exit] after a message. *)
Definition die (m : message) : itree sysE Z :=
  ITree.trigger (Printf m);; Ret EXIT_FAILURE.

Definition die_perror (s : string) : itree sysE Z :=
  ITree.trigger (Perror s);; Ret EXIT_FAILURE.

(** The [do ... while ((writeBuf[0] & 0x80) == 0)] loop (lines 165-170):
    [false] when a read fails, [true] once bit 15 is seen. *)
Definition wait_ready (fd : Z) : itree sysE bool :=
  ITree.iter
    (fun _ : unit =>
       r <- ITree.trigger (Read2 fd);;
       if negb (fst r =? 2) then
         ITree.trigger (Perror "Read conversion");; Ret (inr false)
       else if Z.land (fst (snd r)) 0x80 =? 0 then Ret (inl tt)
       else Ret (inr true))
    tt.

(** The final report (lines 195-214). *)
Definition report (st : settings) (fd : Z) (r : reading) : itree sysE Z :=
  debug st (DebugReading (input st - 1) (val r) (voltage r) (pressure r));;
  ITree.trigger
    (Printf
       match status r with
       | CriticalBelow =>
           CriticalBelowMsg (i2cdevice st) (ads_address st) (pressure r)
             (minpressure st)
       | CriticalOver =>
           CriticalOverMsg (i2cdevice st) (ads_address st) (pressure r)
             (maxpressure st)
       | Ok => OkMsg (i2cdevice st) (ads_address st) (pressure r)
       end);;
  ITree.trigger (Close fd);;
  Ret (nagiosexit (status r)).

(** Lines 111-214: everything after the two argument checks. *)
Definition acquire (st : settings) : itree sysE Z :=
  let slope := slope_of (low st) (high st) in
  let con := con_of slope in
  debug st (DebugDevice (i2cdevice st) (ads_address st) (input st));;
  debug st (DebugCoeffs maxval minval slope con);;
  fd <- ITree.trigger (Open (i2cdevice st));;
  if fd <? 0 then die (ErrOpen (i2cdevice st))
  else
    rc <- ITree.trigger (Ioctl fd (ads_address st));;
    if rc <? 0 then die ErrAddress
    else
      n <- ITree.trigger (Write fd (writeBuf (input st)));;
      if negb (n =? 3) then die_perror "Write to register 1"
      else
        ready <- wait_ready fd;;
        if negb ready then Ret EXIT_FAILURE
        else
          n <- ITree.trigger (Write fd [0]);;
          if negb (n =? 1) then die_perror "Write register select"
          else
            r <- ITree.trigger (Read2 fd);;
            if negb (fst r =? 2) then die_perror "Read conversion"
            else report st fd (evaluate st (fst (snd r)) (snd (snd r))).

(** [main], on the options [getopt] delivers. *)
Definition main (opts : list cli_opt) : itree sysE Z :=
  match parse_options opts with
  | None => die Usage
  | Some st =>
      if input_out_of_range st then die ErrInput
      else if thresholds_missing st then die ErrThresholds
      else acquire st
  end.

(* ===================================================================== *)
(** ** Auxiliary definitions for the proofs *)
(* ===================================================================== *)

(** The comparison of [SpecFloat] is the lexicographic order of a triple:
    the class of the number, then exponent and mantissa (negated for a
    negative number).  A NaN has no rank. *)
Definition rank (x : spec_float) : option (Z * Z * Z) :=
  match x with
  | S754_nan => None
  | S754_infinity true => Some (-2, 0, 0)
  | S754_infinity false => Some (2, 0, 0)
  | S754_zero _ => Some (0, 0, 0)
  | S754_finite true m e => Some (-1, - e, - Zpos m)
  | S754_finite false m e => Some (1, e, Zpos m)
  end.

Definition lex_compare (a b : Z * Z * Z) : comparison :=
  let '(a1, a2, a3) := a in
  let '(b1, b2, b3) := b in
  match a1 ?= b1 with
  | Eq => match a2 ?= b2 with
          | Eq => a3 ?= b3
          | c => c
          end
  | c => c
  end.

Definition lex_lt (a b : Z * Z * Z) : Prop :=
  let '(a1, a2, a3) := a in
  let '(b1, b2, b3) := b in
  a1 < b1 \/ (a1 = b1 /\ (a2 < b2 \/ (a2 = b2 /\ a3 < b3))).

Definition is_nan (x : spec_float) : bool :=
  match x with
  | S754_nan => true
  | _ => false
  end.

(** Options that set the minimum, respectively the maximum, threshold. *)
Definition is_opt_m (o : cli_opt) : bool :=
  match o with
  | Opt_m _ => true
  | _ => false
  end.

Definition is_opt_M (o : cli_opt) : bool :=
  match o with
  | Opt_M _ => true
  | _ => false
  end.

(** *** Rounding *)

(** Round to nearest, ties to even, of [x / 2^k]. *)
Definition rne (x k : Z) : Z :=
  let q := x / 2 ^ k in
  match 2 * (x mod 2 ^ k) ?= 2 ^ k with
  | Lt => q
  | Eq => if Z.even q then q else q + 1
  | Gt => q + 1
  end.

(** The value [X], an integer multiple of [2^L], rounded to the format:
    again as a multiple of [2^L]. *)
Definition Rv (prec emax L X : Z) : Z :=
  let k := fexp prec emax (Zdigits2 X + L) - L in
  rne X k * 2 ^ k.

(** [represents s f X]: the float [f] has sign [s] and magnitude
    [X * 2^L], where a magnitude from [2^emax] on is an infinity. *)
Inductive represents (prec emax L : Z) (s : bool) : spec_float -> Z -> Prop :=
| repr_zero : represents prec emax L s (S754_zero s) 0
| repr_finite (m : positive) (e : Z) :
    bounded prec emax m e = true ->
    represents prec emax L s (S754_finite s m e) (Zpos m * 2 ^ (e - L))
| repr_inf (X : Z) :
    2 ^ (emax - L) <= X ->
    represents prec emax L s (S754_infinity s) X.

(** [srep f D]: the float [f] stands for the rounding of the signed
    value [D * 2^L]. *)
Definition srep (prec emax L : Z) (szero : bool) (f : spec_float) (D : Z) : Prop :=
  match D ?= 0 with
  | Eq => f = S754_zero szero
  | Gt => represents prec emax L false f (Rv prec emax L D)
  | Lt => represents prec emax L true f (Rv prec emax L (- D))
  end.

(** Scales: single-precision values are counted in units of [2^-149],
    their products and the pressures in units of [2^-298], doubles in
    units of [2^-1074]. *)
Definition L1 : Z := -149.
Definition L2 : Z := -298.
Definition LD : Z := -1074.

(** Signed value of a finite float, in units of [2^L]. *)
Definition sval (L : Z) (x : spec_float) : Z :=
  match x with
  | S754_finite s m e => cond_Zopp s (Zpos m * 2 ^ (e - L))
  | _ => 0
  end.

Definition is_finite (x : spec_float) : bool :=
  match x with
  | S754_zero _ | S754_finite _ _ _ => true
  | _ => false
  end.

(** Zero or positive finite, with a clear sign bit. *)
Definition is_nonneg_finite (x : spec_float) : bool :=
  match x with
  | S754_zero false | S754_finite false _ _ => true
  | _ => false
  end.

Definition is_zero (x : spec_float) : bool :=
  match x with
  | S754_zero _ => true
  | _ => false
  end.

(** [has_sign s x]: [x] is a NaN or carries the sign bit [s]. *)
Definition has_sign (s : bool) (x : spec_float) : bool :=
  match x with
  | S754_nan => true
  | S754_zero s' | S754_infinity s' | S754_finite s' _ _ => Bool.eqb s' s
  end.

(** The sign bit of a float; a NaN has none. *)
Definition sign_bit (x : spec_float) : bool :=
  match x with
  | S754_zero s | S754_infinity s | S754_finite s _ _ => s
  | S754_nan => false
  end.


(* ===================================================================== *)
(** ** Auxiliary definitions: runs of [main] *)
(* ===================================================================== *)

(** *** Runs of the program *)

(** One call of the program together with the answer it received. *)
Inductive io : Type :=
| IO {X : Type} (e : sysE X) (x : X).

(** [runs t tr r]: the tree [t] can perform the calls of [tr], receiving
    the answers recorded there, and then return [r]. *)
Inductive runs {R : Type} : itree sysE R -> list io -> R -> Prop :=
| runs_ret (t : itree sysE R) (r : R) :
    observe t = RetF r -> runs t [] r
| runs_tau (t u : itree sysE R) (tr : list io) (r : R) :
    observe t = TauF u -> runs u tr r -> runs t tr r
| runs_vis (X : Type) (e : sysE X) (t : itree sysE R) (k : X -> itree sysE R)
    (x : X) (tr : list io) (r : R) :
    observe t = VisF e k -> runs (k x) tr r -> runs t (IO e x :: tr) r.

(** *** The ways a run can end *)

(** What [debug st m] leaves on a trace. *)
Definition debug_io (st : settings) (m : message) : list io :=
  if verbose st =? 0 then [] else [IO (Printf m) tt].

(** A [read] of two bytes that returned 2 and left [p] in the buffer. *)
Definition poll_io (fd : Z) (p : Z * Z) : io := IO (Read2 fd) (2, p).

(** The test of the [do ... while]: bit 7 of the first byte is clear. *)
Definition busy (p : Z * Z) : bool := Z.land (fst p) 0x80 =? 0.

(** The line printed at lines 199-211. *)
Definition verdict_message (st : settings) (r : reading) : message :=
  match status r with
  | CriticalBelow =>
      CriticalBelowMsg (i2cdevice st) (ads_address st) (pressure r)
        (minpressure st)
  | CriticalOver =>
      CriticalOverMsg (i2cdevice st) (ads_address st) (pressure r)
        (maxpressure st)
  | Ok => OkMsg (i2cdevice st) (ads_address st) (pressure r)
  end.

(** The ways a run of lines 111-214 can end, with the answers the calls
    received: [fd] from [open], [rc] from [ioctl], [n] from a [write],
    [polls] the buffers of the reads that found the conversion still
    running, [ready] the one that found it complete, [bad] a failed
    [read], [sample] the two bytes of the conversion register. *)
Inductive outcome : Type :=
| OpenFailed (fd : Z)
| AddressFailed (fd rc : Z)
| ConfigFailed (fd rc n : Z)
| PollFailed (fd rc : Z) (polls : list (Z * Z)) (bad : Z * (Z * Z))
| SelectFailed (fd rc : Z) (polls : list (Z * Z)) (ready : Z * Z) (n : Z)
| SampleFailed (fd rc : Z) (polls : list (Z * Z)) (ready : Z * Z)
    (bad : Z * (Z * Z))
| Completed (fd rc : Z) (polls : list (Z * Z)) (ready sample : Z * Z).

(** The answers an outcome is made of are those that lead the code to it. *)
Definition possible (o : outcome) : bool :=
  match o with
  | OpenFailed fd => fd <? 0
  | AddressFailed fd rc => negb (fd <? 0) && (rc <? 0)
  | ConfigFailed fd rc n => negb (fd <? 0) && negb (rc <? 0) && negb (n =? 3)
  | PollFailed fd rc polls bad =>
      negb (fd <? 0) && negb (rc <? 0) && forallb busy polls
      && negb (fst bad =? 2)
  | SelectFailed fd rc polls ready n =>
      negb (fd <? 0) && negb (rc <? 0) && forallb busy polls
      && negb (busy ready) && negb (n =? 1)
  | SampleFailed fd rc polls ready bad =>
      negb (fd <? 0) && negb (rc <? 0) && forallb busy polls
      && negb (busy ready) && negb (fst bad =? 2)
  | Completed fd rc polls ready sample =>
      negb (fd <? 0) && negb (rc <? 0) && forallb busy polls
      && negb (busy ready)
  end.

(** The calls up to and including [open], [ioctl], the first [write] and
    the polls that found the conversion running. *)
Definition upto_open (st : settings) (fd : Z) : list io :=
  debug_io st (DebugDevice (i2cdevice st) (ads_address st) (input st))
  ++ debug_io st
       (DebugCoeffs maxval minval (slope_of (low st) (high st))
          (con_of (slope_of (low st) (high st))))
  ++ [IO (Open (i2cdevice st)) fd].

Definition upto_address (st : settings) (fd rc : Z) : list io :=
  upto_open st fd ++ [IO (Ioctl fd (ads_address st)) rc].

Definition upto_config (st : settings) (fd rc n : Z) : list io :=
  upto_address st fd rc ++ [IO (Write fd (writeBuf (input st))) n].

Definition upto_polls (st : settings) (fd rc : Z) (polls : list (Z * Z))
  : list io :=
  upto_config st fd rc 3 ++ List.map (poll_io fd) polls.

(** The calls of lines 195-213. *)
Definition report_io (st : settings) (fd : Z) (r : reading) : list io :=
  debug_io st (DebugReading (input st - 1) (val r) (voltage r) (pressure r))
  ++ [IO (Printf (verdict_message st r)) tt; IO (Close fd) tt].

(** The calls of an outcome, in order, and its exit status. *)
Definition trace_of (st : settings) (o : outcome) : list io :=
  match o with
  | OpenFailed fd =>
      upto_open st fd ++ [IO (Printf (ErrOpen (i2cdevice st))) tt]
  | AddressFailed fd rc =>
      upto_address st fd rc ++ [IO (Printf ErrAddress) tt]
  | ConfigFailed fd rc n =>
      upto_config st fd rc n ++ [IO (Perror "Write to register 1") tt]
  | PollFailed fd rc polls bad =>
      upto_polls st fd rc polls
      ++ [IO (Read2 fd) bad; IO (Perror "Read conversion") tt]
  | SelectFailed fd rc polls ready n =>
      upto_polls st fd rc polls
      ++ [poll_io fd ready; IO (Write fd [0]) n;
          IO (Perror "Write register select") tt]
  | SampleFailed fd rc polls ready bad =>
      upto_polls st fd rc polls
      ++ [poll_io fd ready; IO (Write fd [0]) 1; IO (Read2 fd) bad;
          IO (Perror "Read conversion") tt]
  | Completed fd rc polls ready sample =>
      upto_polls st fd rc polls
      ++ [poll_io fd ready; IO (Write fd [0]) 1; poll_io fd sample]
      ++ report_io st fd (evaluate st (fst sample) (snd sample))
  end.

Definition exit_of (st : settings) (o : outcome) : Z :=
  match o with
  | Completed _ _ _ _ sample =>
      nagiosexit (status (evaluate st (fst sample) (snd sample)))
  | _ => EXIT_FAILURE
  end.

(** How a run of the polling loop ends. *)
Definition poll_end (fd : Z) (b : bool) (tl : list io) : Prop :=
  if b then exists ready, busy ready = false /\ tl = [poll_io fd ready]
  else exists bad,
      (fst bad =? 2) = false /\
      tl = [IO (Read2 fd) bad; IO (Perror "Read conversion") tt].

(** *** What a trace shows *)

(** The descriptors [open] answered. *)
Definition opened_by (ev : io) : list Z :=
  match ev with
  | IO e x =>
      match e in sysE X return X -> list Z with
      | Open _ => fun fd => [fd]
      | _ => fun _ => []
      end x
  end.

(** The descriptors passed to [close]. *)
Definition closed_by (ev : io) : list Z :=
  match ev with
  | IO e _ => match e with Close fd => [fd] | _ => [] end
  end.

(** The descriptors passed to [ioctl], [write], [read] and [close]. *)
Definition used_by (ev : io) : list Z :=
  match ev with
  | IO e _ =>
      match e with
      | Ioctl fd _ | Write fd _ | Read2 fd | Close fd => [fd]
      | _ => []
      end
  end.

(** The buffers passed to [write]. *)
Definition written_by (ev : io) : list (list Z) :=
  match ev with
  | IO e _ => match e with Write _ buf => [buf] | _ => [] end
  end.

(** The Nagios status a printed line announces: 2 for a CRITICAL line,
    0 for an OK line. *)
Definition announced_by (ev : io) : list Z :=
  match ev with
  | IO e _ =>
      match e with
      | Printf (CriticalBelowMsg _ _ _ _) => [2]
      | Printf (CriticalOverMsg _ _ _ _) => [2]
      | Printf (OkMsg _ _ _) => [0]
      | _ => []
      end
  end.

(** A [DEBUG] line, printed only under [-v]. *)
Definition is_debug (ev : io) : bool :=
  match ev with
  | IO e _ =>
      match e with
      | Printf (DebugDevice _ _ _) => true
      | Printf (DebugCoeffs _ _ _ _) => true
      | Printf (DebugReading _ _ _ _) => true
      | _ => false
      end
  end.

(** The projections of a whole trace. *)
Definition opened (tr : list io) : list Z := flat_map opened_by tr.

Definition closed (tr : list io) : list Z := flat_map closed_by tr.

Definition used (tr : list io) : list Z := flat_map used_by tr.

Definition written (tr : list io) : list (list Z) := flat_map written_by tr.

Definition announced (tr : list io) : list Z := flat_map announced_by tr.

Definition quiet (tr : list io) : list io :=
  filter (fun ev => negb (is_debug ev)) tr.

(** *** The command line, variable by variable *)

(** Two settings that differ at most in [verbose]. *)
Definition same_but_verbose (a b : settings) : Prop :=
  input a = input b /\ ads_address a = ads_address b /\
  i2cdevice a = i2cdevice b /\ minpressure a = minpressure b /\
  maxpressure a = maxpressure b /\ low a = low b /\ high a = high b.

(** The value the last option of one kind gives to its variable, [d]
    when there is none. *)
Definition last_of {A : Type} (sel : cli_opt -> option A) (d : A)
    (opts : list cli_opt) : A :=
  fold_left (fun acc o => match sel o with Some x => x | None => acc end)
    opts d.

(** The variable each option assigns, with the value assigned. *)
Definition sets_verbose (o : cli_opt) : option Z :=
  match o with Opt_v => Some 1 | _ => None end.

Definition sets_input (o : cli_opt) : option Z :=
  match o with Opt_i n => Some n | _ => None end.

Definition sets_address (o : cli_opt) : option Z :=
  match o with Opt_a n | Opt_A n => Some n | _ => None end.

Definition sets_device (o : cli_opt) : option string :=
  match o with Opt_d s => Some (strncpy s) | _ => None end.

Definition sets_min (o : cli_opt) : option float :=
  match o with Opt_m d => Some (float_of_double d) | _ => None end.

Definition sets_max (o : cli_opt) : option float :=
  match o with Opt_M d => Some (float_of_double d) | _ => None end.

Definition sets_low (o : cli_opt) : option float :=
  match o with Opt_l d => Some (float_of_double d) | _ => None end.

Definition sets_high (o : cli_opt) : option float :=
  match o with Opt_h d => Some (float_of_double d) | _ => None end.

(** The [default] case of the [switch]. *)
Definition is_other (o : cli_opt) : bool :=
  match o with Opt_other => true | _ => false end.

(** Options that set the device path. *)
Definition is_opt_d (o : cli_opt) : bool :=
  match o with Opt_d _ => true | _ => false end.

(** *** A complete run *)

(** The command line [-m 2 -M 8], the settings it gives, and the run in
    which [open] answers 3, the conversion is found running once, and the
    conversion register then holds 0x2986 = 10630. *)
Definition demo_opts : list cli_opt := [Opt_m (F64.of_Z 2); Opt_M (F64.of_Z 8)].

Definition demo_settings : settings :=
  mkSettings 0 1 0x48 "/dev/i2c-1" (F32.of_Z 2) (F32.of_Z 8)
    (F32.of_Z 0) (F32.of_Z 10).

Definition demo_outcome : outcome :=
  Completed 3 0 [(0x05, 0x83)] (0x85, 0x83) (0x29, 0x86).

(* ===================================================================== *)
(** * Properties *)
(* ===================================================================== *)

(** ** Integer facts: bytes, composition, clamp *)

Lemma lor_shiftl_8 (b0 b1 : Z) :
  0 <= b0 -> is_uint8 b1 -> Z.lor (Z.shiftl b0 8) b1 = b0 * 256 + b1.
Proof.
  intros H0 [H1 H2].
  rewrite Z.shiftl_mul_pow2 by lia.
  change (2 ^ 8) with 256.
  rewrite <- Z.lxor_lor.
  - symmetry. apply Z.add_nocarry_lxor.
    apply Z.bits_inj'. intros n Hn.
    rewrite Z.land_spec, Z.bits_0.
    destruct (Z.lt_ge_cases n 8) as [Hlt | Hge].
    + change 256 with (2 ^ 8). rewrite Z.mul_pow2_bits_low by lia. reflexivity.
    + replace (Z.testbit b1 n) with false; [apply andb_false_r |].
      symmetry. destruct (Z.eq_dec b1 0) as [-> | Hnz]; [apply Z.bits_0 |].
      apply Z.bits_above_log2; [lia |].
      apply Z.log2_lt_pow2; [lia |].
      apply Z.lt_le_trans with (2 ^ 8); [exact H2 |].
      apply Z.pow_le_mono_r; lia.
  - apply Z.bits_inj'. intros n Hn.
    rewrite Z.land_spec, Z.bits_0.
    destruct (Z.lt_ge_cases n 8) as [Hlt | Hge].
    + change 256 with (2 ^ 8). rewrite Z.mul_pow2_bits_low by lia. reflexivity.
    + replace (Z.testbit b1 n) with false; [apply andb_false_r |].
      symmetry. destruct (Z.eq_dec b1 0) as [-> | Hnz]; [apply Z.bits_0 |].
      apply Z.bits_above_log2; [lia |].
      apply Z.log2_lt_pow2; [lia |].
      apply Z.lt_le_trans with (2 ^ 8); [exact H2 |].
      apply Z.pow_le_mono_r; lia.
Qed.

Lemma to_int16_range (z : Z) : -32768 <= to_int16 z <= 32767.
Proof.
  unfold to_int16.
  pose proof (Z.mod_pos_bound (z + 32768) 65536 ltac:(lia)). lia.
Qed.

Lemma compose_cases (b0 b1 : Z) :
  is_uint8 b0 -> is_uint8 b1 ->
  compose b0 b1 = if b0 <? 128 then b0 * 256 + b1 else b0 * 256 + b1 - 65536.
Proof.
  intros [H0 H0'] [H1 H1'].
  unfold compose, to_int16.
  rewrite lor_shiftl_8 by (unfold is_uint8; lia).
  destruct (Z.ltb_spec b0 128).
  - rewrite Z.mod_small by lia. lia.
  - replace (b0 * 256 + b1 + 32768) with (b0 * 256 + b1 - 32768 + 1 * 65536) by lia.
    rewrite Z.mod_add by lia. rewrite Z.mod_small by lia. lia.
Qed.

Lemma testbit_7_uint8 (b : Z) : is_uint8 b -> Z.testbit b 7 = negb (b <? 128).
Proof.
  intros [H0 H1].
  pose proof (Z.testbit_spec' b 7 ltac:(lia)) as Hs.
  change (2 ^ 7) with 128 in Hs.
  destruct (Z.ltb_spec b 128) as [Hlt | Hge]; cbn [negb].
  - rewrite Z.div_small in Hs by lia.
    destruct (Z.testbit b 7); [discriminate Hs | reflexivity].
  - assert (Hq : b / 128 = 1).
    { symmetry. apply Z.div_unique with (b - 128); lia. }
    rewrite Hq in Hs.
    destruct (Z.testbit b 7); [reflexivity | discriminate Hs].
Qed.

(** ** The order of floating-point values *)

Lemma SFcompare_rank (x y : spec_float) :
  SFcompare x y =
  match rank x, rank y with
  | Some a, Some b => Some (lex_compare a b)
  | _, _ => None
  end.
Proof.
  destruct x as [[|]|[|]| |[|] m1 e1], y as [[|]|[|]| |[|] m2 e2];
    try reflexivity.
  cbn -[Z.compare]. rewrite Z.compare_opp.
  rewrite (Z.compare_antisym e1 e2).
  destruct (e1 ?= e2); reflexivity.
Qed.

Lemma lex_compare_Lt (a b : Z * Z * Z) : lex_compare a b = Lt <-> lex_lt a b.
Proof.
  destruct a as [[a1 a2] a3], b as [[b1 b2] b3]. unfold lex_compare, lex_lt.
  destruct (Z.compare_spec a1 b1), (Z.compare_spec a2 b2),
    (Z.compare_spec a3 b3); split; intros HH; try discriminate; try lia;
    reflexivity.
Qed.

Lemma lex_compare_Eq (a b : Z * Z * Z) : lex_compare a b = Eq <-> a = b.
Proof.
  destruct a as [[a1 a2] a3], b as [[b1 b2] b3]. unfold lex_compare.
  destruct (Z.compare_spec a1 b1), (Z.compare_spec a2 b2),
    (Z.compare_spec a3 b3); split; intros HH; try discriminate;
    try (injection HH; lia); subst; reflexivity.
Qed.

Lemma lex_compare_Gt (a b : Z * Z * Z) : lex_compare a b = Gt <-> lex_lt b a.
Proof.
  destruct a as [[a1 a2] a3], b as [[b1 b2] b3]. unfold lex_compare, lex_lt.
  destruct (Z.compare_spec a1 b1), (Z.compare_spec a2 b2),
    (Z.compare_spec a3 b3); split; intros HH; try discriminate; try lia;
    reflexivity.
Qed.

Lemma SFltb_rank (x y : spec_float) :
  SFltb x y = true <->
  exists a b, rank x = Some a /\ rank y = Some b /\ lex_lt a b.
Proof.
  unfold SFltb. rewrite SFcompare_rank.
  destruct (rank x) as [a|], (rank y) as [b|].
  - destruct (lex_compare a b) eqn:E; split; intros H; try discriminate.
    + destruct H as (a' & b' & Ha & Hb & Hlt). injection Ha as <-.
      injection Hb as <-. apply lex_compare_Lt in Hlt. congruence.
    + exists a, b. repeat split. apply lex_compare_Lt. exact E.
    + reflexivity.
    + destruct H as (a' & b' & Ha & Hb & Hlt). injection Ha as <-.
      injection Hb as <-. apply lex_compare_Lt in Hlt. congruence.
  - split; [discriminate | intros (a' & b' & _ & Hb & _); discriminate].
  - split; [discriminate | intros (a' & b' & Ha & _ & _); discriminate].
  - split; [discriminate | intros (a' & b' & Ha & _ & _); discriminate].
Qed.

Lemma SFltb_false_rank (x y : spec_float) (a b : Z * Z * Z) :
  rank x = Some a -> rank y = Some b ->
  SFltb x y = false -> a = b \/ lex_lt b a.
Proof.
  intros Ha Hb. unfold SFltb. rewrite SFcompare_rank, Ha, Hb.
  destruct (lex_compare a b) eqn:E; intros H; try discriminate.
  - left. apply lex_compare_Eq. exact E.
  - right. apply lex_compare_Gt. exact E.
Qed.

Lemma SFeqb_rank (x y : spec_float) :
  SFeqb x y = true <-> exists a, rank x = Some a /\ rank y = Some a.
Proof.
  unfold SFeqb. rewrite SFcompare_rank.
  destruct (rank x) as [a|], (rank y) as [b|].
  - destruct (lex_compare a b) eqn:E; split; intros H; try discriminate.
    + apply lex_compare_Eq in E. subst. exists b. split; reflexivity.
    + reflexivity.
    + destruct H as (c & Ha & Hb). assert (a = b) as Hab by congruence.
      apply lex_compare_Eq in Hab. congruence.
    + destruct H as (c & Ha & Hb). assert (a = b) as Hab by congruence.
      apply lex_compare_Eq in Hab. congruence.
  - split; [discriminate | intros (c & _ & Hb); discriminate].
  - split; [discriminate | intros (c & Ha & _); discriminate].
  - split; [discriminate | intros (c & Ha & _); discriminate].
Qed.

Lemma SFleb_rank (x y : spec_float) :
  SFleb x y = true <->
  exists a b, rank x = Some a /\ rank y = Some b /\ (a = b \/ lex_lt a b).
Proof.
  unfold SFleb. rewrite SFcompare_rank.
  destruct (rank x) as [a|], (rank y) as [b|].
  - destruct (lex_compare a b) eqn:E; split; intros H; try discriminate;
      try reflexivity.
    + exists a, b. repeat split. left. apply lex_compare_Eq. exact E.
    + exists a, b. repeat split. right. apply lex_compare_Lt. exact E.
    + destruct H as (a' & b' & Ha & Hb & [Heq | Hlt]); injection Ha as <-;
        injection Hb as <-.
      * apply lex_compare_Eq in Heq. congruence.
      * apply lex_compare_Lt in Hlt. congruence.
  - split; [discriminate | intros (a' & b' & _ & Hb & _); discriminate].
  - split; [discriminate | intros (a' & b' & Ha & _ & _); discriminate].
  - split; [discriminate | intros (a' & b' & Ha & _ & _); discriminate].
Qed.

Lemma lex_lt_trans (a b c : Z * Z * Z) : lex_lt a b -> lex_lt b c -> lex_lt a c.
Proof.
  destruct a as [[a1 a2] a3], b as [[b1 b2] b3], c as [[c1 c2] c3].
  unfold lex_lt. lia.
Qed.

Lemma lex_lt_irrefl (a : Z * Z * Z) : ~ lex_lt a a.
Proof. destruct a as [[a1 a2] a3]. unfold lex_lt. lia. Qed.

Lemma rank_not_nan (x : spec_float) :
  is_nan x = false -> exists a, rank x = Some a.
Proof.
  destruct x as [[|]|[|]| |[|] m e]; intros H; try discriminate; eexists;
    reflexivity.
Qed.


(** ** Right shifts and rounding to nearest-even *)

Lemma iter_pos_nat {A : Type} (f : A -> A) (p : positive) (x : A) :
  iter_pos f p x = Nat.iter (Pos.to_nat p) f x.
Proof.
  revert x. induction p as [p IH | p IH |]; intros x; cbn [iter_pos].
  - rewrite !IH, Pos2Nat.inj_xI.
    replace (S (2 * Pos.to_nat p))%nat
      with (Pos.to_nat p + (Pos.to_nat p + 1))%nat by lia.
    rewrite !Nat.iter_add. reflexivity.
  - rewrite !IH, Pos2Nat.inj_xO.
    replace (2 * Pos.to_nat p)%nat with (Pos.to_nat p + Pos.to_nat p)%nat by lia.
    rewrite Nat.iter_add. reflexivity.
  - reflexivity.
Qed.

Lemma shr_1_nonneg (m : Z) (r s : bool) :
  0 <= m ->
  shr_1 (Build_shr_record m r s) = Build_shr_record (m / 2) (Z.odd m) (r || s).
Proof.
  intros Hm. destruct m as [| p | p]; [reflexivity | | lia].
  destruct p as [p | p |]; cbn [shr_1 Z.odd].
  - replace (Z.pos p~1 / 2) with (Z.pos p); [reflexivity |].
    apply Z.div_unique with 1; lia.
  - replace (Z.pos p~0 / 2) with (Z.pos p); [reflexivity |].
    apply Z.div_unique with 0; lia.
  - reflexivity.
Qed.

Lemma mod_pow2_succ (m k : Z) :
  0 <= k ->
  m mod 2 ^ (k + 1) = 2 ^ k * ((m / 2 ^ k) mod 2) + m mod 2 ^ k.
Proof.
  intros Hk. rewrite Z.pow_add_r by lia. change (2 ^ 1) with 2.
  rewrite Z.rem_mul_r by lia. lia.
Qed.

Lemma odd_mod2 (m : Z) : Z.odd m = (1 <=? m mod 2).
Proof.
  rewrite Zmod_odd. destruct (Z.odd m); reflexivity.
Qed.

(** The state after [j + 1] right shifts. *)
Lemma shr_iter_spec (m : Z) (j : nat) :
  0 <= m ->
  Nat.iter (S j) shr_1 (Build_shr_record m false false) =
  Build_shr_record (m / 2 ^ (Z.of_nat j + 1))
    (2 ^ Z.of_nat j <=? m mod 2 ^ (Z.of_nat j + 1))
    (negb (m mod 2 ^ Z.of_nat j =? 0)).
Proof.
  intros Hm. induction j as [| j IH].
  - cbn [Nat.iter nat_rect]. rewrite shr_1_nonneg by exact Hm.
    change (Z.of_nat 0) with 0. change (2 ^ (0 + 1)) with 2.
    change (2 ^ 0) with 1. rewrite Z.mod_1_r. rewrite odd_mod2. reflexivity.
  - change (Nat.iter (S (S j)) shr_1 ?x) with (shr_1 (Nat.iter (S j) shr_1 x)).
    rewrite IH. rewrite Nat2Z.inj_succ. unfold Z.succ.
    set (k := Z.of_nat j). assert (Hk : 0 <= k) by lia.
    assert (Hp : 0 < 2 ^ k) by (apply Z.pow_pos_nonneg; lia).
    assert (Hp1 : 0 < 2 ^ (k + 1)) by (apply Z.pow_pos_nonneg; lia).
    rewrite shr_1_nonneg by (apply Z.div_pos; lia).
    f_equal.
    + rewrite Z.div_div by lia. f_equal.
      rewrite (Z.pow_add_r 2 (k + 1) 1) by lia. reflexivity.
    + rewrite odd_mod2.
      rewrite (mod_pow2_succ m (k + 1)) by lia.
      pose proof (Z.mod_pos_bound (m / 2 ^ (k + 1)) 2 ltac:(lia)).
      pose proof (Z.mod_pos_bound m (2 ^ (k + 1)) Hp1).
      set (b := (m / 2 ^ (k + 1)) mod 2) in *.
      set (rem := m mod 2 ^ (k + 1)) in *.
      set (P := 2 ^ (k + 1)) in *. clearbody b rem P.
      assert (Hb : b = 0 \/ b = 1) by lia.
      destruct Hb as [-> | ->]; cbn [Z.leb Z.compare];
        [symmetry; apply Z.leb_gt | symmetry; apply Z.leb_le]; lia.
    + rewrite (mod_pow2_succ m k) by lia.
      pose proof (Z.mod_pos_bound (m / 2 ^ k) 2 ltac:(lia)).
      pose proof (Z.mod_pos_bound m (2 ^ k) Hp).
      set (b := (m / 2 ^ k) mod 2) in *.
      set (rem := m mod 2 ^ k) in *.
      set (P := 2 ^ k) in *. clearbody b rem P.
      assert (Hb : b = 0 \/ b = 1) by lia.
      destruct Hb as [-> | ->]; rewrite ?Z.mul_0_r, ?Z.mul_1_r, ?Z.add_0_l;
        repeat match goal with
               | |- context [Z.leb ?a ?b] => destruct (Z.leb_spec a b)
               | |- context [Z.eqb ?a ?b] => destruct (Z.eqb_spec a b)
               end; try reflexivity; exfalso; lia.
Qed.

(** Shifting right by [n > 0] and rounding is [rne]. *)
Lemma shr_round (m e n : Z) :
  0 <= m -> 0 < n ->
  let mrs := fst (shr (Build_shr_record m false false) e n) in
  round_nearest_even (shr_m mrs) (loc_of_shr_record mrs) = rne m n /\
  snd (shr (Build_shr_record m false false) e n) = e + n.
Proof.
  intros Hm Hn. destruct n as [| p | p]; try lia.
  cbn [shr fst snd]. split; [| reflexivity].
  rewrite iter_pos_nat.
  destruct (Pos.to_nat p) as [| j] eqn:Ej; [lia |].
  rewrite shr_iter_spec by exact Hm.
  assert (Hp : Z.pos p = Z.of_nat j + 1) by lia.
  rewrite Hp. set (k := Z.of_nat j). assert (Hk : 0 <= k) by lia.
  assert (Hp0 : 0 < 2 ^ k) by (apply Z.pow_pos_nonneg; lia).
  unfold rne. cbn [shr_m].
  rewrite (Z.pow_add_r 2 k 1) by lia. change (2 ^ 1) with 2.
  pose proof (mod_pow2_succ m k Hk) as Hd.
  rewrite (Z.pow_add_r 2 k 1) in Hd by lia. change (2 ^ 1) with 2 in Hd.
  pose proof (Z.mod_pos_bound (m / 2 ^ k) 2 ltac:(lia)).
  pose proof (Z.mod_pos_bound m (2 ^ k) Hp0).
  set (q := m / (2 ^ k * 2)) in *.
  set (r := m mod (2 ^ k * 2)) in *.
  set (b := (m / 2 ^ k) mod 2) in *.
  set (rem := m mod 2 ^ k) in *.
  set (P := 2 ^ k) in *. clearbody q r b rem P.
  assert (Hb : b = 0 \/ b = 1) by lia.
  destruct Hb as [-> | ->];
    destruct (Z.leb_spec P r), (Z.eqb_spec rem 0);
    cbn [negb loc_of_shr_record round_nearest_even];
    destruct (Z.compare_spec (2 * r) (P * 2)); try reflexivity;
    exfalso; lia.
Qed.

Lemma pow2_pos (k : Z) : 0 <= k -> 0 < 2 ^ k.
Proof. intros. apply Z.pow_pos_nonneg; lia. Qed.

Lemma pow2_le (a b : Z) : 0 <= a <= b -> 2 ^ a <= 2 ^ b.
Proof. intros. apply Z.pow_le_mono_r; lia. Qed.

Lemma pow2_lt (a b : Z) : 0 <= a < b -> 2 ^ a < 2 ^ b.
Proof. intros. apply Z.pow_lt_mono_r; lia. Qed.

Lemma pow2_split (a b : Z) : 0 <= a -> 0 <= b -> 2 ^ (a + b) = 2 ^ a * 2 ^ b.
Proof. intros. apply Z.pow_add_r; lia. Qed.

Lemma rne_0 (x : Z) : rne x 0 = x.
Proof.
  unfold rne. change (2 ^ 0) with 1. rewrite Z.mod_1_r, Z.div_1_r. reflexivity.
Qed.

Lemma rne_bounds (x k : Z) :
  0 <= k -> x / 2 ^ k <= rne x k <= x / 2 ^ k + 1.
Proof.
  intros Hk. unfold rne.
  destruct (2 * (x mod 2 ^ k) ?= 2 ^ k); [destruct (Z.even _) | |]; lia.
Qed.

Lemma rne_exact (q k : Z) : 0 <= k -> rne (q * 2 ^ k) k = q.
Proof.
  intros Hk. pose proof (pow2_pos k Hk). unfold rne.
  rewrite Z.mod_mul, Z.div_mul by lia.
  change (2 * 0) with 0.
  destruct (Z.compare_spec 0 (2 ^ k)); lia.
Qed.

Lemma rne_mono (x y k : Z) : 0 <= k -> x <= y -> rne x k <= rne y k.
Proof.
  intros Hk Hxy. pose proof (pow2_pos k Hk) as HP.
  unfold rne.
  pose proof (Z.div_mod x (2 ^ k) ltac:(lia)) as Hx.
  pose proof (Z.div_mod y (2 ^ k) ltac:(lia)) as Hy.
  pose proof (Z.mod_pos_bound x (2 ^ k) HP) as Bx.
  pose proof (Z.mod_pos_bound y (2 ^ k) HP) as By.
  pose proof (Z.div_le_mono x y (2 ^ k) HP Hxy) as Hq.
  set (qx := x / 2 ^ k) in *. set (rx := x mod 2 ^ k) in *.
  set (qy := y / 2 ^ k) in *. set (ry := y mod 2 ^ k) in *.
  set (P := 2 ^ k) in *. clearbody qx rx qy ry P.
  assert (Hc : qx = qy \/ qx + 1 <= qy) by lia.
  destruct Hc as [-> | Hc].
  - assert (Hr : rx <= ry) by nia.
    destruct (Z.compare_spec (2 * rx) P), (Z.compare_spec (2 * ry) P);
      try destruct (Z.even qy); lia.
  - destruct (Z.compare_spec (2 * rx) P), (Z.compare_spec (2 * ry) P);
      try destruct (Z.even qx); try destruct (Z.even qy); lia.
Qed.

Lemma rne_shift (x j k : Z) :
  0 <= j -> 0 <= k -> rne (x * 2 ^ j) (k + j) = rne x k.
Proof.
  intros Hj Hk. unfold rne.
  pose proof (pow2_pos j Hj). pose proof (pow2_pos k Hk).
  rewrite pow2_split by lia.
  rewrite Z.div_mul_cancel_r by lia.
  rewrite Z.mul_mod_distr_r by lia.
  replace (2 * (x mod 2 ^ k * 2 ^ j)) with (2 * (x mod 2 ^ k) * 2 ^ j) by ring.
  rewrite <- Zmult_compare_compat_r by lia. reflexivity.
Qed.

Lemma rne_nonneg (x k : Z) : 0 <= k -> 0 <= x -> 0 <= rne x k.
Proof.
  intros Hk Hx. pose proof (rne_bounds x k Hk).
  pose proof (Z.div_pos x (2 ^ k) Hx (pow2_pos k Hk)). lia.
Qed.

(** A value below [2^d] rounds to at most [2^(d - k)]. *)
Lemma rne_upper (x d k : Z) :
  0 <= k <= d -> x <= 2 ^ d -> rne x k <= 2 ^ (d - k).
Proof.
  intros Hk Hx. pose proof (rne_mono x (2 ^ d) k ltac:(lia) Hx) as H.
  replace (2 ^ d) with (2 ^ (d - k) * 2 ^ k) in H
    by (rewrite <- pow2_split by lia; f_equal; lia).
  rewrite rne_exact in H by lia. exact H.
Qed.

Lemma rne_lower (x d k : Z) :
  0 <= k <= d -> 2 ^ d <= x -> 2 ^ (d - k) <= rne x k.
Proof.
  intros Hk Hx. pose proof (rne_mono (2 ^ d) x k ltac:(lia) Hx) as H.
  replace (2 ^ d) with (2 ^ (d - k) * 2 ^ k) in H
    by (rewrite <- pow2_split by lia; f_equal; lia).
  rewrite rne_exact in H by lia. exact H.
Qed.

(** A value below [2^k] rounds to 0 or 1. *)
Lemma rne_small (x k : Z) : 0 <= k -> 0 <= x < 2 ^ k -> 0 <= rne x k <= 1.
Proof.
  intros Hk Hx. pose proof (rne_bounds x k Hk).
  rewrite Z.div_small in H by lia. lia.
Qed.

(** Number of binary digits. *)
Lemma digits2_pos_size (p : positive) : digits2_pos p = Pos.size p.
Proof. induction p; cbn; congruence. Qed.

Lemma Zdigits2_bounds (m : Z) :
  0 < m -> 0 < Zdigits2 m /\ 2 ^ (Zdigits2 m - 1) <= m < 2 ^ Zdigits2 m.
Proof.
  intros Hm. destruct m as [| p | p]; try lia.
  cbn [Zdigits2]. rewrite digits2_pos_size.
  pose proof (Pos.size_gt p) as Hgt. pose proof (Pos.size_le p) as Hle.
  split; [lia |].
  split.
  - apply Pos2Z.pos_le_pos in Hle.
    rewrite Pos2Z.inj_pow in Hle. rewrite Pos2Z.inj_xO in Hle.
    replace (Z.pos (Pos.size p)) with (Z.pos (Pos.size p) - 1 + 1) in Hle by lia.
    rewrite pow2_split in Hle by lia. change (2 ^ 1) with 2 in Hle. lia.
  - apply Pos2Z.pos_lt_pos in Hgt. rewrite Pos2Z.inj_pow in Hgt. exact Hgt.
Qed.

Lemma Zdigits2_unique (m d : Z) :
  0 < d -> 2 ^ (d - 1) <= m < 2 ^ d -> Zdigits2 m = d.
Proof.
  intros Hd Hm.
  assert (0 < m) by (pose proof (pow2_pos (d - 1)); lia).
  destruct (Zdigits2_bounds m) as [Hp Hb]; [lia |].
  set (d' := Zdigits2 m) in *. clearbody d'.
  destruct (Z.lt_trichotomy d' d) as [Hlt | [Heq | Hgt]]; [| exact Heq |].
  - pose proof (pow2_le d' (d - 1) ltac:(lia)). lia.
  - pose proof (pow2_le d (d' - 1) ltac:(lia)). lia.
Qed.

Lemma Zdigits2_mono (x y : Z) : 0 < x <= y -> Zdigits2 x <= Zdigits2 y.
Proof.
  intros Hxy.
  destruct (Zdigits2_bounds x) as [Hx Bx]; [lia |].
  destruct (Zdigits2_bounds y) as [Hy By]; [lia |].
  destruct (Z.le_gt_cases (Zdigits2 x) (Zdigits2 y)) as [Hle | Hgt];
    [exact Hle |].
  pose proof (pow2_le (Zdigits2 y) (Zdigits2 x - 1) ltac:(lia)). lia.
Qed.

Lemma Zdigits2_shift (m j : Z) :
  0 < m -> 0 <= j -> Zdigits2 (m * 2 ^ j) = Zdigits2 m + j.
Proof.
  intros Hm Hj. destruct (Zdigits2_bounds m Hm) as [Hd Hb].
  pose proof (pow2_pos j Hj).
  apply Zdigits2_unique; [lia |].
  replace (Zdigits2 m + j - 1) with (Zdigits2 m - 1 + j) by lia.
  rewrite !pow2_split by lia. nia.
Qed.

(** ** Rounding to a binary format *)

Lemma fexp_spec (prec emax x : Z) :
  fexp prec emax x = Z.max (x - prec) (3 - emax - prec).
Proof. reflexivity. Qed.

Lemma emin_spec (prec emax : Z) : emin prec emax = 3 - emax - prec.
Proof. reflexivity. Qed.

Lemma bounded_spec (prec emax : Z) (m : positive) (e : Z) :
  bounded prec emax m e = true <->
  fexp prec emax (Zdigits2 (Zpos m) + e) = e /\ e <= emax - prec.
Proof.
  unfold bounded, canonical_mantissa. cbn [Zdigits2].
  rewrite andb_true_iff, Z.eqb_eq, Z.leb_le. reflexivity.
Qed.

Lemma shr_nonpos (mrs : shr_record) (e n : Z) : n <= 0 -> shr mrs e n = (mrs, e).
Proof. intros Hn. destruct n; try reflexivity. lia. Qed.

Section Rounding.
Variables prec emax L : Z.
Hypothesis Hprec : 0 < prec.
Hypothesis Hemax : prec < emax.
Hypothesis HL : L <= emin prec emax.

#[local] Set Default Proof Using "Hprec Hemax HL".

Lemma HL_spec : L <= 3 - emax - prec.
Proof. exact HL. Qed.

Ltac unfexp :=
  pose proof HL_spec; rewrite ?fexp_spec, ?emin_spec in *.

Lemma Rv_scaled (m e : Z) :
  0 < m -> L <= e ->
  0 <= fexp prec emax (Zdigits2 m + e) - e ->
  Rv prec emax L (m * 2 ^ (e - L)) =
  rne m (fexp prec emax (Zdigits2 m + e) - e)
  * 2 ^ (fexp prec emax (Zdigits2 m + e) - L).
Proof.
  intros Hm He Hn. unfold Rv.
  rewrite Zdigits2_shift by lia.
  replace (Zdigits2 m + (e - L) + L) with (Zdigits2 m + e) by lia.
  set (E := fexp prec emax (Zdigits2 m + e)) in *.
  replace (E - L) with ((E - e) + (e - L)) at 1 by lia.
  rewrite rne_shift by lia. reflexivity.
Qed.

Lemma Rv_exact (m e : Z) :
  0 < m -> L <= e ->
  fexp prec emax (Zdigits2 m + e) <= e ->
  Rv prec emax L (m * 2 ^ (e - L)) = m * 2 ^ (e - L).
Proof.
  intros Hm He Hn. unfold Rv.
  rewrite Zdigits2_shift by lia.
  replace (Zdigits2 m + (e - L) + L) with (Zdigits2 m + e) by lia.
  set (E := fexp prec emax (Zdigits2 m + e)) in *.
  assert (HE : L <= E) by (subst E; unfexp; lia).
  replace (2 ^ (e - L)) with (2 ^ (e - E) * 2 ^ (E - L))
    by (rewrite <- pow2_split by lia; f_equal; lia).
  rewrite Z.mul_assoc. rewrite rne_exact by lia. reflexivity.
Qed.

Lemma Rv_nonneg (X : Z) : 0 <= X -> 0 <= Rv prec emax L X.
Proof.
  intros HX. unfold Rv.
  set (k := fexp prec emax (Zdigits2 X + L) - L).
  assert (Hk : 0 <= k) by (subst k; unfexp; lia).
  pose proof (rne_nonneg X k Hk HX). pose proof (pow2_pos k Hk). nia.
Qed.

(** Rounding is monotone. *)
Lemma Rv_mono (X Y : Z) : 0 < X <= Y -> Rv prec emax L X <= Rv prec emax L Y.
Proof.
  intros HXY. unfold Rv.
  destruct (Zdigits2_bounds X) as [HdX BX]; [lia |].
  destruct (Zdigits2_bounds Y) as [HdY BY]; [lia |].
  pose proof (Zdigits2_mono X Y HXY) as Hd.
  set (dX := Zdigits2 X) in *. set (dY := Zdigits2 Y) in *.
  set (kX := fexp prec emax (dX + L) - L).
  set (kY := fexp prec emax (dY + L) - L).
  assert (HkX : 0 <= kX) by (subst kX; unfexp; lia).
  assert (HkY : 0 <= kY) by (subst kY; unfexp; lia).
  assert (Hk : kX <= kY) by (subst kX kY; unfexp; lia).
  destruct (Z.eq_dec kX kY) as [Heq | Hne].
  - rewrite <- Heq. pose proof (rne_mono X Y kX HkX ltac:(lia)).
    pose proof (pow2_pos kX HkX). nia.
  - assert (HkYd : kY = dY - prec) by (subst kX kY; unfexp; lia).
    assert (HdXY : dX < dY) by (subst kX kY; unfexp; lia).
    (* Y rounds to at least 2^(dY-1) *)
    pose proof (rne_lower Y (dY - 1) kY ltac:(lia) ltac:(lia)) as HY.
    assert (HYv : 2 ^ (dY - 1) <= rne Y kY * 2 ^ kY).
    { replace (2 ^ (dY - 1)) with (2 ^ (dY - 1 - kY) * 2 ^ kY)
        by (rewrite <- pow2_split by lia; f_equal; lia).
      pose proof (pow2_pos kY HkY). nia. }
    apply Z.le_trans with (2 ^ (dY - 1)); [| exact HYv].
    destruct (Z.le_gt_cases kX dX) as [Hle | Hgt].
    + pose proof (rne_upper X dX kX ltac:(lia) ltac:(lia)) as HX.
      apply Z.le_trans with (2 ^ dX); [| apply pow2_le; lia].
      replace (2 ^ dX) with (2 ^ (dX - kX) * 2 ^ kX)
        by (rewrite <- pow2_split by lia; f_equal; lia).
      pose proof (pow2_pos kX HkX). nia.
    + pose proof (pow2_lt dX kX ltac:(lia)).
      pose proof (rne_small X kX HkX ltac:(lia)) as HX.
      apply Z.le_trans with (2 ^ kX); [| apply pow2_le; lia].
      pose proof (pow2_pos kX HkX). nia.
Qed.

Lemma stage1 (m e n : Z) :
  0 <= m -> 0 <= n ->
  exists mrs,
    shr (Build_shr_record m false false) e n = (mrs, e + n) /\
    round_nearest_even (shr_m mrs) (loc_of_shr_record mrs) = rne m n.
Proof.
  intros Hm Hn. destruct (Z.eq_dec n 0) as [-> | Hnz].
  - exists (Build_shr_record m false false). split.
    + cbn [shr]. f_equal. lia.
    + rewrite rne_0. reflexivity.
  - destruct (shr_round m e n Hm ltac:(lia)) as [Hr He].
    exists (fst (shr (Build_shr_record m false false) e n)). split.
    + rewrite <- He. apply surjective_pairing.
    + exact Hr.
Qed.

(** The second normalisation only acts after a carry to [2^prec]. *)
Lemma stage2 (v E : Z) :
  emin prec emax <= E -> 0 <= v <= 2 ^ prec ->
  E = emin prec emax \/ 2 ^ (prec - 1) <= v ->
  exists mrs e',
    shr (Build_shr_record v false false) E
      (fexp prec emax (Zdigits2 v + E) - E) = (mrs, e') /\
    shr_m mrs * 2 ^ (e' - L) = v * 2 ^ (E - L) /\
    emin prec emax <= e' /\
    (shr_m mrs = 0 \/
     (0 < shr_m mrs /\ fexp prec emax (Zdigits2 (shr_m mrs) + e') = e')).
Proof.
  intros HE Hv Hor.
  destruct (Z.eq_dec v 0) as [-> | Hnz].
  - exists (Build_shr_record 0 false false), E.
    cbn [Zdigits2 shr_m]. split; [| split; [| split]].
    + apply shr_nonpos. unfexp. lia.
    + lia.
    + exact HE.
    + left. reflexivity.
  - destruct (Zdigits2_bounds v) as [Hd Hb]; [lia |].
    set (d1 := Zdigits2 v) in *.
    assert (Hd1 : d1 <= prec + 1).
    { destruct (Z.le_gt_cases d1 (prec + 1)) as [H | H]; [exact H |].
      pose proof (pow2_le (prec + 1) (d1 - 1) ltac:(lia)).
      pose proof (pow2_lt prec (prec + 1) ltac:(lia)). lia. }
    destruct (Z.eq_dec d1 (prec + 1)) as [Hcarry | Hnc].
    + (* carry: v = 2^prec *)
      assert (Hv2 : v = 2 ^ prec).
      { replace (d1 - 1) with prec in Hb by lia. lia. }
      assert (Hn' : fexp prec emax (d1 + E) - E = 1).
      { destruct Hor as [-> | Hor]; unfexp; lia. }
      rewrite Hn'.
      exists (Build_shr_record (v / 2) (Z.odd v) false), (E + 1).
      cbn [shr_m].
      assert (Hhalf : v / 2 = 2 ^ (prec - 1)).
      { rewrite Hv2. replace prec with (prec - 1 + 1) at 1 by lia.
        rewrite pow2_split by lia. change (2 ^ 1) with 2.
        apply Z.div_mul. lia. }
      split; [| split; [| split]].
      * cbn [shr iter_pos]. rewrite shr_1_nonneg by lia. reflexivity.
      * rewrite Hhalf, Hv2.
        rewrite <- !pow2_split by lia. f_equal. lia.
      * lia.
      * right. rewrite Hhalf. pose proof (pow2_pos (prec - 1) ltac:(lia)).
        split; [lia |].
        pose proof (pow2_lt (prec - 1) prec ltac:(lia)).
        rewrite (Zdigits2_unique (2 ^ (prec - 1)) prec) by lia.
        unfexp. lia.
    + assert (Hn' : fexp prec emax (d1 + E) - E = 0).
      { destruct Hor as [-> | Hor]; [unfexp; lia |].
        assert (prec <= d1).
        { destruct (Z.le_gt_cases prec d1) as [H | H]; [exact H |].
          pose proof (pow2_le d1 (prec - 1) ltac:(lia)). lia. }
        unfexp. lia. }
      rewrite Hn'.
      exists (Build_shr_record v false false), E. cbn [shr_m].
      split; [| split; [| split]].
      * apply shr_nonpos. lia.
      * reflexivity.
      * exact HE.
      * right. split; [lia |]. fold d1. lia.
Qed.

Lemma canonical_bounds (m e : Z) :
  0 < m -> fexp prec emax (Zdigits2 m + e) = e ->
  emin prec emax <= e /\ m < 2 ^ prec /\
  (emin prec emax < e -> 2 ^ (prec - 1) <= m).
Proof.
  intros Hm Hc. destruct (Zdigits2_bounds m Hm) as [Hd Hb].
  set (d := Zdigits2 m) in *.
  split; [unfexp; lia |]. split.
  - assert (d <= prec) by (unfexp; lia).
    pose proof (pow2_le d prec ltac:(lia)). lia.
  - intros He. assert (d = prec) by (unfexp; lia). subst d.
    replace (prec - 1) with (Zdigits2 m - 1) by lia. lia.
Qed.

(** The result of rounding a positive mantissa that is not too short. *)
Lemma round_aux_repr (s : bool) (m : positive) (e : Z) :
  L <= e ->
  0 <= fexp prec emax (Zdigits2 (Zpos m) + e) - e ->
  represents prec emax L s
    (binary_round_aux prec emax s (Zpos m) e loc_Exact)
    (Rv prec emax L (Zpos m * 2 ^ (e - L))).
Proof.
  intros He Hn. rewrite Rv_scaled by lia.
  destruct (Zdigits2_bounds (Zpos m) ltac:(lia)) as [Hd Hb].
  set (d := Zdigits2 (Zpos m)) in *.
  set (E := fexp prec emax (d + e)) in *.
  set (n := E - e) in *.
  assert (HE : emin prec emax <= E) by (subst E; unfexp; lia).
  unfold binary_round_aux, shr_fexp. cbn [shr_record_of_loc].
  fold d. fold E. fold n.
  destruct (stage1 (Zpos m) e n ltac:(lia) Hn) as (mrs1 & Hs1 & Hr1).
  rewrite Hs1, Hr1. replace (e + n) with E by lia.
  set (v := rne (Zpos m) n) in *.
  assert (Hv0 : 0 <= v) by (subst v; apply rne_nonneg; lia).
  assert (Hv1 : v <= 2 ^ prec).
  { destruct (Z.le_gt_cases n d) as [Hle | Hgt].
    - pose proof (rne_upper (Zpos m) d n ltac:(lia) ltac:(lia)).
      pose proof (pow2_le (d - n) prec ltac:(subst n E; unfexp; lia)).
      subst v. lia.
    - pose proof (pow2_lt d n ltac:(lia)).
      pose proof (rne_small (Zpos m) n Hn ltac:(lia)).
      pose proof (pow2_pos prec ltac:(lia)). subst v. lia. }
  assert (Hv2 : E = emin prec emax \/ 2 ^ (prec - 1) <= v).
  { destruct (Z.eq_dec E (emin prec emax)) as [Heq | Hne]; [left; exact Heq |].
    right. assert (Hn2 : n = d - prec) by (subst n E; unfexp; lia).
    assert (Hnd : 0 <= n <= d - 1) by lia.
    assert (Hmd : 2 ^ (d - 1) <= Z.pos m) by lia.
    pose proof (rne_lower (Zpos m) (d - 1) n Hnd Hmd) as Hlow.
    replace (d - 1 - n) with (prec - 1) in Hlow by lia. exact Hlow. }
  destruct (stage2 v E HE (conj Hv0 Hv1) Hv2)
    as (mrs2 & e2 & Hs2 & Hval & He2 & Hcan).
  rewrite Hs2. rewrite <- Hval.
  destruct Hcan as [Hz | [Hpos Hcan]].
  - rewrite Hz. rewrite Z.mul_0_l. constructor.
  - destruct (shr_m mrs2) as [| p | p] eqn:Em; try lia.
    destruct (canonical_bounds (Zpos p) e2 Hpos Hcan) as (_ & Hlt & Hnorm).
    destruct (Z.leb_spec e2 (emax - prec)) as [Hfin | Hover].
    + constructor. unfold bounded, canonical_mantissa.
      change (Z.pos (digits2_pos p)) with (Zdigits2 (Zpos p)).
      rewrite Hcan, Z.eqb_refl. cbn [andb]. apply Z.leb_le. exact Hfin.
    + constructor.
      assert (emin prec emax < e2) by (unfexp; lia).
      specialize (Hnorm ltac:(lia)).
      apply Z.le_trans with (2 ^ (prec - 1) * 2 ^ (e2 - L)).
      * rewrite <- pow2_split by lia. apply pow2_le. unfexp. lia.
      * pose proof (pow2_pos (e2 - L) ltac:(lia)). nia.
Qed.

Lemma bounded_value (m : positive) (e : Z) :
  bounded prec emax m e = true ->
  L <= e /\ 0 < Zpos m * 2 ^ (e - L) < 2 ^ (emax - L).
Proof.
  intros Hb. apply bounded_spec in Hb. destruct Hb as [Hc He].
  destruct (canonical_bounds (Zpos m) e ltac:(lia) Hc) as (Hmin & Hlt & _).
  assert (HLe : L <= e) by (unfexp; lia).
  pose proof (pow2_pos (e - L) ltac:(lia)) as Hp.
  split; [exact HLe |]. split; [nia |].
  apply Z.lt_le_trans with (2 ^ prec * 2 ^ (e - L)); [nia |].
  rewrite <- pow2_split by lia. apply pow2_le. unfexp. lia.
Qed.

(** Two canonical numbers are ordered as their exponent-mantissa
    pairs. *)
Lemma canonical_order (m1 m2 : positive) (e1 e2 : Z) :
  bounded prec emax m1 e1 = true -> bounded prec emax m2 e2 = true ->
  Zpos m1 * 2 ^ (e1 - L) <= Zpos m2 * 2 ^ (e2 - L) ->
  e1 < e2 \/ (e1 = e2 /\ (m1 <= m2)%positive).
Proof.
  intros Hb1 Hb2 Hle.
  pose proof (bounded_value m1 e1 Hb1) as [HL1 _].
  pose proof (bounded_value m2 e2 Hb2) as [HL2 _].
  apply bounded_spec in Hb1, Hb2.
  destruct Hb1 as [Hc1 _], Hb2 as [Hc2 _].
  destruct (canonical_bounds (Zpos m1) e1 ltac:(lia) Hc1) as (Hmin1 & Hlt1 & Hn1).
  destruct (canonical_bounds (Zpos m2) e2 ltac:(lia) Hc2) as (Hmin2 & Hlt2 & Hn2).
  destruct (Z.lt_trichotomy e1 e2) as [Hlt | [Heq | Hgt]].
  - left. exact Hlt.
  - right. split; [exact Heq |]. subst e2.
    pose proof (pow2_pos (e1 - L) ltac:(lia)).
    assert (Zpos m1 <= Zpos m2) by nia. lia.
  - exfalso. specialize (Hn1 ltac:(lia)).
    pose proof (pow2_pos (e2 - L) ltac:(lia)) as Hp2.
    assert (H1 : Zpos m2 * 2 ^ (e2 - L) < 2 ^ prec * 2 ^ (e2 - L)) by nia.
    assert (H2 : 2 ^ prec * 2 ^ (e2 - L) <= 2 ^ (prec - 1) * 2 ^ (e1 - L)).
    { rewrite <- !pow2_split by lia. apply pow2_le. lia. }
    pose proof (pow2_pos (e1 - L) ltac:(lia)) as Hp1.
    assert (H3 : 2 ^ (prec - 1) * 2 ^ (e1 - L) <= Zpos m1 * 2 ^ (e1 - L)) by nia.
    lia.
Qed.

Lemma represents_le (f g : spec_float) (X Y : Z) :
  represents prec emax L false f X -> represents prec emax L false g Y ->
  X <= Y -> SFleb f g = true.
Proof.
  intros Hf Hg HXY.
  destruct Hf as [| m1 e1 Hb1 | X HX], Hg as [| m2 e2 Hb2 | Y HY];
    try reflexivity.
  - pose proof (bounded_value m1 e1 Hb1). lia.
  - destruct (canonical_order m1 m2 e1 e2 Hb1 Hb2 HXY) as [Hlt | [-> Hm]].
    + unfold SFleb. cbn [SFcompare]. apply Z.compare_lt_iff in Hlt.
      rewrite Hlt. reflexivity.
    + unfold SFleb. cbn [SFcompare]. rewrite Z.compare_refl.
      change (Pos.compare_cont Eq m1 m2) with (Pos.compare m1 m2).
      apply Pos.compare_le_iff in Hm.
      destruct (Pos.compare m1 m2); try reflexivity. contradiction Hm.
      reflexivity.
  - pose proof (pow2_pos (emax - L) ltac:(unfexp; lia)). lia.
  - pose proof (bounded_value m2 e2 Hb2). lia.
Qed.

Lemma represents_inj (s : bool) (f g : spec_float) (X : Z) :
  represents prec emax L s f X -> represents prec emax L s g X -> f = g.
Proof.
  intros Hf Hg.
  inversion Hf as [HX | m1 e1 Hb1 HX | X1 HX1 HX];
    inversion Hg as [HY | m2 e2 Hb2 HY | Y1 HY1 HY]; subst; try reflexivity.
  - pose proof (bounded_value m2 e2 Hb2). lia.
  - pose proof (pow2_pos (emax - L) ltac:(unfexp; lia)). lia.
  - pose proof (bounded_value m1 e1 Hb1). lia.
  - assert (Hle1 : Zpos m1 * 2 ^ (e1 - L) <= Zpos m2 * 2 ^ (e2 - L)) by lia.
    assert (Hle2 : Zpos m2 * 2 ^ (e2 - L) <= Zpos m1 * 2 ^ (e1 - L)) by lia.
    destruct (canonical_order m1 m2 e1 e2 Hb1 Hb2 Hle1) as [Ha | [Ha Ha']];
      destruct (canonical_order m2 m1 e2 e1 Hb2 Hb1 Hle2) as [Hc | [Hc Hc']];
      try lia.
    subst. f_equal. lia.
  - pose proof (bounded_value m1 e1 Hb1). lia.
  - pose proof (pow2_pos (emax - L) ltac:(unfexp; lia)). lia.
  - pose proof (bounded_value m2 e2 Hb2). lia.
Qed.

Lemma represents_valid (s : bool) (f : spec_float) (X : Z) :
  represents prec emax L s f X -> valid_binary prec emax f = true.
Proof. intros H. destruct H; try reflexivity. assumption. Qed.

Lemma represents_nonneg (s : bool) (f : spec_float) (X : Z) :
  represents prec emax L s f X -> 0 <= X.
Proof.
  intros H. destruct H as [| m e Hb | X HX].
  - lia.
  - pose proof (bounded_value m e Hb). lia.
  - pose proof (pow2_pos (emax - L) ltac:(unfexp; lia)). lia.
Qed.

Lemma iter_xO (m d : positive) :
  Zpos (Pos.iter xO m d) = Zpos m * 2 ^ Zpos d.
Proof.
  induction d as [| d IH] using Pos.peano_ind.
  - cbn [Pos.iter]. rewrite Pos2Z.inj_xO. change (2 ^ 1) with 2. lia.
  - rewrite Pos.iter_succ, Pos2Z.inj_xO, IH, Pos2Z.inj_succ.
    unfold Z.succ. rewrite pow2_split by lia. change (2 ^ 1) with 2. lia.
Qed.

(** [binary_round]: align, then round. *)
Lemma round_repr (s : bool) (m : positive) (e : Z) :
  L <= e ->
  represents prec emax L s (binary_round prec emax s m e)
    (Rv prec emax L (Zpos m * 2 ^ (e - L))).
Proof.
  intros He. unfold binary_round, shl_align.
  change (Z.pos (digits2_pos m)) with (Zdigits2 (Zpos m)).
  set (E := fexp prec emax (Zdigits2 (Z.pos m) + e)).
  assert (HE : L <= E) by (subst E; unfexp; lia).
  destruct (E - e) as [| p | p] eqn:Ed.
  - apply round_aux_repr; [exact He |]. fold E. lia.
  - apply round_aux_repr; [exact He |]. fold E. lia.
  - assert (Hd : e - E = Zpos p) by lia.
    replace (Zpos m * 2 ^ (e - L))
      with (Zpos (Pos.iter xO m p) * 2 ^ (E - L)).
    + apply round_aux_repr; [exact HE |].
      rewrite iter_xO, Zdigits2_shift by lia.
      replace (Zdigits2 (Z.pos m) + Z.pos p + E)
        with (Zdigits2 (Z.pos m) + e) by lia.
      fold E. lia.
    + rewrite iter_xO, <- Hd, <- Z.mul_assoc, <- pow2_split by lia.
      f_equal. f_equal. lia.
Qed.

Lemma Rv_0 : Rv prec emax L 0 = 0.
Proof.
  unfold Rv. cbn [Zdigits2]. set (k := fexp prec emax (0 + L) - L).
  assert (Hk : 0 <= k) by (subst k; unfexp; lia).
  replace 0 with (0 * 2 ^ k) at 1 by lia. rewrite rne_exact by lia. lia.
Qed.

Lemma Rv_mono0 (X Y : Z) : 0 <= X <= Y -> Rv prec emax L X <= Rv prec emax L Y.
Proof.
  intros HXY. destruct (Z.eq_dec X 0) as [-> | Hnz].
  - rewrite Rv_0. apply Rv_nonneg. lia.
  - apply Rv_mono. lia.
Qed.

Lemma normalize_repr (z e : Z) (szero : bool) :
  L <= e ->
  srep prec emax L szero (binary_normalize prec emax z e szero)
    (z * 2 ^ (e - L)).
Proof.
  intros He. pose proof (pow2_pos (e - L) ltac:(lia)) as Hp.
  unfold srep, binary_normalize. destruct z as [| p | p].
  - cbn [Z.mul Z.compare]. reflexivity.
  - replace (Z.pos p * 2 ^ (e - L) ?= 0) with Gt
      by (symmetry; apply Z.compare_gt_iff; nia).
    apply round_repr. exact He.
  - replace (Z.neg p * 2 ^ (e - L) ?= 0) with Lt
      by (symmetry; apply Z.compare_lt_iff; nia).
    replace (- (Z.neg p * 2 ^ (e - L))) with (Z.pos p * 2 ^ (e - L)) by lia.
    apply round_repr. exact He.
Qed.

Lemma mul_shift_nonneg (m1 m2 : positive) (e1 e2 : Z) :
  bounded prec emax m1 e1 = true -> bounded prec emax m2 e2 = true ->
  0 <= fexp prec emax (Zdigits2 (Zpos (m1 * m2)) + (e1 + e2)) - (e1 + e2).
Proof.
  intros Hb1 Hb2. apply bounded_spec in Hb1, Hb2.
  destruct Hb1 as [Hc1 _], Hb2 as [Hc2 _].
  destruct (Zdigits2_bounds (Zpos m1) ltac:(lia)) as [Hd1 B1].
  destruct (Zdigits2_bounds (Zpos m2) ltac:(lia)) as [Hd2 B2].
  destruct (Zdigits2_bounds (Zpos (m1 * m2)) ltac:(lia)) as [Hd B].
  set (d1 := Zdigits2 (Zpos m1)) in *. set (d2 := Zdigits2 (Zpos m2)) in *.
  set (d := Zdigits2 (Zpos (m1 * m2))) in *.
  assert (Hdd : d1 + d2 - 1 <= d).
  { destruct (Z.le_gt_cases (d1 + d2 - 1) d) as [H | H]; [exact H |].
    exfalso. rewrite Pos2Z.inj_mul in B.
    assert (H2 : 2 ^ (d1 - 1) * 2 ^ (d2 - 1) <= Zpos m1 * Zpos m2) by nia.
    rewrite <- pow2_split in H2 by lia.
    pose proof (pow2_le d (d1 - 1 + (d2 - 1)) ltac:(lia)). lia. }
  clearbody d1 d2 d. unfexp. lia.
Qed.

Lemma mul_repr (L1 L2 : Z) (s1 s2 : bool) (m1 m2 : positive) (e1 e2 : Z) :
  L1 + L2 = L -> L1 <= e1 -> L2 <= e2 ->
  bounded prec emax m1 e1 = true -> bounded prec emax m2 e2 = true ->
  represents prec emax L (xorb s1 s2)
    (SFmul prec emax (S754_finite s1 m1 e1) (S754_finite s2 m2 e2))
    (Rv prec emax L ((Zpos m1 * 2 ^ (e1 - L1)) * (Zpos m2 * 2 ^ (e2 - L2)))).
Proof.
  intros HLL H1 H2 Hb1 Hb2. cbn [SFmul].
  replace ((Zpos m1 * 2 ^ (e1 - L1)) * (Zpos m2 * 2 ^ (e2 - L2)))
    with (Zpos (m1 * m2) * 2 ^ (e1 + e2 - L)).
  - apply round_aux_repr; [lia |]. apply mul_shift_nonneg; assumption.
  - rewrite Pos2Z.inj_mul.
    replace (e1 + e2 - L) with ((e1 - L1) + (e2 - L2)) by lia.
    rewrite pow2_split by lia. ring.
Qed.

Lemma shl_align_fst (m : positive) (e ez : Z) :
  ez <= e -> Zpos (fst (shl_align m e ez)) = Zpos m * 2 ^ (e - ez).
Proof.
  intros He. unfold shl_align. destruct (ez - e) as [| p | p] eqn:Ed.
  - replace (e - ez) with 0 by lia. cbn [fst]. lia.
  - lia.
  - cbn [fst]. rewrite iter_xO. f_equal. f_equal. lia.
Qed.

Lemma sub_repr (sa sc : bool) (ma mc : positive) (ea ec : Z) :
  L <= ea -> L <= ec ->
  srep prec emax L false
    (SFsub prec emax (S754_finite sa ma ea) (S754_finite sc mc ec))
    (cond_Zopp sa (Zpos ma * 2 ^ (ea - L))
     - cond_Zopp sc (Zpos mc * 2 ^ (ec - L))).
Proof.
  intros Ha Hc. cbn [SFsub].
  set (ez := Z.min ea ec).
  rewrite !shl_align_fst by (subst ez; lia).
  replace (cond_Zopp sa (Zpos ma * 2 ^ (ea - L))
           - cond_Zopp sc (Zpos mc * 2 ^ (ec - L)))
    with ((cond_Zopp sa (Zpos ma * 2 ^ (ea - ez))
           - cond_Zopp sc (Zpos mc * 2 ^ (ec - ez))) * 2 ^ (ez - L)).
  - apply normalize_repr. subst ez. lia.
  - assert (Hez : L <= ez) by (subst ez; lia).
    replace (ea - L) with ((ea - ez) + (ez - L)) by lia.
    replace (ec - L) with ((ec - ez) + (ez - L)) by lia.
    rewrite !pow2_split by (subst ez; lia).
    destruct sa, sc; cbn [cond_Zopp]; ring.
Qed.
End Rounding.

(** ** binary32 and binary64 *)

Lemma Hprec32 : 0 < F32.prec. Proof. reflexivity. Qed.
Lemma Hemax32 : F32.prec < F32.emax. Proof. reflexivity. Qed.
Lemma HL1 : L1 <= emin F32.prec F32.emax. Proof. discriminate. Qed.
Lemma HL2 : L2 <= emin F32.prec F32.emax. Proof. discriminate. Qed.
Lemma Hprec64 : 0 < F64.prec. Proof. reflexivity. Qed.
Lemma Hemax64 : F64.prec < F64.emax. Proof. reflexivity. Qed.
Lemma HLD : LD <= emin F64.prec F64.emax. Proof. discriminate. Qed.

Lemma bounded32_range (m : positive) (e : Z) :
  bounded F32.prec F32.emax m e = true ->
  -149 <= e <= 104 /\ Zdigits2 (Zpos m) <= 24 /\ Zpos m < 2 ^ 24.
Proof.
  intros Hb. apply bounded_spec in Hb.
  destruct Hb as [Hc He].
  destruct (canonical_bounds _ _ _ Hprec32 Hemax32 HL1 (Zpos m) e
              ltac:(lia) Hc) as (Hmin & Hlt & _).
  destruct (Zdigits2_bounds (Zpos m) ltac:(lia)) as [Hd _].
  rewrite fexp_spec in Hc. rewrite emin_spec in Hmin.
  unfold F32.prec, F32.emax in *. lia.
Qed.

(** A canonical float represents itself. *)
Lemma repr_self (prec emax L : Z) (s : bool) (m : positive) (e : Z) :
  bounded prec emax m e = true ->
  represents prec emax L s (S754_finite s m e) (Zpos m * 2 ^ (e - L)).
Proof. intros Hb. constructor. exact Hb. Qed.

Lemma Rv_self (prec emax L : Z) (m : positive) (e : Z) :
  0 < prec -> prec < emax -> L <= emin prec emax ->
  bounded prec emax m e = true ->
  Rv prec emax L (Zpos m * 2 ^ (e - L)) = Zpos m * 2 ^ (e - L).
Proof.
  intros Hp Hx HL Hb.
  apply bounded_spec in Hb. destruct Hb as [Hc He].
  destruct (canonical_bounds _ _ _ Hp Hx HL (Zpos m) e ltac:(lia) Hc)
    as (Hmin & _).
  apply Rv_exact; try assumption; lia.
Qed.

Lemma srep_pos (prec emax L : Z) (sz : bool) (f : spec_float) (D : Z) :
  0 < D -> srep prec emax L sz f D ->
  represents prec emax L false f (Rv prec emax L D).
Proof.
  intros HD H. unfold srep in H.
  replace (D ?= 0) with Gt in H by (symmetry; apply Z.compare_gt_iff; lia).
  exact H.
Qed.

Lemma srep_neg (prec emax L : Z) (sz : bool) (f : spec_float) (D : Z) :
  D < 0 -> srep prec emax L sz f D ->
  represents prec emax L true f (Rv prec emax L (- D)).
Proof.
  intros HD H. unfold srep in H.
  replace (D ?= 0) with Lt in H by (symmetry; apply Z.compare_lt_iff; lia).
  exact H.
Qed.

Lemma srep_zero (prec emax L : Z) (sz : bool) (f : spec_float) :
  srep prec emax L sz f 0 -> f = S754_zero sz.
Proof. intros H. exact H. Qed.

Lemma represents_finite_inv (prec emax L : Z) (s : bool) (f : spec_float) (X : Z) :
  represents prec emax L s f X -> 0 < X < 2 ^ (emax - L) ->
  exists m e, f = S754_finite s m e /\ bounded prec emax m e = true /\
              X = Zpos m * 2 ^ (e - L).
Proof.
  intros H HX. destruct H as [| m e Hb | X HX'].
  - lia.
  - exists m, e. repeat split. exact Hb.
  - lia.
Qed.

(** ** Conversions *)

Lemma float_of_int_value (raw : Z) :
  0 <= raw <= 32767 ->
  is_nonneg_finite (float_of_int raw) = true /\
  F32.valid (float_of_int raw) = true /\
  sval L1 (float_of_int raw) = raw * 2 ^ 149.
Proof.
  intros Hr. destruct (Z.eq_dec raw 0) as [-> | Hnz].
  - repeat split.
  - pose proof (normalize_repr _ _ _ Hprec32 Hemax32 HL1 raw 0 false
                  ltac:(discriminate)) as H.
    change (0 - L1) with 149 in H.
    fold (F32.of_Z raw) in H. fold (float_of_int raw) in H.
    pose proof (pow2_pos 149 ltac:(lia)) as Hp.
    apply srep_pos in H; [| nia].
    assert (Hd : Zdigits2 raw <= 15).
    { destruct (Zdigits2_bounds raw ltac:(lia)) as [Hd Hb].
      destruct (Z.le_gt_cases (Zdigits2 raw) 15) as [Hle | Hgt]; [exact Hle |].
      pose proof (pow2_le 15 (Zdigits2 raw - 1) ltac:(lia)).
      change (2 ^ 15) with 32768 in *. lia. }
    change (raw * 2 ^ 149) with (raw * 2 ^ (0 - L1)) in H.
    rewrite (Rv_exact _ _ _ Hprec32 Hemax32 HL1) in H;
      [| lia | discriminate | rewrite fexp_spec; unfold F32.prec, F32.emax; lia].
    change (0 - L1) with 149 in H.
    apply represents_finite_inv in H.
    + destruct H as (m & e & Hf & Hb & Hv). rewrite Hf.
      cbn [is_nonneg_finite sval cond_Zopp]. unfold F32.valid.
      cbn [valid_binary]. repeat split; [exact Hb |].
      symmetry. exact Hv.
    + split; [nia |].
      apply Z.lt_le_trans with (2 ^ 15 * 2 ^ 149);
        [change (2 ^ 15) with 32768; nia |].
      rewrite <- pow2_split by lia. apply pow2_le.
      unfold F32.emax, L1. lia.
Qed.

(** ** Product *)

Lemma mul_value (slope f : float) :
  F32.valid slope = true -> is_nonneg_finite slope = true ->
  F32.valid f = true -> is_nonneg_finite f = true ->
  represents F32.prec F32.emax L2 false (F32.mul slope f)
    (Rv F32.prec F32.emax L2 (sval L1 slope * sval L1 f)).
Proof.
  intros Hvs Hs Hvf Hf.
  destruct slope as [[|]| | |[|] ms es]; try discriminate;
    destruct f as [[|]| | |[|] mf ef]; try discriminate;
    cbn [sval cond_Zopp].
  - rewrite Z.mul_0_l, (Rv_0 _ _ _ Hprec32 Hemax32 HL2). constructor.
  - rewrite Z.mul_0_l, (Rv_0 _ _ _ Hprec32 Hemax32 HL2). constructor.
  - rewrite Z.mul_0_r, (Rv_0 _ _ _ Hprec32 Hemax32 HL2). constructor.
  - unfold F32.valid in *. cbn [valid_binary] in *.
    destruct (bounded32_range ms es Hvs) as (Hes & _).
    destruct (bounded32_range mf ef Hvf) as (Hef & _).
    apply (mul_repr _ _ _ Hprec32 Hemax32 HL2 L1 L1 false false);
      try assumption; try reflexivity; unfold L1; lia.
Qed.

(** ** Difference *)

Lemma Rv_self32 (m : positive) (e : Z) :
  bounded F32.prec F32.emax m e = true ->
  Rv F32.prec F32.emax L2 (Zpos m * 2 ^ (e - L2)) = Zpos m * 2 ^ (e - L2).
Proof. apply Rv_self; [exact Hprec32 | exact Hemax32 | exact HL2]. Qed.

Lemma sub_value (a con : float) (A : Z) :
  represents F32.prec F32.emax L2 false a A ->
  A < 2 ^ (F32.emax - L2) ->
  F32.valid con = true -> is_finite con = true ->
  srep F32.prec F32.emax L2 false (F32.sub a con) (A - sval L2 con).
Proof.
  intros Ha HA Hvc Hc. unfold F32.valid in Hvc.
  destruct Ha as [| ma ea Hba | A HA'].
  - destruct con as [sc| | |sc mc ec]; try discriminate.
    + destruct sc; reflexivity.
    + cbn [valid_binary] in Hvc. cbn [sval F32.sub SFsub].
      pose proof (bounded_value _ _ _ Hprec32 Hemax32 HL2 mc ec Hvc) as [_ Hv].
      unfold srep. destruct sc; cbn [cond_Zopp negb].
      * replace (0 - - (Z.pos mc * 2 ^ (ec - L2)) ?= 0) with Gt
          by (symmetry; apply Z.compare_gt_iff; lia).
        replace (0 - - (Z.pos mc * 2 ^ (ec - L2)))
          with (Z.pos mc * 2 ^ (ec - L2)) by lia.
        rewrite Rv_self32 by exact Hvc. constructor. exact Hvc.
      * replace (0 - Z.pos mc * 2 ^ (ec - L2) ?= 0) with Lt
          by (symmetry; apply Z.compare_lt_iff; lia).
        replace (- (0 - Z.pos mc * 2 ^ (ec - L2)))
          with (Z.pos mc * 2 ^ (ec - L2)) by lia.
        rewrite Rv_self32 by exact Hvc. constructor. exact Hvc.
  - pose proof (bounded_value _ _ _ Hprec32 Hemax32 HL2 ma ea Hba) as [Hea Hv].
    destruct con as [sc| | |sc mc ec]; try discriminate.
    + cbn [sval F32.sub SFsub]. rewrite Z.sub_0_r. unfold srep.
      replace (Z.pos ma * 2 ^ (ea - L2) ?= 0) with Gt
        by (symmetry; apply Z.compare_gt_iff; lia).
      rewrite Rv_self32 by exact Hba. constructor. exact Hba.
    + cbn [valid_binary] in Hvc.
      pose proof (bounded_value _ _ _ Hprec32 Hemax32 HL2 mc ec Hvc) as [Hec _].
      cbn [sval].
      exact (sub_repr _ _ _ Hprec32 Hemax32 HL2 false sc ma mc ea ec Hea Hec).
  - lia.
Qed.

Lemma sub_inf (con : float) :
  is_finite con = true -> F32.sub (S754_infinity false) con = S754_infinity false.
Proof. destruct con; try discriminate; reflexivity. Qed.

(** ** Widening and the floor *)

Lemma double_of_float_repr (s : bool) (m : positive) (e : Z) :
  bounded F32.prec F32.emax m e = true ->
  represents F64.prec F64.emax LD s (double_of_float (S754_finite s m e))
    (Zpos m * 2 ^ (e - LD)) /\
  0 < Zpos m * 2 ^ (e - LD) < 2 ^ (F64.emax - LD).
Proof.
  intros Hb. destruct (bounded32_range m e Hb) as (He & Hd & Hm).
  destruct (Zdigits2_bounds (Zpos m) ltac:(lia)) as [Hd0 _].
  assert (HLe : LD <= e) by (unfold LD; lia).
  pose proof (pow2_pos (e - LD) ltac:(lia)) as Hp.
  split.
  - rewrite <- (Rv_exact _ _ _ Hprec64 Hemax64 HLD (Zpos m) e);
      [| lia | exact HLe
       | rewrite fexp_spec; unfold F64.prec, F64.emax; lia].
    unfold double_of_float, binary_normalize.
    destruct s; cbn [cond_Zopp Z.opp];
      apply (round_repr _ _ _ Hprec64 Hemax64 HLD); exact HLe.
  - split; [nia |].
    apply Z.lt_le_trans with (2 ^ 24 * 2 ^ (e - LD)); [nia |].
    rewrite <- pow2_split by lia. apply pow2_le.
    unfold F64.emax, LD. lia.
Qed.

Lemma floor0_spec (p : float) (D : Z) :
  srep F32.prec F32.emax L2 false p D ->
  (D <= 0 -> is_zero (floor0 p) = true) /\
  (0 < D -> floor0 p = p /\
            represents F32.prec F32.emax L2 false p (Rv F32.prec F32.emax L2 D)).
Proof.
  intros H. split.
  - intros HD. destruct (Z.eq_dec D 0) as [-> | Hnz].
    + apply srep_zero in H. subst p. reflexivity.
    + apply srep_neg in H; [| lia].
      destruct H as [| m e Hb | X HX].
      * reflexivity.
      * destruct (double_of_float_repr true m e Hb) as [Hr Hv].
        apply represents_finite_inv in Hr; [| exact Hv].
        destruct Hr as (m' & e' & Hf & _ & _).
        unfold floor0. rewrite Hf. reflexivity.
      * reflexivity.
  - intros HD. apply srep_pos in H; [| exact HD]. split; [| exact H].
    destruct H as [| m e Hb | X HX].
    + reflexivity.
    + destruct (double_of_float_repr false m e Hb) as [Hr _].
      unfold floor0.
      destruct Hr; reflexivity.
    + reflexivity.
Qed.

Lemma SFleb_zero_repr (prec emax L : Z) (z g : spec_float) (Y : Z) :
  is_zero z = true -> represents prec emax L false g Y -> SFleb z g = true.
Proof.
  intros Hz Hg. destruct z; try discriminate. destruct Hg; reflexivity.
Qed.

Lemma SFleb_zero_zero (z1 z2 : spec_float) :
  is_zero z1 = true -> is_zero z2 = true -> SFleb z1 z2 = true.
Proof. destruct z1, z2; try discriminate; reflexivity. Qed.

Lemma SFleb_inf (x : spec_float) :
  is_nan x = false -> SFleb x (S754_infinity false) = true.
Proof. destruct x as [| [|] | |[|] m e]; try discriminate; reflexivity. Qed.

Lemma represents_not_nan (prec emax L : Z) (s : bool) (f : spec_float) (X : Z) :
  represents prec emax L s f X -> is_nan f = false.
Proof. intros H. destruct H; reflexivity. Qed.

Lemma is_zero_not_nan (z : spec_float) : is_zero z = true -> is_nan z = false.
Proof. destruct z; try discriminate; reflexivity. Qed.

Lemma sval_nonneg (L : Z) (x : float) :
  is_nonneg_finite x = true -> 0 <= sval L x.
Proof.
  destruct x as [[|]| | |[|] m e]; try discriminate; intros _;
    cbn [sval cond_Zopp].
  pose proof (Z.pow_nonneg 2 (e - L) ltac:(lia)). nia.
Qed.

(** ** Monotonicity of the pressure for fixed finite coefficients *)

Lemma toPressure_mono_coeffs (slope con : float) (raw1 raw2 : Z) :
  F32.valid slope = true -> is_nonneg_finite slope = true ->
  F32.valid con = true -> is_finite con = true ->
  0 <= raw1 <= raw2 -> raw2 <= 32767 ->
  F32.leb (toPressure slope con raw1) (toPressure slope con raw2) = true.
Proof.
  intros Hvs Hs Hvc Hc Hr Hr2.
  destruct (float_of_int_value raw1 ltac:(lia)) as (Hn1 & Hv1 & Hs1).
  destruct (float_of_int_value raw2 ltac:(lia)) as (Hn2 & Hv2 & Hs2).
  pose proof (mul_value slope _ Hvs Hs Hv1 Hn1) as Ha1.
  pose proof (mul_value slope _ Hvs Hs Hv2 Hn2) as Ha2.
  rewrite Hs1 in Ha1. rewrite Hs2 in Ha2.
  pose proof (sval_nonneg L1 slope Hs) as Hs0.
  pose proof (pow2_pos 149 ltac:(lia)) as Hp.
  assert (HA : Rv F32.prec F32.emax L2 (sval L1 slope * (raw1 * 2 ^ 149))
               <= Rv F32.prec F32.emax L2 (sval L1 slope * (raw2 * 2 ^ 149))).
  { apply (Rv_mono0 _ _ _ Hprec32 Hemax32 HL2). nia. }
  set (A1 := Rv F32.prec F32.emax L2 (sval L1 slope * (raw1 * 2 ^ 149))) in *.
  set (A2 := Rv F32.prec F32.emax L2 (sval L1 slope * (raw2 * 2 ^ 149))) in *.
  unfold toPressure, linear, F32.leb.
  set (a1 := F32.mul slope (float_of_int raw1)) in *.
  set (a2 := F32.mul slope (float_of_int raw2)) in *.
  clearbody A1 A2 a1 a2.
  (* the first pressure is never a NaN *)
  assert (Hnan1 : is_nan (floor0 (F32.sub a1 con)) = false).
  { destruct (Z.lt_ge_cases A1 (2 ^ (F32.emax - L2))) as [Hlt | Hge].
    - pose proof (sub_value a1 con A1 Ha1 Hlt Hvc Hc) as Hp1.
      destruct (floor0_spec _ _ Hp1) as [Hz1 Hpos1].
      destruct (Z.le_gt_cases (A1 - sval L2 con) 0) as [Hle | Hgt].
      + apply is_zero_not_nan. apply Hz1. exact Hle.
      + destruct (Hpos1 ltac:(lia)) as [-> Hrep].
        exact (represents_not_nan _ _ _ _ _ _ Hrep).
    - destruct Ha1 as [| m e Hb | X HX].
      + pose proof (pow2_pos (F32.emax - L2) ltac:(discriminate)). lia.
      + pose proof (bounded_value _ _ _ Hprec32 Hemax32 HL2 m e Hb). lia.
      + rewrite sub_inf by exact Hc. reflexivity. }
  destruct (Z.lt_ge_cases A2 (2 ^ (F32.emax - L2))) as [Hlt2 | Hge2].
  - assert (Hlt1 : A1 < 2 ^ (F32.emax - L2)) by lia.
    pose proof (sub_value a1 con A1 Ha1 Hlt1 Hvc Hc) as Hp1.
    pose proof (sub_value a2 con A2 Ha2 Hlt2 Hvc Hc) as Hp2.
    destruct (floor0_spec _ _ Hp1) as [Hz1 Hpos1].
    destruct (floor0_spec _ _ Hp2) as [Hz2 Hpos2].
    destruct (Z.le_gt_cases (A1 - sval L2 con) 0) as [Hle1 | Hgt1].
    + specialize (Hz1 Hle1).
      destruct (Z.le_gt_cases (A2 - sval L2 con) 0) as [Hle2 | Hgt2].
      * apply SFleb_zero_zero; [exact Hz1 | apply Hz2; exact Hle2].
      * destruct (Hpos2 ltac:(lia)) as [-> Hrep2].
        exact (SFleb_zero_repr _ _ _ _ _ _ Hz1 Hrep2).
    + destruct (Hpos1 ltac:(lia)) as [-> Hrep1].
      destruct (Hpos2 ltac:(lia)) as [-> Hrep2].
      apply (represents_le _ _ _ Hprec32 Hemax32 HL2 _ _ _ _ Hrep1 Hrep2).
      apply (Rv_mono0 _ _ _ Hprec32 Hemax32 HL2). lia.
  - destruct Ha2 as [| m e Hb | X HX].
    + pose proof (pow2_pos (F32.emax - L2) ltac:(discriminate)). lia.
    + pose proof (bounded_value _ _ _ Hprec32 Hemax32 HL2 m e Hb). lia.
    + rewrite (sub_inf con Hc).
      change (floor0 (S754_infinity false)) with (S754_infinity false).
      apply SFleb_inf. exact Hnan1.
Qed.

(** ** Every float the program computes is a binary32 value *)

Lemma srep_valid (prec emax L : Z) (sz : bool) (f : spec_float) (D : Z) :
  srep prec emax L sz f D -> valid_binary prec emax f = true.
Proof.
  unfold srep. destruct (D ?= 0); intros H.
  - subst f. reflexivity.
  - destruct H; try reflexivity. assumption.
  - destruct H; try reflexivity. assumption.
Qed.

Lemma normalize_valid (prec emax z e : Z) (sz : bool) :
  0 < prec -> prec < emax ->
  valid_binary prec emax (binary_normalize prec emax z e sz) = true.
Proof.
  intros Hp Hx.
  apply (srep_valid prec emax (Z.min e (emin prec emax)) sz _
           (z * 2 ^ (e - Z.min e (emin prec emax)))).
  apply normalize_repr; try assumption; lia.
Qed.

Lemma valid_float_of_double (d : double) : F32.valid (float_of_double d) = true.
Proof.
  destruct d as [s | s | | s m e]; try reflexivity.
  apply normalize_valid; reflexivity.
Qed.

Lemma valid_float_of_int (z : Z) : F32.valid (float_of_int z) = true.
Proof. apply normalize_valid; reflexivity. Qed.

Lemma valid_mul (x y : float) :
  F32.valid x = true -> F32.valid y = true -> F32.valid (F32.mul x y) = true.
Proof.
  intros Hx Hy.
  destruct x as [sx | sx | | sx mx ex], y as [sy | sy | | sy my ey];
    try reflexivity.
  unfold F32.valid in *. cbn [valid_binary] in Hx, Hy.
  destruct (bounded32_range mx ex Hx) as (Hex & _).
  destruct (bounded32_range my ey Hy) as (Hey & _).
  apply (represents_valid _ _ _ Hprec32 Hemax32 HL2 (xorb sx sy) _
           (Rv F32.prec F32.emax L2
              ((Zpos mx * 2 ^ (ex - L1)) * (Zpos my * 2 ^ (ey - L1))))).
  apply (mul_repr _ _ _ Hprec32 Hemax32 HL2 L1 L1); try assumption;
    try reflexivity; unfold L1; lia.
Qed.

Lemma valid_sub (x y : float) :
  F32.valid x = true -> F32.valid y = true -> F32.valid (F32.sub x y) = true.
Proof.
  intros Hx Hy.
  destruct x as [sx | sx | | sx mx ex], y as [sy | sy | | sy my ey];
    try reflexivity; try exact Hx; try exact Hy.
  - destruct sx, sy; reflexivity.
  - destruct sx, sy; reflexivity.
  - unfold F32.valid in *. cbn [valid_binary] in Hx, Hy.
    destruct (bounded32_range mx ex Hx) as (Hex & _).
    destruct (bounded32_range my ey Hy) as (Hey & _).
    apply (srep_valid _ _ L2 false _
             (cond_Zopp sx (Zpos mx * 2 ^ (ex - L2))
              - cond_Zopp sy (Zpos my * 2 ^ (ey - L2)))).
    apply (sub_repr _ _ _ Hprec32 Hemax32 HL2); unfold L2; lia.
Qed.

Lemma valid_slope (low high : float) : F32.valid (slope_of low high) = true.
Proof. apply valid_float_of_double. Qed.

Lemma valid_con (slope : float) : F32.valid (con_of slope) = true.
Proof. apply valid_float_of_double. Qed.

Lemma valid_linear (slope con : float) (val : Z) :
  F32.valid slope = true -> F32.valid con = true ->
  F32.valid (linear slope con val) = true.
Proof.
  intros Hs Hc. unfold linear. apply valid_sub; [| exact Hc].
  apply valid_mul; [exact Hs | apply valid_float_of_int].
Qed.

(** The floor leaves nothing below zero. *)
Lemma floor0_not_negative (q : float) :
  F32.valid q = true ->
  F32.ltb (floor0 q) (S754_zero false) = false /\
  F64.ltb (double_of_float (floor0 q)) d_zero = false.
Proof.
  intros Hq. destruct q as [s | [|] | | [|] m e]; try (split; reflexivity).
  - unfold F32.valid in Hq. cbn [valid_binary] in Hq.
    destruct (double_of_float_repr true m e Hq) as [Hr Hv].
    apply represents_finite_inv in Hr; [| exact Hv].
    destruct Hr as (m' & e' & Hf & _ & _).
    unfold floor0. rewrite Hf. split; reflexivity.
  - unfold floor0.
    destruct (F64.ltb (double_of_float (S754_finite false m e)) d_zero) eqn:E.
    + split; reflexivity.
    + split; [reflexivity | exact E].
Qed.

Lemma valid_floor0 (q : float) : F32.valid q = true -> F32.valid (floor0 q) = true.
Proof.
  intros Hq. unfold floor0. destruct (F64.ltb _ _); [reflexivity | exact Hq].
Qed.

(** ** The sentinel *)

Lemma SFeqb_finite_r (x : spec_float) (s : bool) (m : positive) (e : Z) :
  SFeqb x (S754_finite s m e) = true -> x = S754_finite s m e.
Proof.
  intros H. apply SFeqb_rank in H. destruct H as (a & Hx & Hy).
  rewrite <- Hy in Hx. clear Hy.
  destruct x as [[|]|[|]| |[|] m1 e1], s; cbn [rank] in Hx;
    try discriminate; injection Hx as He Hm;
    assert (e1 = e) by lia; assert (m1 = m) by lia; subst; reflexivity.
Qed.

Lemma represents_finite_eq (prec emax L : Z) (s s' : bool) (m' : positive)
    (e' X : Z) :
  represents prec emax L s (S754_finite s' m' e') X ->
  s = s' /\ bounded prec emax m' e' = true /\ X = Zpos m' * 2 ^ (e' - L).
Proof.
  intros H. inversion H as [| m e Hb [Hs Hm He] HX |]. subst.
  repeat split. exact Hb.
Qed.

Lemma d_minus_one_eq :
  d_minus_one = S754_finite true 4503599627370496 (-52).
Proof. reflexivity. Qed.

Lemma sentinel_eq :
  float_of_double d_minus_one = S754_finite true 8388608 (-23).
Proof. reflexivity. Qed.

Lemma is_sentinel_iff (x : float) :
  F32.valid x = true ->
  is_sentinel x = true <-> x = float_of_double d_minus_one.
Proof.
  intros Hx. split; [| intros ->; reflexivity].
  unfold is_sentinel, F64.eqb. rewrite sentinel_eq, d_minus_one_eq. intros H.
  apply SFeqb_finite_r in H.
  destruct x as [s | s | | s m e]; try discriminate.
  unfold F32.valid in Hx. cbn [valid_binary] in Hx.
  destruct (double_of_float_repr s m e Hx) as [Hr _].
  rewrite H in Hr.
  apply represents_finite_eq in Hr. destruct Hr as (-> & _ & Hv).
  apply (represents_inj _ _ LD Hprec32 Hemax32 ltac:(discriminate) true _ _
           (Zpos m * 2 ^ (e - LD))).
  - constructor. exact Hx.
  - rewrite Hv.
    change (Z.pos 4503599627370496 * 2 ^ (-52 - LD))
      with (Z.pos 8388608 * 2 ^ (-23 - LD)).
    constructor. reflexivity.
Qed.

Lemma parse_from_valid (opts : list cli_opt) (st st' : settings) :
  parse_from st opts = Some st' ->
  F32.valid (minpressure st) = true -> F32.valid (maxpressure st) = true ->
  F32.valid (minpressure st') = true /\ F32.valid (maxpressure st') = true.
Proof.
  revert st. induction opts as [| o rest IH]; intros st Hp Hmin Hmax.
  - injection Hp as <-. split; assumption.
  - cbn [parse_from] in Hp.
    destruct o; cbn [apply_opt] in Hp; try discriminate;
      apply IH in Hp; try assumption; cbn [minpressure maxpressure];
      try assumption; apply valid_float_of_double.
Qed.

Lemma parse_from_app (pre rest : list cli_opt) (st : settings) :
  parse_from st (pre ++ rest) =
  match parse_from st pre with
  | Some st' => parse_from st' rest
  | None => None
  end.
Proof.
  revert st. induction pre as [| o pre IH]; intros st; [reflexivity |].
  cbn [app parse_from]. destruct (apply_opt st o); [apply IH | reflexivity].
Qed.

(** Options other than [-m] leave [minpressure] alone, and likewise for
    [-M]. *)
Lemma parse_from_keeps_min (pre : list cli_opt) (st st' : settings) :
  forallb (fun o => negb (is_opt_m o)) pre = true ->
  parse_from st pre = Some st' -> minpressure st' = minpressure st.
Proof.
  revert st. induction pre as [| o pre IH]; intros st Hno Hp.
  - injection Hp as <-. reflexivity.
  - cbn [forallb] in Hno. apply andb_true_iff in Hno. destruct Hno as [Ho Hno].
    cbn [parse_from] in Hp.
    destruct o; cbn [apply_opt] in Hp; try discriminate;
      apply (IH _ Hno) in Hp; exact Hp.
Qed.

Lemma parse_from_keeps_max (pre : list cli_opt) (st st' : settings) :
  forallb (fun o => negb (is_opt_M o)) pre = true ->
  parse_from st pre = Some st' -> maxpressure st' = maxpressure st.
Proof.
  revert st. induction pre as [| o pre IH]; intros st Hno Hp.
  - injection Hp as <-. reflexivity.
  - cbn [forallb] in Hno. apply andb_true_iff in Hno. destruct Hno as [Ho Hno].
    cbn [parse_from] in Hp.
    destruct o; cbn [apply_opt] in Hp; try discriminate;
      apply (IH _ Hno) in Hp; exact Hp.
Qed.

(** Storing the value a threshold already has changes nothing. *)
Lemma apply_opt_m_same (st : settings) (d : double) :
  float_of_double d = minpressure st -> apply_opt st (Opt_m d) = Some st.
Proof. intros H. destruct st. cbn in *. rewrite H. reflexivity. Qed.

Lemma apply_opt_M_same (st : settings) (d : double) :
  float_of_double d = maxpressure st -> apply_opt st (Opt_M d) = Some st.
Proof. intros H. destruct st. cbn in *. rewrite H. reflexivity. Qed.

Lemma parse_skip_sentinel_m (pre rest : list cli_opt) (d : double) :
  forallb (fun o => negb (is_opt_m o)) pre = true ->
  float_of_double d = float_of_double d_minus_one ->
  parse_options (pre ++ Opt_m d :: rest) = parse_options (pre ++ rest).
Proof.
  intros Hno Hd. unfold parse_options. rewrite !parse_from_app.
  destruct (parse_from defaults pre) as [st |] eqn:Hp; [| reflexivity].
  cbn [parse_from]. rewrite apply_opt_m_same; [reflexivity |].
  rewrite (parse_from_keeps_min pre defaults st Hno Hp). exact Hd.
Qed.

Lemma parse_skip_sentinel_M (pre rest : list cli_opt) (d : double) :
  forallb (fun o => negb (is_opt_M o)) pre = true ->
  float_of_double d = float_of_double d_minus_one ->
  parse_options (pre ++ Opt_M d :: rest) = parse_options (pre ++ rest).
Proof.
  intros Hno Hd. unfold parse_options. rewrite !parse_from_app.
  destruct (parse_from defaults pre) as [st |] eqn:Hp; [| reflexivity].
  cbn [parse_from]. rewrite apply_opt_M_same; [reflexivity |].
  rewrite (parse_from_keeps_max pre defaults st Hno Hp). exact Hd.
Qed.

(** ** A bound for rounding with an inexact location *)

Lemma shr_m_iter (k : nat) (m : Z) (r s : bool) :
  0 <= m ->
  shr_m (Nat.iter k shr_1 (Build_shr_record m r s)) = m / 2 ^ Z.of_nat k.
Proof.
  intros Hm. revert r s. induction k as [| k IH]; intros r s.
  - cbn. rewrite Z.div_1_r. reflexivity.
  - change (Nat.iter (S k) shr_1 ?x) with (shr_1 (Nat.iter k shr_1 x)).
    specialize (IH r s).
    destruct (Nat.iter k shr_1 (Build_shr_record m r s)) as [mk rk sk].
    cbn [shr_m] in IH. subst mk.
    pose proof (pow2_pos (Z.of_nat k) ltac:(lia)) as Hp.
    rewrite shr_1_nonneg by (apply Z.div_pos; lia).
    cbn [shr_m]. rewrite Z.div_div by lia.
    rewrite Nat2Z.inj_succ. unfold Z.succ. rewrite pow2_split by lia.
    reflexivity.
Qed.

(** A right shift keeps the mantissa non-negative and never increases
    the value. *)
Lemma shr_value (L : Z) (mrs : shr_record) (e n : Z) :
  0 <= shr_m mrs -> L <= e ->
  0 <= shr_m (fst (shr mrs e n)) /\
  snd (shr mrs e n) = Z.max e (e + n) /\
  shr_m (fst (shr mrs e n)) * 2 ^ (snd (shr mrs e n) - L)
    <= shr_m mrs * 2 ^ (e - L).
Proof.
  intros Hm He. destruct n as [| p | p].
  - cbn [shr fst snd]. repeat split; lia.
  - cbn [shr fst snd]. rewrite iter_pos_nat.
    destruct mrs as [m r s]. cbn [shr_m] in *.
    rewrite shr_m_iter by exact Hm. rewrite positive_nat_Z.
    pose proof (pow2_pos (Z.pos p) ltac:(lia)) as Hp.
    split; [apply Z.div_pos; lia |]. split; [lia |].
    replace (e + Z.pos p - L) with (Z.pos p + (e - L)) by lia.
    rewrite pow2_split by lia.
    pose proof (Z.mul_div_le m (2 ^ Z.pos p) Hp).
    pose proof (pow2_pos (e - L) ltac:(lia)). nia.
  - cbn [shr fst snd]. repeat split; lia.
Qed.

Lemma round_nearest_even_bounds (m : Z) (l : location) :
  m <= round_nearest_even m l <= m + 1.
Proof.
  unfold round_nearest_even. destruct l as [| []]; try lia.
  destruct (Z.even m); lia.
Qed.

Lemma shr_m_of_loc (m : Z) (l : location) : shr_m (shr_record_of_loc m l) = m.
Proof. destruct l as [| []]; reflexivity. Qed.

(** A crude bound on the result of rounding with any location: at most
    the truncated value plus one unit of the larger exponent. *)
Lemma round_aux_bound (prec emax L : Z) (s : bool) (m e : Z) (l : location) :
  0 <= m -> L <= e ->
  exists m' e',
    0 <= m' /\ e <= e' /\
    m' * 2 ^ (e' - L)
      <= m * 2 ^ (e - L)
         + 2 ^ (Z.max e (fexp prec emax (Zdigits2 m + e)) - L) /\
    binary_round_aux prec emax s m e l =
      match m' with
      | Z0 => S754_zero s
      | Zpos p => if e' <=? emax - prec then S754_finite s p e'
                  else S754_infinity s
      | Zneg _ => S754_nan
      end.
Proof.
  intros Hm He. unfold binary_round_aux, shr_fexp.
  set (n := fexp prec emax (Zdigits2 m + e) - e).
  pose proof (shr_value L (shr_record_of_loc m l) e n) as H1.
  rewrite shr_m_of_loc in H1. specialize (H1 Hm He).
  destruct (shr (shr_record_of_loc m l) e n) as [mrs1 e1].
  cbn [fst snd] in H1. destruct H1 as (H1a & H1b & H1c).
  pose proof (round_nearest_even_bounds (shr_m mrs1) (loc_of_shr_record mrs1))
    as Hr.
  set (m1 := round_nearest_even (shr_m mrs1) (loc_of_shr_record mrs1)) in *.
  set (n' := fexp prec emax (Zdigits2 m1 + e1) - e1).
  pose proof (shr_value L (shr_record_of_loc m1 loc_Exact) e1 n') as H2.
  rewrite shr_m_of_loc in H2. specialize (H2 ltac:(lia) ltac:(lia)).
  destruct (shr (shr_record_of_loc m1 loc_Exact) e1 n') as [mrs2 e2].
  cbn [fst snd] in H2. destruct H2 as (H2a & H2b & H2c).
  exists (shr_m mrs2), e2.
  split; [exact H2a |]. split; [lia |]. split; [| reflexivity].
  assert (He1 : e1 = Z.max e (fexp prec emax (Zdigits2 m + e)))
    by (subst n; lia).
  rewrite <- He1.
  pose proof (pow2_pos (e1 - L) ltac:(lia)). nia.
Qed.

(** ** The derived coefficients are finite *)

Lemma div_core_bound (prec emax m1 e1 m2 e2 : Z) :
  0 < m1 -> 0 < m2 ->
  let '(q, e', l) := SFdiv_core_binary prec emax m1 e1 m2 e2 in
  0 <= q /\ e' <= e1 - e2 /\ Z.min (emin prec emax) (e1 - e2) <= e' /\
  q * m2 <= m1 * 2 ^ (e1 - e2 - e').
Proof.
  intros H1 H2. unfold SFdiv_core_binary.
  set (e' := Z.min (fexp prec emax (Zdigits2 m1 + e1 - (Zdigits2 m2 + e2)))
               (e1 - e2)).
  set (s := e1 - e2 - e').
  assert (Hs : 0 <= s) by (subst s e'; lia).
  assert (He' : Z.min (emin prec emax) (e1 - e2) <= e').
  { subst e'. rewrite fexp_spec, emin_spec. lia. }
  set (m' := match s with
             | 0 => m1
             | Z.pos _ => Z.shiftl m1 s
             | Z.neg _ => 0
             end).
  assert (Hm' : m' = m1 * 2 ^ s).
  { subst m'. destruct s as [| p | p] eqn:Es.
    - rewrite Z.mul_1_r. reflexivity.
    - apply Z.shiftl_mul_pow2. lia.
    - lia. }
  pose proof (Z_div_mod m' m2 ltac:(lia)) as Hdm.
  destruct (Z.div_eucl m' m2) as [q r]. destruct Hdm as [Hq Hr].
  pose proof (pow2_pos s Hs) as Hp.
  assert (Hq0 : 0 <= q) by nia.
  assert (He1 : e' <= e1 - e2) by (subst e'; lia).
  split; [exact Hq0 |]. split; [exact He1 |]. split; [exact He' |].
  fold s. rewrite <- Hm'. nia.
Qed.

Lemma pow2_lt_inv (a b : Z) : 0 <= b -> 2 ^ a < 2 ^ b -> a < b.
Proof.
  intros Hb H. destruct (Z.lt_ge_cases a b) as [Hlt | Hge]; [exact Hlt |].
  pose proof (pow2_le b a ltac:(lia)). lia.
Qed.

Lemma represents_bounded_inv (prec emax L : Z) (f : spec_float) (X : Z) :
  represents prec emax L false f X -> X < 2 ^ (emax - L) ->
  is_nonneg_finite f = true /\ sval L f = X.
Proof.
  intros H HX. destruct H as [| m e Hb | X HX'].
  - split; reflexivity.
  - split; reflexivity.
  - lia.
Qed.

Lemma span_eq :
  F64.sub maxval minval = S754_finite false (8540 * 2 ^ 39) (-39).
Proof. reflexivity. Qed.

Lemma minval_eq : minval = S754_finite false (2090 * 2 ^ 41) (-41).
Proof. reflexivity. Qed.

(** The slope stays finite: at most [2^116]. *)
Lemma slope_finite (y : float) :
  F32.valid y = true -> is_nonneg_finite y = true ->
  is_nonneg_finite
    (float_of_double (F64.div (double_of_float y) (F64.sub maxval minval)))
    = true /\
  sval LD (float_of_double
             (F64.div (double_of_float y) (F64.sub maxval minval)))
    <= 2 ^ (116 - LD).
Proof.
  intros Hv Hy.
  pose proof (pow2_pos (116 - LD) ltac:(discriminate)) as HT116.
  destruct y as [[|]| | |[|] my ey]; try discriminate.
  - split; [reflexivity |]. cbn [sval]. change (sval LD _) with 0. lia.
  - unfold F32.valid in Hv. cbn [valid_binary] in Hv.
    destruct (bounded32_range my ey Hv) as (Hey & _ & Hmy).
    destruct (double_of_float_repr false my ey Hv) as [Hr HvN].
    apply represents_finite_inv in Hr; [| exact HvN].
    destruct Hr as (mN & eN & HN & HbN & HX).
    rewrite HN, span_eq. unfold F64.div. cbn [SFdiv xorb].
    destruct (bounded_value _ _ _ Hprec64 Hemax64 HLD mN eN HbN) as [HLeN _].
    pose proof (proj1 (bounded_spec _ _ _ _) HbN) as [HcN _].
    destruct (canonical_bounds _ _ _ Hprec64 Hemax64 HLD (Zpos mN) eN
                ltac:(lia) HcN) as (_ & HmN & HnormN).
    (* the value of the numerator *)
    set (VN := Zpos mN * 2 ^ (eN - LD)) in *.
    assert (HVN : VN < 2 ^ (128 - LD)).
    { rewrite <- HX.
      apply Z.lt_le_trans with (2 ^ 24 * 2 ^ (ey - LD)).
      - pose proof (pow2_pos (ey - LD) ltac:(unfold LD; lia)). nia.
      - rewrite <- pow2_split by (unfold LD; lia). apply pow2_le.
        unfold LD. lia. }
    assert (HVN' : 2 ^ (-149 - LD) <= VN).
    { rewrite <- HX.
      apply Z.le_trans with (1 * 2 ^ (ey - LD)).
      - rewrite Z.mul_1_l. apply pow2_le. unfold LD. lia.
      - pose proof (pow2_pos (ey - LD) ltac:(unfold LD; lia)). nia. }
    assert (HeN : -202 < eN).
    { destruct (Z.lt_ge_cases (-202) eN) as [H | H]; [exact H |]. exfalso.
      assert (VN < 2 ^ 53 * 2 ^ (eN - LD)).
      { subst VN. pose proof (pow2_pos (eN - LD) ltac:(lia)).
        change F64.prec with 53 in HmN. nia. }
      rewrite <- pow2_split in H0 by lia.
      pose proof (pow2_le (53 + (eN - LD)) (-149 - LD) ltac:(unfold LD in *; lia)).
      lia. }
    specialize (HnormN ltac:(rewrite emin_spec; unfold F64.prec, F64.emax; lia)).
    change (F64.prec - 1) with 52 in HnormN.
    assert (HeN' : eN <= 75).
    { assert (2 ^ (52 + (eN - LD)) < 2 ^ (128 - LD)).
      { rewrite pow2_split by lia.
        pose proof (pow2_pos (eN - LD) ltac:(lia)). subst VN. nia. }
      apply pow2_lt_inv in H; [lia | discriminate]. }
    (* the quotient *)
    pose proof (div_core_bound F64.prec F64.emax (Zpos mN) eN
                  (Zpos (8540 * 2 ^ 39)) (-39) ltac:(lia) ltac:(lia)) as Hdiv.
    destruct (SFdiv_core_binary F64.prec F64.emax (Zpos mN) eN
                (Zpos (8540 * 2 ^ 39)) (-39)) as [[q ez] lz].
    destruct Hdiv as (Hq & Hez & Hez' & Hqm).
    rewrite emin_spec in Hez'. unfold F64.prec, F64.emax in Hez'.
    assert (HLez : LD <= ez) by (unfold LD; lia).
    destruct (round_aux_bound F64.prec F64.emax LD false q ez lz Hq HLez)
      as (m' & e' & Hm' & He' & Hval & Hres).
    rewrite Hres. clear Hres.
    set (Q := q * 2 ^ (ez - LD)) in *.
    assert (HQ : Q * 8540 <= VN).
    { subst Q VN.
      replace (eN - -39 - ez) with (eN + 39 - ez) in Hqm by lia.
      pose proof (pow2_pos (ez - LD) ltac:(lia)) as Hp1.
      assert (H1 : q * Zpos (8540 * 2 ^ 39) * 2 ^ (ez - LD)
                   <= Zpos mN * 2 ^ (eN + 39 - ez) * 2 ^ (ez - LD)) by nia.
      assert (H2 : 2 ^ (eN + 39 - ez) * 2 ^ (ez - LD)
                   = 2 ^ (eN - LD) * 2 ^ 39).
      { rewrite <- !pow2_split by lia. f_equal. lia. }
      change (Zpos (8540 * 2 ^ 39)) with (8540 * 2 ^ 39) in H1.
      pose proof (pow2_pos 39 ltac:(lia)) as H39.
      set (A := 2 ^ (eN + 39 - ez)) in *. set (B := 2 ^ (ez - LD)) in *.
      set (C := 2 ^ (eN - LD)) in *. set (P39 := 2 ^ 39) in *.
      clearbody A B C P39. nia. }
    assert (HQ0 : 0 <= Q).
    { subst Q. pose proof (pow2_pos (ez - LD) ltac:(lia)). nia. }
    assert (H128 : 2 ^ (128 - LD) = 8192 * 2 ^ (115 - LD)).
    { replace (128 - LD) with (13 + (115 - LD)) by lia.
      rewrite pow2_split by (unfold LD; lia). reflexivity. }
    assert (HQ115 : Q < 2 ^ (115 - LD)) by lia.
    (* the unit of the last place *)
    assert (Hmax : Z.max ez (fexp F64.prec F64.emax (Zdigits2 q + ez)) <= 114).
    { rewrite fexp_spec. unfold F64.prec, F64.emax.
      destruct (Z.eq_dec q 0) as [-> | Hq0].
      - cbn [Zdigits2]. lia.
      - destruct (Zdigits2_bounds q ltac:(lia)) as [Hdq Bq].
        assert (2 ^ (Zdigits2 q - 1 + (ez - LD)) < 2 ^ (115 - LD)).
        { rewrite pow2_split by lia.
          pose proof (pow2_pos (ez - LD) ltac:(lia)). subst Q.
          apply Z.le_lt_trans with (q * 2 ^ (ez - LD)); [| exact HQ115].
          apply Z.mul_le_mono_nonneg_r; lia. }
        apply pow2_lt_inv in H; [lia | discriminate]. }
    assert (HW : 2 ^ (Z.max ez (fexp F64.prec F64.emax (Zdigits2 q + ez)) - LD)
                 <= 2 ^ (114 - LD)).
    { apply pow2_le. lia. }
    assert (H115 : 2 ^ (115 - LD) = 2 * 2 ^ (114 - LD)).
    { replace (115 - LD) with (1 + (114 - LD)) by lia.
      rewrite pow2_split by (unfold LD; lia). reflexivity. }
    assert (H116 : 2 ^ (116 - LD) = 4 * 2 ^ (114 - LD)).
    { replace (116 - LD) with (2 + (114 - LD)) by lia.
      rewrite pow2_split by (unfold LD; lia). reflexivity. }
    assert (Hx : m' * 2 ^ (e' - LD) < 2 ^ (116 - LD)).
    { pose proof (pow2_pos (114 - LD) ltac:(discriminate)). lia. }
    destruct m' as [| p | p]; [| | lia].
    + split; [reflexivity |]. change (sval LD _) with 0. lia.
    + assert (He116 : e' < 116).
      { assert (2 ^ (e' - LD) < 2 ^ (116 - LD)).
        { pose proof (pow2_pos (e' - LD) ltac:(lia)).
          apply Z.le_lt_trans with (Z.pos p * 2 ^ (e' - LD)); [| exact Hx].
          rewrite <- (Z.mul_1_l (2 ^ (e' - LD))) at 1.
          apply Z.mul_le_mono_nonneg_r; lia. }
        apply pow2_lt_inv in H; [lia | discriminate]. }
      replace (e' <=? F64.emax - F64.prec) with true
        by (symmetry; apply Z.leb_le; unfold F64.emax, F64.prec; lia).
      unfold float_of_double, binary_normalize. cbn [cond_Zopp].
      pose proof (round_repr _ _ LD Hprec32 Hemax32 ltac:(discriminate)
                    false p e' ltac:(lia)) as Hrep.
      assert (HRv : Rv F32.prec F32.emax LD (Z.pos p * 2 ^ (e' - LD))
                    <= 2 ^ (116 - LD)).
      { rewrite <- (Z.mul_1_l (2 ^ (116 - LD))).
        rewrite <- (Rv_exact _ _ LD Hprec32 Hemax32 ltac:(discriminate) 1 116);
          [| lia | discriminate | discriminate].
        apply (Rv_mono0 _ _ LD Hprec32 Hemax32 ltac:(discriminate)).
        pose proof (pow2_pos (e' - LD) ltac:(lia)).
        split; [apply Z.mul_nonneg_nonneg; lia | lia]. }
      apply represents_bounded_inv in Hrep.
      * destruct Hrep as [Hfin Hsv]. split; [exact Hfin |].
        rewrite Hsv. exact HRv.
      * apply Z.le_lt_trans with (2 ^ (116 - LD)); [exact HRv |].
        apply pow2_lt. unfold F32.emax, LD. lia.
Qed.

Lemma represents_bounded_valid (prec emax L : Z) (f : spec_float) (X : Z) :
  represents prec emax L false f X -> X < 2 ^ (emax - L) ->
  is_nonneg_finite f = true /\ sval L f = X /\ valid_binary prec emax f = true.
Proof.
  intros H HX. destruct H as [| m e Hb | X HX'].
  - repeat split.
  - repeat split. exact Hb.
  - lia.
Qed.

Lemma minval_value :
  Zpos (2090 * 2 ^ 41) * 2 ^ (-41 - LD) = 2090 * 2 ^ (0 - LD).
Proof. reflexivity. Qed.

(** The intercept stays finite: at most [2090 * 2^116]. *)
Lemma con_finite (slope : float) :
  F32.valid slope = true -> is_nonneg_finite slope = true ->
  sval LD slope <= 2 ^ (116 - LD) ->
  is_finite (con_of slope) = true.
Proof.
  intros Hv Hs Hbound.
  destruct slope as [[|]| | |[|] ms es]; try discriminate.
  - reflexivity.
  - unfold F32.valid in Hv. cbn [valid_binary] in Hv.
    cbn [sval cond_Zopp] in Hbound.
    destruct (double_of_float_repr false ms es Hv) as [Hr HvN].
    apply represents_finite_inv in Hr; [| exact HvN].
    destruct Hr as (mN & eN & HN & HbN & HX).
    unfold con_of. rewrite HN, minval_eq.
    destruct (bounded_value _ _ _ Hprec64 Hemax64 HLD mN eN HbN) as [HLeN _].
    pose proof (mul_repr _ _ (LD + LD) Hprec64 Hemax64 ltac:(discriminate)
                  LD LD false false mN (2090 * 2 ^ 41) eN (-41) eq_refl
                  HLeN ltac:(discriminate) HbN eq_refl) as HP.
    cbn [xorb] in HP. rewrite minval_value, <- HX in HP.
    fold (F64.mul (S754_finite false mN eN)
            (S754_finite false (2090 * 2 ^ 41) (-41))) in HP.
    set (P := F64.mul (S754_finite false mN eN)
                (S754_finite false (2090 * 2 ^ 41) (-41))) in *.
    clearbody P.
    set (Vs := Z.pos ms * 2 ^ (es - LD)) in *.
    assert (HVs : 0 <= Vs).
    { subst Vs. pose proof (Z.pow_nonneg 2 (es - LD) ltac:(lia)). nia. }
    set (U := 2090 * 2 ^ (116 - (LD + LD))).
    assert (HU : Vs * (2090 * 2 ^ (0 - LD)) <= U).
    { subst U. replace (116 - (LD + LD)) with ((116 - LD) + (0 - LD)) by lia.
      rewrite pow2_split by discriminate.
      pose proof (pow2_pos (0 - LD) ltac:(discriminate)). nia. }
    assert (HU0 : 0 <= Vs * (2090 * 2 ^ (0 - LD))).
    { pose proof (pow2_pos (0 - LD) ltac:(discriminate)). nia. }
    assert (HUlt : U < 2 ^ (128 - (LD + LD))).
    { subst U. replace (128 - (LD + LD)) with (12 + (116 - (LD + LD))) by lia.
      rewrite pow2_split by discriminate.
      pose proof (pow2_pos (116 - (LD + LD)) ltac:(discriminate)).
      change (2 ^ 12) with 4096. lia. }
    assert (HRv64 : Rv F64.prec F64.emax (LD + LD)
                      (Vs * (2090 * 2 ^ (0 - LD))) <= U).
    { subst U.
      rewrite <- (Rv_exact _ _ (LD + LD) Hprec64 Hemax64 ltac:(discriminate)
                    2090 116); [| lia | discriminate | discriminate].
      apply (Rv_mono0 _ _ (LD + LD) Hprec64 Hemax64 ltac:(discriminate)).
      split; [exact HU0 | exact HU]. }
    apply represents_bounded_valid in HP.
    + destruct HP as (HPfin & HPval & HPvalid).
      destruct P as [[|]| | |[|] mP eP]; try discriminate.
      * reflexivity.
      * cbn [valid_binary] in HPvalid. cbn [sval cond_Zopp] in HPval.
        destruct (bounded_value _ _ _ Hprec64 Hemax64 HLD mP eP HPvalid)
          as [HLeP _].
        unfold float_of_double, binary_normalize. cbn [cond_Zopp].
        pose proof (round_repr _ _ (LD + LD) Hprec32 Hemax32
                      ltac:(discriminate) false mP eP
                      ltac:(unfold LD in *; lia)) as Hrep.
        rewrite HPval in Hrep.
        apply represents_bounded_inv in Hrep.
        -- destruct Hrep as [Hfin _].
           destruct (binary_round F32.prec F32.emax false mP eP)
             as [[|]| | |[|] mc ec]; try discriminate; reflexivity.
        -- apply Z.le_lt_trans with U; [| exact HUlt].
           subst U.
           rewrite <- (Rv_exact _ _ (LD + LD) Hprec32 Hemax32
                         ltac:(discriminate) 2090 116);
             [| lia | discriminate | discriminate].
           apply (Rv_mono0 _ _ (LD + LD) Hprec32 Hemax32 ltac:(discriminate)).
           split; [| exact HRv64].
           apply (Rv_nonneg _ _ (LD + LD) Hprec64 Hemax64 ltac:(discriminate)).
           exact HU0.
    + apply Z.le_lt_trans with U; [exact HRv64 |].
      apply Z.lt_le_trans with (2 ^ (128 - (LD + LD))); [exact HUlt |].
      apply pow2_le. unfold F64.emax, LD. lia.
Qed.

(** ** The span [high - low] *)

Lemma ltb_finite_sval (sx sy : bool) (mx my : positive) (ex ey : Z) :
  bounded F32.prec F32.emax mx ex = true ->
  bounded F32.prec F32.emax my ey = true ->
  SFltb (S754_finite sx mx ex) (S754_finite sy my ey) = true ->
  sval L2 (S754_finite sx mx ex) < sval L2 (S754_finite sy my ey).
Proof.
  intros Hbx Hby Hlt.
  destruct (bounded_value _ _ _ Hprec32 Hemax32 HL2 mx ex Hbx) as [_ Hvx].
  destruct (bounded_value _ _ _ Hprec32 Hemax32 HL2 my ey Hby) as [_ Hvy].
  unfold SFltb in Hlt. cbn [SFcompare] in Hlt. cbn [sval].
  destruct sx, sy; cbn [cond_Zopp]; try discriminate; try lia.
  - destruct (Z.lt_ge_cases (Zpos my * 2 ^ (ey - L2)) (Zpos mx * 2 ^ (ex - L2)))
      as [H | H]; [lia |]. exfalso.
    destruct (canonical_order _ _ _ Hprec32 Hemax32 HL2 mx my ex ey Hbx Hby H)
      as [He | [He Hm]].
    + apply Z.compare_lt_iff in He. rewrite He in Hlt. discriminate.
    + subst ey. rewrite Z.compare_refl in Hlt.
      change (Pos.compare_cont Eq mx my) with (Pos.compare mx my) in Hlt.
      apply Pos.compare_le_iff in Hm.
      destruct (Pos.compare mx my); try discriminate. apply Hm. reflexivity.
  - destruct (Z.lt_ge_cases (Zpos mx * 2 ^ (ex - L2)) (Zpos my * 2 ^ (ey - L2)))
      as [H | H]; [lia |]. exfalso.
    destruct (canonical_order _ _ _ Hprec32 Hemax32 HL2 my mx ey ex Hby Hbx H)
      as [He | [He Hm]].
    + apply Z.compare_gt_iff in He. rewrite He in Hlt. discriminate.
    + subst ey. rewrite Z.compare_refl in Hlt.
      change (Pos.compare_cont Eq mx my) with (Pos.compare mx my) in Hlt.
      apply Pos.compare_ge_iff in Hm.
      destruct (Pos.compare mx my); try discriminate. apply Hm. reflexivity.
Qed.

Lemma span_nonneg (low high : float) :
  F32.valid low = true -> F32.valid high = true ->
  F32.ltb low high = true ->
  is_finite (F32.sub high low) = true ->
  is_nonneg_finite (F32.sub high low) = true.
Proof.
  intros Hvl Hvh Hlt Hfin. unfold F32.ltb in Hlt.
  destruct high as [sh | sh | | sh mh eh], low as [sl | sl | | sl ml el];
    try (cbn in Hlt; discriminate Hlt);
    try (destruct sh, sl; cbn in Hlt; discriminate Hlt);
    try (destruct sh, sl; cbn in Hfin; discriminate Hfin).
  - destruct sl; [reflexivity | cbn in Hlt; discriminate Hlt].
  - destruct sh; [cbn in Hlt; discriminate Hlt | reflexivity].
  - unfold F32.valid in *. cbn [valid_binary] in Hvl, Hvh.
    pose proof (ltb_finite_sval sl sh ml mh el eh Hvl Hvh Hlt) as Hs.
    destruct (bounded_value _ _ _ Hprec32 Hemax32 HL2 mh eh Hvh) as [Heh _].
    destruct (bounded_value _ _ _ Hprec32 Hemax32 HL2 ml el Hvl) as [Hel _].
    pose proof (sub_repr _ _ _ Hprec32 Hemax32 HL2 sh sl mh ml eh el Heh Hel)
      as Hrep.
    cbn [sval] in Hs.
    apply srep_pos in Hrep; [| lia].
    fold (F32.sub (S754_finite sh mh eh) (S754_finite sl ml el)) in Hrep.
    destruct Hrep; [reflexivity | reflexivity | discriminate Hfin].
Qed.

(** ** The pressure at the raw constant 2090 *)

Lemma float_2090 : float_of_int 2090 = S754_finite false (2090 * 2 ^ 12) (-12).
Proof. reflexivity. Qed.

Lemma float_2090_value :
  Zpos (2090 * 2 ^ 12) * 2 ^ (-12 - LD) = 2090 * 2 ^ (0 - LD).
Proof. reflexivity. Qed.

Lemma sub_self (x : float) :
  F32.sub x x = S754_zero false \/ F32.sub x x = S754_nan.
Proof.
  destruct x as [[|] | [|] | | s m e]; try (left; reflexivity);
    try (right; reflexivity).
  left. cbn [F32.sub SFsub]. rewrite Z.sub_diag. reflexivity.
Qed.

(** For a finite slope the product [slope * (float)2090] and the stored
    constant [con], computed in double and rounded, are the same float. *)
Lemma con_is_product (s : bool) (ms : positive) (es : Z) :
  bounded F32.prec F32.emax ms es = true ->
  con_of (S754_finite s ms es)
  = F32.mul (S754_finite s ms es) (float_of_int 2090).
Proof.
  intros Hb.
  destruct (bounded32_range ms es Hb) as (Hes & Hds & Hms).
  destruct (Zdigits2_bounds (Zpos ms) ltac:(lia)) as [Hd0 _].
  assert (HLes : LD <= es) by (unfold LD; lia).
  set (X0 := Zpos ms * 2 ^ (es - LD) * (2090 * 2 ^ (0 - LD))).
  (* the product, rounded once to binary32 *)
  pose proof (mul_repr _ _ (LD + LD) Hprec32 Hemax32 ltac:(discriminate)
                LD LD s false ms (2090 * 2 ^ 12) es (-12) eq_refl
                HLes ltac:(discriminate) Hb eq_refl) as Ha.
  rewrite float_2090_value in Ha. fold X0 in Ha.
  rewrite xorb_false_r in Ha.
  fold (F32.mul (S754_finite s ms es)
          (S754_finite false (2090 * 2 ^ 12) (-12))) in Ha.
  rewrite <- float_2090 in Ha.
  (* the product in binary64 is exact *)
  destruct (double_of_float_repr s ms es Hb) as [Hr HvN].
  apply represents_finite_inv in Hr; [| exact HvN].
  destruct Hr as (mN & eN & HN & HbN & HX).
  destruct (bounded_value _ _ _ Hprec64 Hemax64 HLD mN eN HbN) as [HLeN _].
  pose proof (mul_repr _ _ (LD + LD) Hprec64 Hemax64 ltac:(discriminate)
                LD LD s false mN (2090 * 2 ^ 41) eN (-41) eq_refl
                HLeN ltac:(discriminate) HbN eq_refl) as HP.
  rewrite minval_value, <- HX in HP. fold X0 in HP.
  rewrite xorb_false_r in HP.
  assert (HX0 : X0 = Zpos (ms * 2090) * 2 ^ (es - (LD + LD))).
  { subst X0. rewrite Pos2Z.inj_mul.
    replace (es - (LD + LD)) with ((es - LD) + (0 - LD)) by lia.
    rewrite pow2_split by (unfold LD in *; lia). ring. }
  assert (Hd36 : Zdigits2 (Zpos (ms * 2090)) <= 36).
  { destruct (Zdigits2_bounds (Zpos (ms * 2090)) ltac:(lia)) as [Hd Hbd].
    set (d := Zdigits2 (Zpos (ms * 2090))) in *. clearbody d.
    destruct (Z.le_gt_cases d 36) as [H | H]; [exact H |].
    pose proof (pow2_le 36 (d - 1) ltac:(lia)).
    rewrite Pos2Z.inj_mul in Hbd.
    change (2 ^ 36) with 68719476736 in *.
    change (2 ^ 24) with 16777216 in *. lia. }
  assert (Hex : Rv F64.prec F64.emax (LD + LD) X0 = X0).
  { rewrite HX0.
    apply (Rv_exact _ _ (LD + LD) Hprec64 Hemax64 ltac:(discriminate));
      [lia | unfold LD in *; lia |].
    rewrite fexp_spec. unfold F64.prec, F64.emax. lia. }
  rewrite Hex in HP.
  assert (HX0b : 0 < X0 < 2 ^ (F64.emax - (LD + LD))).
  { rewrite HX0.
    pose proof (pow2_pos (es - (LD + LD)) ltac:(unfold LD in *; lia)).
    split; [nia |].
    apply Z.lt_le_trans with (2 ^ 36 * 2 ^ (es - (LD + LD))).
    - rewrite Pos2Z.inj_mul. change (2 ^ 36) with 68719476736.
      change (2 ^ 24) with 16777216 in *. nia.
    - rewrite <- pow2_split by (unfold LD in *; lia). apply pow2_le.
      unfold F64.emax, LD in *. lia. }
  apply represents_finite_inv in HP; [| exact HX0b].
  destruct HP as (mP & eP & HPf & HbP & HXP).
  destruct (bounded_value _ _ _ Hprec64 Hemax64 HLD mP eP HbP) as [HLeP _].
  unfold con_of. rewrite HN, minval_eq.
  change (F64.mul ?x ?y) with (SFmul F64.prec F64.emax x y).
  rewrite HPf. unfold float_of_double, binary_normalize.
  assert (Hc : represents F32.prec F32.emax (LD + LD) s
                 (binary_round F32.prec F32.emax s mP eP)
                 (Rv F32.prec F32.emax (LD + LD) X0)).
  { rewrite HXP.
    apply (round_repr _ _ (LD + LD) Hprec32 Hemax32 ltac:(discriminate)).
    unfold LD in *. lia. }
  replace (match cond_Zopp s (Z.pos mP) with
           | 0 => S754_zero s
           | Z.pos m => binary_round F32.prec F32.emax false m eP
           | Z.neg m => binary_round F32.prec F32.emax true m eP
           end) with (binary_round F32.prec F32.emax s mP eP)
    by (destruct s; reflexivity).
  exact (represents_inj _ _ (LD + LD) Hprec32 Hemax32 ltac:(discriminate)
           s _ _ _ Hc Ha).
Qed.

(** Whatever the endpoints, raw 2090 gives the pressure +0.0, or a NaN
    when the slope is not finite. *)
Lemma pressure_at_minval (low high : float) :
  toPressure (slope_of low high) (con_of (slope_of low high)) 2090
    = S754_zero false \/
  toPressure (slope_of low high) (con_of (slope_of low high)) 2090
    = S754_nan.
Proof.
  pose proof (valid_slope low high) as Hv.
  set (slope := slope_of low high) in *. clearbody slope.
  unfold toPressure, linear.
  destruct slope as [[|] | [|] | | s ms es];
    try (left; reflexivity); try (right; reflexivity).
  unfold F32.valid in Hv. cbn [valid_binary] in Hv.
  rewrite (con_is_product s ms es Hv).
  destruct (sub_self (F32.mul (S754_finite s ms es) (float_of_int 2090)))
    as [-> | ->]; [left | right]; reflexivity.
Qed.

(** ** Sign bits *)

Lemma clamp_nonneg (v : Z) : 0 <= clamp v.
Proof.
  unfold clamp, clamp_fires. destruct (Z.ltb_spec v 0); cbn [orb]; [lia |].
  destruct (v >? 32768); lia.
Qed.

Lemma round_aux_sign (prec emax : Z) (s : bool) (m e : Z) (l : location) :
  0 <= m -> has_sign s (binary_round_aux prec emax s m e l) = true.
Proof.
  intros Hm.
  destruct (round_aux_bound prec emax e s m e l Hm (Z.le_refl e))
    as (m' & e' & Hm' & _ & _ & ->).
  destruct m' as [| p | p]; [apply eqb_reflx | | lia].
  destruct (e' <=? emax - prec); apply eqb_reflx.
Qed.

Lemma round_sign (prec emax : Z) (s : bool) (m : positive) (e : Z) :
  has_sign s (binary_round prec emax s m e) = true.
Proof.
  unfold binary_round.
  destruct (shl_align m e (fexp prec emax (Z.pos (digits2_pos m) + e)))
    as [mz ez].
  apply round_aux_sign. lia.
Qed.

Lemma float_of_int_sign (v : Z) : 0 <= v -> has_sign false (float_of_int v) = true.
Proof.
  intros Hv. unfold float_of_int, F32.of_Z, binary_normalize.
  destruct v as [| p | p]; [reflexivity | apply round_sign | lia].
Qed.

Lemma float_of_double_sign (s : bool) (x : double) :
  has_sign s x = true -> has_sign s (float_of_double x) = true.
Proof.
  destruct x as [s' | s' | | s' m e]; try (intros H; exact H).
  cbn [has_sign]. intros H. apply eqb_prop in H. subst s'.
  unfold float_of_double, binary_normalize.
  destruct s; cbn [cond_Zopp Z.opp]; apply round_sign.
Qed.

Lemma double_of_float_sign (s : bool) (x : float) :
  has_sign s x = true -> has_sign s (double_of_float x) = true.
Proof.
  destruct x as [s' | s' | | s' m e]; try (intros H; exact H).
  cbn [has_sign]. intros H. apply eqb_prop in H. subst s'.
  unfold double_of_float, binary_normalize.
  destruct s; cbn [cond_Zopp Z.opp]; apply round_sign.
Qed.

Lemma mul_sign (prec emax : Z) (sx sy : bool) (x y : spec_float) :
  has_sign sx x = true -> has_sign sy y = true ->
  has_sign (xorb sx sy) (SFmul prec emax x y) = true.
Proof.
  intros Hx Hy.
  destruct x as [s1 | s1 | | s1 m1 e1], y as [s2 | s2 | | s2 m2 e2];
    try reflexivity; cbn [has_sign] in Hx, Hy;
    apply eqb_prop in Hx; apply eqb_prop in Hy; subst s1 s2;
    try apply eqb_reflx.
  cbn [SFmul]. apply round_aux_sign. lia.
Qed.

Lemma has_sign_exists (x : spec_float) : exists s, has_sign s x = true.
Proof.
  destruct x as [s | s | | s m e]; try (exists s; apply eqb_reflx).
  exists false. reflexivity.
Qed.

(** A difference of two binary32 values of equal sign is never -0.0. *)
Lemma sub_not_negzero (s : bool) (a c : float) :
  F32.valid a = true -> F32.valid c = true ->
  has_sign s a = true -> has_sign s c = true ->
  F32.sub a c <> S754_zero true.
Proof.
  intros Hva Hvc Ha Hc.
  destruct a as [sa | sa | | sa ma ea], c as [sc | sc | | sc mc ec];
    cbn [has_sign] in Ha, Hc;
    try (apply eqb_prop in Ha; subst sa);
    try (apply eqb_prop in Hc; subst sc);
    try (destruct s; discriminate).
  unfold F32.valid in *. cbn [valid_binary] in Hva, Hvc.
  destruct (bounded32_range ma ea Hva) as (Hea & _).
  destruct (bounded32_range mc ec Hvc) as (Hec & _).
  pose proof (sub_repr _ _ _ Hprec32 Hemax32 HL2 s s ma mc ea ec
                ltac:(unfold L2; lia) ltac:(unfold L2; lia)) as Hrep.
  fold (F32.sub (S754_finite s ma ea) (S754_finite s mc ec)) in Hrep.
  set (q := F32.sub (S754_finite s ma ea) (S754_finite s mc ec)) in *.
  clearbody q.
  set (D := cond_Zopp s (Z.pos ma * 2 ^ (ea - L2))
            - cond_Zopp s (Z.pos mc * 2 ^ (ec - L2))) in *.
  intros Hq. subst q.
  destruct (Z.compare_spec D 0) as [H0 | Hneg | Hpos].
  - rewrite H0 in Hrep. apply srep_zero in Hrep. discriminate Hrep.
  - apply srep_neg in Hrep; [| exact Hneg].
    (* the difference is a non-zero multiple of 2^-149 *)
    assert (Hmult : 2 ^ (-149 - L2) <= - D).
    { assert (HA : Z.pos ma * 2 ^ (ea - L2)
                   = Z.pos ma * 2 ^ (ea + 149) * 2 ^ (-149 - L2)).
      { rewrite <- Z.mul_assoc, <- pow2_split by (unfold L2; lia).
        f_equal. f_equal. lia. }
      assert (HC : Z.pos mc * 2 ^ (ec - L2)
                   = Z.pos mc * 2 ^ (ec + 149) * 2 ^ (-149 - L2)).
      { rewrite <- Z.mul_assoc, <- pow2_split by (unfold L2; lia).
        f_equal. f_equal. lia. }
      assert (Hgen : forall A C P : Z,
                 0 < P ->
                 cond_Zopp s (A * P) - cond_Zopp s (C * P) < 0 ->
                 P <= - (cond_Zopp s (A * P) - cond_Zopp s (C * P))).
      { intros A C P HP HD. destruct s; cbn [cond_Zopp] in *.
        - assert (C - A <= -1) by nia. nia.
        - assert (A - C <= -1) by nia. nia. }
      subst D. rewrite HA, HC. apply Hgen.
      - apply pow2_pos. discriminate.
      - rewrite <- HA, <- HC. exact Hneg. }
    assert (HRv : 0 < Rv F32.prec F32.emax L2 (- D)).
    { apply Z.lt_le_trans with (1 * 2 ^ (-149 - L2)).
      - pose proof (pow2_pos (-149 - L2) ltac:(discriminate)). lia.
      - rewrite <- (Rv_exact _ _ L2 Hprec32 Hemax32 HL2 1 (-149));
          [| lia | discriminate | discriminate].
        apply (Rv_mono0 _ _ L2 Hprec32 Hemax32 HL2).
        pose proof (pow2_pos (-149 - L2) ltac:(discriminate)). lia. }
    remember (Rv F32.prec F32.emax L2 (- D)) as X eqn:EX.
    inversion Hrep; subst; lia.
  - apply srep_pos in Hrep; [| lia]. inversion Hrep.
Qed.

(** The reported pressure is a NaN or has a clear sign bit. *)
Lemma pressure_sign_clear (slope : float) (v : Z) :
  F32.valid slope = true -> 0 <= v ->
  sign_bit (toPressure slope (con_of slope) v) = false.
Proof.
  intros Hvs Hv.
  destruct (has_sign_exists slope) as [s Hs].
  pose proof (mul_sign F32.prec F32.emax s false slope (float_of_int v) Hs
                (float_of_int_sign v Hv)) as Ha.
  rewrite xorb_false_r in Ha. fold (F32.mul slope (float_of_int v)) in Ha.
  assert (Hc : has_sign s (con_of slope) = true).
  { unfold con_of. apply float_of_double_sign.
    pose proof (mul_sign F64.prec F64.emax s false (double_of_float slope)
                  minval (double_of_float_sign s slope Hs) eq_refl) as H.
    rewrite xorb_false_r in H. exact H. }
  pose proof (sub_not_negzero s _ _
                (valid_mul slope (float_of_int v) Hvs (valid_float_of_int v))
                (valid_con slope) Ha Hc) as Hnz.
  pose proof (valid_linear slope (con_of slope) v Hvs (valid_con slope)) as Hvq.
  destruct (floor0_not_negative _ Hvq) as [Hlt _].
  unfold toPressure in *. unfold linear in *.
  set (q := F32.sub (F32.mul slope (float_of_int v)) (con_of slope)) in *.
  clearbody q. unfold floor0 in *.
  destruct (F64.ltb (double_of_float q) d_zero); [reflexivity |].
  destruct q as [[|] | [|] | | [|] m e]; try reflexivity;
    try discriminate Hlt. contradiction Hnz. reflexivity.
Qed.

(* ===================================================================== *)
(** ** Runs of [main]: auxiliary lemmas *)
(* ===================================================================== *)

(** *** Runs: the rules of [runs] on [Ret], [Tau], [Vis] and [bind] *)

(** One turn of [ITree.iter]. *)
Lemma observe_iter {R I : Type} (body : I -> itree sysE (I + R)) (i : I) :
  observe (ITree.iter body i)
  = observe (ITree.bind (body i)
               (fun lr => match lr with
                          | inl l => Tau (ITree.iter body l)
                          | inr r => Ret r
                          end)).
Proof. reflexivity. Qed.

(** [runs] sees a tree through [observe] only. *)
Lemma runs_observe {R : Type} (t u : itree sysE R) (tr : list io) (r : R) :
  observe t = observe u -> runs t tr r -> runs u tr r.
Proof.
  intros E H. destruct H as [t r H | t v tr r H H' | X e t k x tr r H H'].
  - apply runs_ret. congruence.
  - apply runs_tau with v; [congruence | exact H'].
  - apply runs_vis with k; [congruence | exact H'].
Qed.

Lemma VisF_inj {R X : Type} (e e' : sysE X) (k k' : X -> itree sysE R) :
  @VisF sysE R (itree sysE R) X e k = VisF e' k' -> e = e' /\ k = k'.
Proof.
  intros H. inversion H as [[He Hk]].
  apply inj_pair2 in He. apply inj_pair2 in Hk. split; assumption.
Qed.

Lemma runs_Ret_inv {R : Type} (a r : R) (tr : list io) :
  runs (Ret a) tr r -> tr = [] /\ r = a.
Proof.
  intros H. inversion H as [t r' E | t u tr' r' E H' | X e t k x tr' r' E H'];
    subst; cbn in E; try discriminate.
  injection E as <-. split; reflexivity.
Qed.

Lemma runs_Vis_inv {R X : Type} (e : sysE X) (k : X -> itree sysE R)
    (tr : list io) (r : R) :
  runs (Vis e k) tr r ->
  exists x tr', tr = IO e x :: tr' /\ runs (k x) tr' r.
Proof.
  intros H.
  inversion H as [t r' E | t u tr' r' E H' | Y e' t k' x tr' r' E H'];
    subst; cbn in E; try discriminate.
  inversion E as [[HX He Hk]]. subst Y.
  apply inj_pair2 in He. apply inj_pair2 in Hk. subst e' k'.
  exists x, tr'. split; [reflexivity | exact H'].
Qed.

Lemma runs_Tau_inv {R : Type} (t : itree sysE R) (tr : list io) (r : R) :
  runs (Tau t) tr r -> runs t tr r.
Proof.
  intros H. inversion H as [u r' E | u v tr' r' E H' | X e u k x tr' r' E H'];
    subst; cbn in E; try discriminate.
  injection E as <-. exact H'.
Qed.

(** A run of [bind t k] is a run of [t] followed by a run of [k]. *)
Lemma runs_bind {R S : Type} (t : itree sysE R) (k : R -> itree sysE S)
    (tr1 tr2 : list io) (x : R) (r : S) :
  runs t tr1 x -> runs (k x) tr2 r -> runs (ITree.bind t k) (tr1 ++ tr2) r.
Proof.
  intros Ht Hk. induction Ht as [t x E | t u tr x E Ht IH | X e t h y tr x E Ht IH].
  - apply (runs_observe (k x)); [| exact Hk].
    rewrite observe_bind, E. reflexivity.
  - apply runs_tau with (ITree.bind u k); [| exact (IH Hk)].
    rewrite observe_bind, E. reflexivity.
  - cbn [app]. apply runs_vis with (fun z => ITree.bind (h z) k);
      [| exact (IH Hk)].
    rewrite observe_bind, E. reflexivity.
Qed.

Lemma runs_bind_inv {R S : Type} (t : itree sysE R) (k : R -> itree sysE S)
    (tr : list io) (r : S) :
  runs (ITree.bind t k) tr r ->
  exists x tr1 tr2, tr = tr1 ++ tr2 /\ runs t tr1 x /\ runs (k x) tr2 r.
Proof.
  intros H. remember (ITree.bind t k) as u eqn:Eu. revert t Eu.
  induction H as [u r E | u v tr r E H IH | X e u h y tr r E H IH];
    intros t ->; rewrite observe_bind in E;
    destruct (observe t) as [x | t' | Y e' h'] eqn:Et; cbn in E;
    try discriminate.
  - exists x, [], []. repeat split.
    + apply runs_ret. exact Et.
    + apply runs_ret. exact E.
  - exists x, [], tr. repeat split.
    + apply runs_ret. exact Et.
    + apply runs_tau with v; assumption.
  - injection E as <-.
    destruct (IH t' eq_refl) as (x & tr1 & tr2 & -> & H1 & H2).
    exists x, tr1, tr2. repeat split; [| exact H2].
    apply runs_tau with t'; assumption.
  - exists x, [], (IO e y :: tr). repeat split.
    + apply runs_ret. exact Et.
    + apply runs_vis with h; assumption.
  - inversion E as [[HX He Hh]]. subst Y.
    apply inj_pair2 in He. apply inj_pair2 in Hh. subst e' h.
    destruct (IH (h' y) eq_refl) as (x & tr1 & tr2 & -> & H1 & H2).
    exists x, (IO e y :: tr1), tr2. repeat split; [| exact H2].
    apply runs_vis with h'; assumption.
Qed.

Lemma runs_trigger {X : Type} (e : sysE X) (x : X) :
  runs (ITree.trigger e) [IO e x] x.
Proof.
  apply runs_vis with (fun y => Ret y); [reflexivity |].
  apply runs_ret. reflexivity.
Qed.

Lemma runs_trigger_inv {X : Type} (e : sysE X) (tr : list io) (r : X) :
  runs (ITree.trigger e) tr r -> tr = [IO e r].
Proof.
  intros H. apply (runs_observe _ (Vis e (fun y => Ret y))) in H;
    [| reflexivity].
  apply runs_Vis_inv in H. destruct H as (x & tr' & -> & H).
  apply runs_Ret_inv in H. destruct H as [-> ->]. reflexivity.
Qed.

(** A call followed by a continuation. *)
Lemma runs_call {X R : Type} (e : sysE X) (k : X -> itree sysE R)
    (x : X) (tr : list io) (r : R) :
  runs (k x) tr r -> runs (ITree.bind (ITree.trigger e) k) (IO e x :: tr) r.
Proof.
  intros H. apply (runs_bind (ITree.trigger e) k [IO e x] tr x r);
    [apply runs_trigger | exact H].
Qed.

Lemma runs_call_inv {X R : Type} (e : sysE X) (k : X -> itree sysE R)
    (tr : list io) (r : R) :
  runs (ITree.bind (ITree.trigger e) k) tr r ->
  exists x tr', tr = IO e x :: tr' /\ runs (k x) tr' r.
Proof.
  intros H. apply runs_bind_inv in H.
  destruct H as (x & tr1 & tr2 & -> & H1 & H2).
  apply runs_trigger_inv in H1. subst tr1.
  exists x, tr2. split; [reflexivity | exact H2].
Qed.

Lemma runs_debug (st : settings) (m : message) :
  runs (debug st m) (debug_io st m) tt.
Proof.
  unfold debug, debug_io. destruct (verbose st =? 0).
  - apply runs_ret. reflexivity.
  - apply runs_trigger.
Qed.

Lemma runs_debug_inv (st : settings) (m : message) (tr : list io) (u : unit) :
  runs (debug st m) tr u -> tr = debug_io st m.
Proof.
  unfold debug, debug_io. destruct (verbose st =? 0); intros H.
  - apply runs_Ret_inv in H. tauto.
  - apply runs_trigger_inv in H. destruct u. exact H.
Qed.

Lemma runs_die (m : message) (tr : list io) (r : Z) :
  runs (die m) tr r <-> tr = [IO (Printf m) tt] /\ r = EXIT_FAILURE.
Proof.
  unfold die. split.
  - intros H. apply runs_call_inv in H. destruct H as ([] & tr' & -> & H).
    apply runs_Ret_inv in H. destruct H as [-> ->]. split; reflexivity.
  - intros [-> ->]. apply runs_call. apply runs_ret. reflexivity.
Qed.

Lemma runs_die_perror (s : string) (tr : list io) (r : Z) :
  runs (die_perror s) tr r <-> tr = [IO (Perror s) tt] /\ r = EXIT_FAILURE.
Proof.
  unfold die_perror. split.
  - intros H. apply runs_call_inv in H. destruct H as ([] & tr' & -> & H).
    apply runs_Ret_inv in H. destruct H as [-> ->]. split; reflexivity.
  - intros [-> ->]. apply runs_call. apply runs_ret. reflexivity.
Qed.

(** *** Runs of the polling loop, of the report and of lines 111-214 *)

(** The polling loop, one turn. *)
Lemma wait_ready_unfold (fd : Z) (tr : list io) (b : bool) :
  runs (wait_ready fd) tr b <->
  exists (ans : Z * (Z * Z)) (tr' : list io),
    tr = IO (Read2 fd) ans :: tr' /\
    if negb (fst ans =? 2) then
      tr' = [IO (Perror "Read conversion") tt] /\ b = false
    else if busy (snd ans) then runs (wait_ready fd) tr' b
    else tr' = [] /\ b = true.
Proof.
  unfold wait_ready at 1. split.
  - intros H. eapply runs_observe in H; [| apply observe_iter].
    apply runs_bind_inv in H. destruct H as (x & tr1 & tr2 & -> & H1 & H2).
    apply runs_call_inv in H1. destruct H1 as (ans & tr' & -> & H1).
    exists ans, (tr' ++ tr2). split; [reflexivity |]. unfold busy.
    destruct (negb (fst ans =? 2)).
    + apply runs_call_inv in H1. destruct H1 as ([] & tr'' & -> & H1).
      apply runs_Ret_inv in H1. destruct H1 as [-> ->].
      apply runs_Ret_inv in H2. destruct H2 as [-> ->]. split; reflexivity.
    + destruct (Z.land (fst (snd ans)) 128 =? 0).
      * apply runs_Ret_inv in H1. destruct H1 as [-> ->].
        apply runs_Tau_inv in H2. exact H2.
      * apply runs_Ret_inv in H1. destruct H1 as [-> ->].
        apply runs_Ret_inv in H2. destruct H2 as [-> ->]. split; reflexivity.
  - intros (ans & tr' & -> & H).
    eapply runs_observe; [symmetry; apply observe_iter |].
    unfold busy in H.
    destruct (negb (fst ans =? 2)) eqn:E2.
    + destruct H as [-> ->].
      apply (runs_bind _ _ [IO (Read2 fd) ans; IO (Perror "Read conversion") tt]
               [] (inr false)).
      * apply runs_call. rewrite E2. apply runs_call. apply runs_ret.
        reflexivity.
      * apply runs_ret. reflexivity.
    + destruct (Z.land (fst (snd ans)) 128 =? 0) eqn:Eb.
      * apply (runs_bind _ _ [IO (Read2 fd) ans] tr' (inl tt)).
        -- apply runs_call. rewrite E2, Eb. apply runs_ret. reflexivity.
        -- eapply runs_tau; [reflexivity | exact H].
      * destruct H as [-> ->].
        apply (runs_bind _ _ [IO (Read2 fd) ans] [] (inr true)).
        -- apply runs_call. rewrite E2, Eb. apply runs_ret. reflexivity.
        -- apply runs_ret. reflexivity.
Qed.

(** The runs of the polling loop: reads that find the conversion running,
    then one that finds it complete or one that fails. *)
Lemma wait_ready_runs (fd : Z) (tr : list io) (b : bool) :
  runs (wait_ready fd) tr b <->
  exists polls tl,
    forallb busy polls = true /\ tr = List.map (poll_io fd) polls ++ tl /\
    poll_end fd b tl.
Proof.
  split.
  - revert b. induction tr as [| ev tr IH]; intros b H;
      apply wait_ready_unfold in H; destruct H as (ans & tr' & E & H);
      [discriminate |].
    injection E as -> ->.
    destruct (fst ans =? 2) eqn:E2; cbn [negb] in H.
    + destruct ans as [n p]. cbn [fst snd] in *. apply Z.eqb_eq in E2.
      subst n. destruct (busy p) eqn:Eb.
      * destruct (IH b H) as (polls & tl & Hp & -> & Ht).
        exists (p :: polls), tl. cbn [forallb List.map app].
        rewrite Eb, Hp. repeat split; assumption.
      * destruct H as [-> ->]. exists [], [poll_io fd p].
        repeat split. exists p. split; [exact Eb | reflexivity].
    + destruct H as [-> ->]. exists [], [IO (Read2 fd) ans; IO (Perror "Read conversion") tt].
      repeat split. exists ans. split; [exact E2 | reflexivity].
  - intros (polls & tl & Hp & -> & Ht).
    induction polls as [| p polls IH]; cbn [List.map app].
    + destruct b; cbn in Ht.
      * destruct Ht as (ready & Hr & ->). apply wait_ready_unfold.
        exists (2, ready), []. split; [reflexivity |]. cbn. rewrite Hr.
        split; reflexivity.
      * destruct Ht as (bad & Hb & ->). apply wait_ready_unfold.
        exists bad, [IO (Perror "Read conversion") tt].
        split; [reflexivity |]. rewrite Hb. cbn. split; reflexivity.
    + cbn [forallb] in Hp. apply andb_true_iff in Hp. destruct Hp as [Hb Hp].
      apply wait_ready_unfold.
      exists (2, p), (List.map (poll_io fd) polls ++ tl).
      split; [reflexivity |]. cbn. rewrite Hb. exact (IH Hp).
Qed.

(** The report makes its calls in order and returns [nagiosexit]. *)
Lemma runs_report (st : settings) (fd : Z) (r : reading) (tr : list io) (x : Z) :
  runs (report st fd r) tr x <->
  tr = report_io st fd r /\ x = nagiosexit (status r).
Proof.
  unfold report, report_io. fold (verdict_message st r). split.
  - intros H. apply runs_bind_inv in H.
    destruct H as ([] & tr1 & tr2 & -> & H1 & H2).
    apply runs_debug_inv in H1. subst tr1.
    apply runs_call_inv in H2. destruct H2 as ([] & tr' & -> & H2).
    apply runs_call_inv in H2. destruct H2 as ([] & tr'' & -> & H2).
    apply runs_Ret_inv in H2. destruct H2 as [-> ->]. split; reflexivity.
  - intros [-> ->]. eapply runs_bind; [apply runs_debug |].
    apply runs_call. apply runs_call. apply runs_ret. reflexivity.
Qed.

Ltac bools :=
  repeat match goal with
    | H : _ && _ = true |- _ => apply andb_true_iff in H; destruct H
    | H : negb _ = true |- _ => apply negb_true_iff in H
    end.

Ltac step :=
  apply runs_call;
  repeat match goal with
    | H : ?c = false |- context [?c] => rewrite H
    | H : ?c = true |- context [?c] => rewrite H
    end;
  cbn [fst snd Z.eqb Pos.eqb negb].

(** The terminating runs of lines 111-214 are exactly the seven outcomes. *)
Lemma acquire_runs (st : settings) (tr : list io) (r : Z) :
  runs (acquire st) tr r <->
  exists o, possible o = true /\ tr = trace_of st o /\ r = exit_of st o.
Proof.
  unfold acquire. cbv zeta. split.
  - intros H.
    apply runs_bind_inv in H. destruct H as ([] & d1 & tr1 & -> & D1 & H).
    apply runs_debug_inv in D1. subst d1.
    apply runs_bind_inv in H. destruct H as ([] & d2 & tr2 & -> & D2 & H).
    apply runs_debug_inv in D2. subst d2.
    apply runs_call_inv in H. destruct H as (fd & tr3 & -> & H).
    destruct (fd <? 0) eqn:Efd.
    { apply runs_die in H. destruct H as [-> ->].
      exists (OpenFailed fd). cbn. unfold upto_open.
      rewrite <- !app_assoc. repeat split. exact Efd. }
    apply runs_call_inv in H. destruct H as (rc & tr4 & -> & H).
    destruct (rc <? 0) eqn:Erc.
    { apply runs_die in H. destruct H as [-> ->].
      exists (AddressFailed fd rc). cbn. unfold upto_address, upto_open.
      rewrite Efd, Erc. rewrite <- !app_assoc. repeat split. }
    apply runs_call_inv in H. destruct H as (n & tr5 & -> & H).
    destruct (n =? 3) eqn:En; cbn [negb] in H.
    2:{ apply runs_die_perror in H. destruct H as [-> ->].
        exists (ConfigFailed fd rc n). cbn.
        unfold upto_config, upto_address, upto_open.
        rewrite Efd, Erc, En. rewrite <- !app_assoc. repeat split. }
    apply Z.eqb_eq in En. subst n.
    apply runs_bind_inv in H. destruct H as (b & tr6 & tr7 & -> & W & H).
    apply wait_ready_runs in W. destruct W as (polls & tl & Hp & -> & Ht).
    destruct b; cbn [negb] in H; cbn in Ht.
    2:{ apply runs_Ret_inv in H. destruct H as [-> ->].
        destruct Ht as (bad & Hb & ->).
        exists (PollFailed fd rc polls bad). cbn.
        unfold upto_polls, upto_config, upto_address, upto_open.
        rewrite Efd, Erc, Hp, Hb. rewrite <- !app_assoc. cbn [app].
        repeat split. }
    destruct Ht as (ready & Hr & ->).
    apply runs_call_inv in H. destruct H as (n & tr8 & -> & H).
    destruct (n =? 1) eqn:En; cbn [negb] in H.
    2:{ apply runs_die_perror in H. destruct H as [-> ->].
        exists (SelectFailed fd rc polls ready n). cbn.
        unfold upto_polls, upto_config, upto_address, upto_open.
        rewrite Efd, Erc, Hp, Hr, En. rewrite <- !app_assoc. cbn [app].
        repeat split. }
    apply Z.eqb_eq in En. subst n.
    apply runs_call_inv in H. destruct H as (ans & tr9 & -> & H).
    destruct (fst ans =? 2) eqn:Ea; cbn [negb] in H.
    2:{ apply runs_die_perror in H. destruct H as [-> ->].
        exists (SampleFailed fd rc polls ready ans). cbn.
        unfold upto_polls, upto_config, upto_address, upto_open.
        rewrite Efd, Erc, Hp, Hr, Ea. rewrite <- !app_assoc. cbn [app].
        repeat split. }
    apply runs_report in H. destruct H as [-> ->].
    assert (E : ans = (2, snd ans)).
    { destruct ans as [n p]. cbn in *. apply Z.eqb_eq in Ea. congruence. }
    exists (Completed fd rc polls ready (snd ans)). cbn.
    unfold upto_polls, upto_config, upto_address, upto_open, poll_io.
    rewrite Efd, Erc, Hp, Hr, <- E. rewrite <- !app_assoc. cbn [app].
    repeat split.
  - intros (o & Ho & -> & ->).
    assert (Hw : forall fd polls ready,
               forallb busy polls = true -> busy ready = false ->
               runs (wait_ready fd)
                 (List.map (poll_io fd) polls ++ [poll_io fd ready]) true).
    { intros fd polls ready Hp Hr. apply wait_ready_runs.
      exists polls, [poll_io fd ready]. repeat split; [assumption |].
      exists ready. split; [assumption | reflexivity]. }
    assert (Hb : forall (k : bool -> itree sysE Z) fd tr tr1 tr2 b r,
               tr = tr1 ++ tr2 -> runs (wait_ready fd) tr1 b ->
               runs (k b) tr2 r -> runs (ITree.bind (wait_ready fd) k) tr r).
    { intros k fd tr tr1 tr2 b r -> H1 H2. eapply runs_bind; eassumption. }
    destruct o; cbn in Ho; bools; cbn [trace_of exit_of];
      unfold upto_polls, upto_config, upto_address, upto_open;
      rewrite <- ?app_assoc;
      (eapply runs_bind; [apply runs_debug |]);
      (eapply runs_bind; [apply runs_debug |]);
      cbn [app]; step.
    + apply runs_die. split; reflexivity.
    + step. apply runs_die. split; reflexivity.
    + do 2 step. apply runs_die_perror. split; reflexivity.
    + do 2 step.
      match goal with |- runs _ ?t _ => rewrite <- (app_nil_r t) end.
      eapply (runs_bind _ _ _ _ false).
      * apply wait_ready_runs.
        exists polls, [IO (Read2 fd) bad; IO (Perror "Read conversion") tt].
        split; [assumption |]. split; [reflexivity |]. exists bad.
        split; [assumption | reflexivity].
      * cbn. apply runs_ret. reflexivity.
    + do 2 step. eapply (Hb _ _ _ (List.map (poll_io fd) polls ++ [poll_io fd ready]));
        [rewrite <- app_assoc; reflexivity | |].
      * apply Hw; assumption.
      * cbn [negb]. step. apply runs_die_perror. split; reflexivity.
    + do 2 step. eapply (Hb _ _ _ (List.map (poll_io fd) polls ++ [poll_io fd ready]));
        [rewrite <- app_assoc; reflexivity | |].
      * apply Hw; assumption.
      * cbn [negb]. do 2 step. apply runs_die_perror. split; reflexivity.
    + do 2 step. eapply (Hb _ _ _ (List.map (poll_io fd) polls ++ [poll_io fd ready]));
        [rewrite <- app_assoc; reflexivity | |].
      * apply Hw; assumption.
      * cbn [negb]. step. unfold poll_io. step.
        apply runs_report. split; reflexivity.
Qed.

(** The runs of [main]: a rejected command line prints one line; an
    accepted one goes through lines 111-214. *)
Lemma main_runs (opts : list cli_opt) (tr : list io) (r : Z) :
  runs (main opts) tr r <->
  match parse_options opts with
  | None => tr = [IO (Printf Usage) tt] /\ r = EXIT_FAILURE
  | Some st =>
      if input_out_of_range st then
        tr = [IO (Printf ErrInput) tt] /\ r = EXIT_FAILURE
      else if thresholds_missing st then
        tr = [IO (Printf ErrThresholds) tt] /\ r = EXIT_FAILURE
      else exists o, possible o = true /\ tr = trace_of st o /\ r = exit_of st o
  end.
Proof.
  unfold main. destruct (parse_options opts) as [st |].
  - destruct (input_out_of_range st); [apply runs_die |].
    destruct (thresholds_missing st); [apply runs_die |].
    apply acquire_runs.
  - apply runs_die.
Qed.

Lemma demo_parse : parse_options demo_opts = Some demo_settings.
Proof. reflexivity. Qed.

Lemma demo_run :
  runs (main demo_opts) (trace_of demo_settings demo_outcome) 2.
Proof.
  apply main_runs. rewrite demo_parse.
  change (input_out_of_range demo_settings) with false.
  change (thresholds_missing demo_settings) with false. cbv iota.
  exists demo_outcome. split; [reflexivity |]. split; reflexivity.
Qed.

(** *** Projections of the traces *)

Lemma flat_map_polls {A : Type} (f : io -> list A) (fd : Z)
    (polls : list (Z * Z)) :
  (forall p, f (poll_io fd p) = f (poll_io fd (0, 0))) ->
  flat_map f (List.map (poll_io fd) polls)
  = flat_map (fun _ => f (poll_io fd (0, 0))) polls.
Proof.
  intros H. induction polls as [| p polls IH]; [reflexivity |].
  cbn [List.map flat_map]. rewrite H, IH. reflexivity.
Qed.

Lemma flat_map_nil {A B : Type} (l : list A) :
  flat_map (fun _ => @nil B) l = [].
Proof. induction l; [reflexivity | assumption]. Qed.

Lemma exit_of_cases (st : settings) (o : outcome) :
  exit_of st o = 0 \/ exit_of st o = EXIT_FAILURE \/ exit_of st o = 2.
Proof.
  destruct o; cbn [exit_of]; try (right; left; reflexivity).
  match goal with |- context [status ?r] => destruct (status r) end;
    cbn; auto.
Qed.

Ltac project :=
  unfold upto_polls, upto_config, upto_address, upto_open, report_io,
    debug_io;
  repeat rewrite ?flat_map_app, ?flat_map_polls by reflexivity;
  repeat match goal with
    | |- context [verbose ?st =? 0] => destruct (verbose st =? 0)
    end;
  cbn; rewrite ?flat_map_nil; cbn.

Lemma closed_trace (st : settings) (o : outcome) :
  closed (trace_of st o)
  = match o with Completed fd _ _ _ _ => [fd] | _ => [] end.
Proof. unfold closed. destruct o; cbn [trace_of]; project; reflexivity. Qed.

Lemma opened_trace (st : settings) (o : outcome) :
  opened (trace_of st o)
  = match o with
    | OpenFailed fd | AddressFailed fd _ | ConfigFailed fd _ _
    | PollFailed fd _ _ _ | SelectFailed fd _ _ _ _
    | SampleFailed fd _ _ _ _ | Completed fd _ _ _ _ => [fd]
    end.
Proof. unfold opened. destruct o; cbn [trace_of]; project; reflexivity. Qed.

Lemma announced_trace (st : settings) (o : outcome) :
  announced (trace_of st o)
  = match o with Completed _ _ _ _ _ => [exit_of st o] | _ => [] end.
Proof.
  unfold announced.
  destruct o; cbn [trace_of exit_of]; [project; reflexivity .. |].
  unfold report_io, verdict_message.
  set (rd := evaluate st (fst sample) (snd sample)).
  destruct (status rd); project; reflexivity.
Qed.

Lemma written_trace (st : settings) (o : outcome) :
  written (trace_of st o)
  = match o with
    | OpenFailed _ | AddressFailed _ _ => []
    | ConfigFailed _ _ _ | PollFailed _ _ _ _ => [writeBuf (input st)]
    | _ => [writeBuf (input st); [0]]
    end.
Proof. unfold written. destruct o; cbn [trace_of]; project; reflexivity. Qed.

Lemma exit_failure_not_verdict (st : settings) (r : reading) :
  nagiosexit (status r) <> EXIT_FAILURE.
Proof. destruct (status r); discriminate. Qed.

(** Every descriptor used is the one [open] answered. *)
Lemma used_trace (st : settings) (o : outcome) (x : Z) :
  In x (used (trace_of st o)) ->
  match o with
  | OpenFailed _ => False
  | AddressFailed fd _ | ConfigFailed fd _ _ | PollFailed fd _ _ _
  | SelectFailed fd _ _ _ _ | SampleFailed fd _ _ _ _
  | Completed fd _ _ _ _ => x = fd
  end.
Proof.
  unfold used, trace_of, upto_polls, upto_config, upto_address, upto_open,
    report_io, debug_io.
  destruct o; destruct (verbose st =? 0);
    rewrite ?flat_map_app, ?in_app_iff, ?in_flat_map; cbn;
    intros H;
    repeat match goal with
      | H : _ \/ _ |- _ => destruct H
      | H : exists _, _ |- _ => destruct H
      | H : _ /\ _ |- _ => destruct H
      | H : In _ (List.map _ _) |- _ => apply in_map_iff in H
      | H : False |- _ => destruct H
      end; subst; cbn in *;
    repeat match goal with
      | H : _ \/ _ |- _ => destruct H
      | H : False |- _ => destruct H
      end; auto.
Qed.

(** *** Settings that differ in [verbose] only *)

Lemma same_refl (a : settings) : same_but_verbose a a.
Proof. repeat split. Qed.

Lemma same_sym (a b : settings) : same_but_verbose a b -> same_but_verbose b a.
Proof. unfold same_but_verbose. intuition congruence. Qed.

Lemma apply_opt_same (a b : settings) (o : cli_opt) :
  same_but_verbose a b ->
  match apply_opt a o, apply_opt b o with
  | Some a', Some b' => same_but_verbose a' b'
  | None, None => True
  | _, _ => False
  end.
Proof.
  intros (Hi & Ha & Hd & Hm & HM & Hl & Hh).
  destruct o; cbn; unfold same_but_verbose; cbn; auto 10.
Qed.

Lemma parse_from_same (opts : list cli_opt) (a b : settings) :
  same_but_verbose a b ->
  match parse_from a opts, parse_from b opts with
  | Some a', Some b' => same_but_verbose a' b'
  | None, None => True
  | _, _ => False
  end.
Proof.
  revert a b. induction opts as [| o opts IH]; intros a b H; [exact H |].
  cbn [parse_from]. pose proof (apply_opt_same a b o H) as Ho.
  destruct (apply_opt a o) as [a' |], (apply_opt b o) as [b' |];
    try contradiction; [apply IH; exact Ho | exact I].
Qed.

Lemma parse_skip_v (pre post : list cli_opt) :
  match parse_options (pre ++ post), parse_options (pre ++ Opt_v :: post) with
  | Some a, Some b => same_but_verbose a b
  | None, None => True
  | _, _ => False
  end.
Proof.
  unfold parse_options. rewrite !parse_from_app.
  destruct (parse_from defaults pre) as [st |]; [| exact I].
  cbn [parse_from apply_opt]. apply parse_from_same. repeat split.
Qed.

Lemma evaluate_same (a b : settings) (b0 b1 : Z) :
  same_but_verbose a b -> evaluate a b0 b1 = evaluate b b0 b1.
Proof.
  intros (Hi & Ha & Hd & Hm & HM & Hl & Hh). unfold evaluate.
  rewrite Hm, HM, Hl, Hh. reflexivity.
Qed.

Lemma quiet_debug (st : settings) (m : message) :
  is_debug (IO (Printf m) tt) = true -> quiet (debug_io st m) = [].
Proof.
  intros H. unfold debug_io, quiet. destruct (verbose st =? 0); cbn;
    [reflexivity |]. cbn in H. rewrite H. reflexivity.
Qed.

Lemma quiet_app (a b : list io) : quiet (a ++ b) = quiet a ++ quiet b.
Proof. apply filter_app. Qed.

Lemma verdict_not_debug (st : settings) (r : reading) :
  is_debug (IO (Printf (verdict_message st r)) tt) = false.
Proof. unfold verdict_message. destruct (status r); reflexivity. Qed.

(** Apart from the [DEBUG] lines, the trace and the exit status of an
    outcome do not depend on [verbose]. *)
Lemma trace_same (a b : settings) (o : outcome) :
  same_but_verbose a b ->
  quiet (trace_of a o) = quiet (trace_of b o) /\ exit_of a o = exit_of b o.
Proof.
  intros H. pose proof (evaluate_same a b) as He.
  destruct H as (Hi & Ha & Hd & Hm & HM & Hl & Hh).
  assert (Hv : forall r, verdict_message a r = verdict_message b r).
  { intros r. unfold verdict_message. rewrite Ha, Hd, Hm, HM. reflexivity. }
  destruct o; cbn [trace_of exit_of];
    unfold upto_polls, upto_config, upto_address, upto_open, report_io;
    rewrite ?He by (repeat split; assumption);
    rewrite ?quiet_app, ?quiet_debug by reflexivity;
    rewrite ?Hv, ?Hi, ?Ha, ?Hd; split; reflexivity.
Qed.

Lemma checks_same (a b : settings) :
  same_but_verbose a b ->
  input_out_of_range a = input_out_of_range b /\
  thresholds_missing a = thresholds_missing b.
Proof.
  intros (Hi & Ha & Hd & Hm & HM & Hl & Hh).
  unfold input_out_of_range, thresholds_missing.
  rewrite Hi, Hm, HM. split; reflexivity.
Qed.

Lemma runs_same (a b : option settings) (q : list io) (r : Z) :
  match a, b with
  | Some a, Some b => same_but_verbose a b
  | None, None => True
  | _, _ => False
  end ->
  (exists tr,
     match a with
     | None => tr = [IO (Printf Usage) tt] /\ r = EXIT_FAILURE
     | Some st =>
         if input_out_of_range st then
           tr = [IO (Printf ErrInput) tt] /\ r = EXIT_FAILURE
         else if thresholds_missing st then
           tr = [IO (Printf ErrThresholds) tt] /\ r = EXIT_FAILURE
         else exists o,
             possible o = true /\ tr = trace_of st o /\ r = exit_of st o
     end /\ quiet tr = q) ->
  exists tr,
     match b with
     | None => tr = [IO (Printf Usage) tt] /\ r = EXIT_FAILURE
     | Some st =>
         if input_out_of_range st then
           tr = [IO (Printf ErrInput) tt] /\ r = EXIT_FAILURE
         else if thresholds_missing st then
           tr = [IO (Printf ErrThresholds) tt] /\ r = EXIT_FAILURE
         else exists o,
             possible o = true /\ tr = trace_of st o /\ r = exit_of st o
     end /\ quiet tr = q.
Proof.
  destruct a as [a |], b as [b |]; try contradiction; [| intros _ H; exact H].
  intros Hs (tr & H & Hq). destruct (checks_same a b Hs) as [<- <-].
  destruct (input_out_of_range a); [exists tr; split; assumption |].
  destruct (thresholds_missing a); [exists tr; split; assumption |].
  destruct H as (o & Ho & -> & ->).
  destruct (trace_same a b o Hs) as [Eq Ee].
  exists (trace_of b o). split; [| congruence].
  exists o. repeat split; assumption.
Qed.

(** *** The option loop as one fold per variable *)

(** The loop from any state: each variable is the value of the last
    option that assigns it. *)
Lemma parse_from_fields (opts : list cli_opt) (st : settings) :
  parse_from st opts =
  if existsb is_other opts then None
  else Some (mkSettings
               (last_of sets_verbose (verbose st) opts)
               (last_of sets_input (input st) opts)
               (last_of sets_address (ads_address st) opts)
               (last_of sets_device (i2cdevice st) opts)
               (last_of sets_min (minpressure st) opts)
               (last_of sets_max (maxpressure st) opts)
               (last_of sets_low (low st) opts)
               (last_of sets_high (high st) opts)).
Proof.
  revert st. induction opts as [| o opts IH]; intros st.
  - destruct st; reflexivity.
  - cbn [parse_from existsb]. destruct o; cbn [apply_opt is_other orb];
      try reflexivity; rewrite IH; reflexivity.
Qed.

Lemma substring_all (s : string) (n : nat) :
  (String.length s <= n)%nat -> substring 0 n s = s.
Proof.
  revert n. induction s as [| c s IH]; intros n H.
  - destruct n; reflexivity.
  - destruct n; cbn in H; [lia |]. cbn. rewrite IH by lia. reflexivity.
Qed.

Lemma last_of_none {A : Type} (sel : cli_opt -> option A) (d : A)
    (opts : list cli_opt) :
  (forall o, In o opts -> sel o = None) -> last_of sel d opts = d.
Proof.
  unfold last_of. revert d. induction opts as [| o opts IH]; intros d H;
    [reflexivity |].
  cbn [fold_left]. rewrite (H o (or_introl eq_refl)).
  apply IH. intros o' Ho'. apply H. right. exact Ho'.
Qed.

(** *** Order of floats, the sample, the voltage and the coefficients *)

(** [<] and [<=] on floats compose. *)
Lemma ltb_leb_trans (x y z : spec_float) :
  SFltb x y = true -> SFleb y z = true -> SFltb x z = true.
Proof.
  intros H1 H2. apply SFltb_rank in H1. apply SFleb_rank in H2.
  destruct H1 as (a & b & Ha & Hb & Hab).
  destruct H2 as (b' & c & Hb' & Hc & Hbc).
  rewrite Hb in Hb'. injection Hb' as <-.
  apply SFltb_rank. exists a, c. repeat split; try assumption.
  destruct Hbc as [<- | Hbc]; [exact Hab | exact (lex_lt_trans _ _ _ Hab Hbc)].
Qed.

Lemma leb_ltb_trans (x y z : spec_float) :
  SFleb x y = true -> SFltb y z = true -> SFltb x z = true.
Proof.
  intros H1 H2. apply SFleb_rank in H1. apply SFltb_rank in H2.
  destruct H1 as (a & b & Ha & Hb & Hab).
  destruct H2 as (b' & c & Hb' & Hc & Hbc).
  rewrite Hb in Hb'. injection Hb' as <-.
  apply SFltb_rank. exists a, c. repeat split; try assumption.
  destruct Hab as [-> | Hab]; [exact Hbc | exact (lex_lt_trans _ _ _ Hab Hbc)].
Qed.

Lemma classify_Ok (p mn mx : float) :
  classify p mn mx = Ok <-> F32.ltb p mn = false /\ F32.ltb mx p = false.
Proof.
  unfold classify. destruct (F32.ltb p mn), (F32.ltb mx p);
    split; intros H; try discriminate; try (destruct H; discriminate);
    auto.
Qed.

(** The value kept after the clamp. *)
Lemma val_range (st : settings) (b0 b1 : Z) :
  is_uint8 b0 -> is_uint8 b1 -> 0 <= val (evaluate st b0 b1) <= 32767.
Proof.
  intros H0 H1. cbn [evaluate val]. unfold clamp, clamp_fires.
  rewrite compose_cases by assumption. unfold is_uint8 in *.
  destruct (Z.ltb_spec b0 128).
  - destruct (Z.ltb_spec (b0 * 256 + b1) 0); [lia |].
    destruct (Z.gtb_spec (b0 * 256 + b1) 32768); [lia |]. cbn. lia.
  - destruct (Z.ltb_spec (b0 * 256 + b1 - 65536) 0); [cbn; lia | lia].
Qed.

Lemma VPS_eq : VPS = S754_finite false 9929738 (-34).
Proof. reflexivity. Qed.

Lemma Rv_pow2_bound (X k : Z) :
  0 <= X <= 2 ^ k -> 298 - 149 + 23 <= k < 426 ->
  Rv F32.prec F32.emax L2 X <= 2 ^ k.
Proof.
  intros HX Hk.
  pose proof (Rv_mono0 _ _ _ Hprec32 Hemax32 HL2 X (2 ^ k) HX) as H.
  assert (E : 2 ^ k = Zpos (2 ^ 23) * 2 ^ (k - 321 - L2)).
  { change (Zpos (2 ^ 23)) with (2 ^ 23). unfold L2.
    rewrite <- Z.pow_add_r by lia. f_equal. lia. }
  rewrite E in H. rewrite Rv_self32 in H.
  - rewrite <- E in H. exact H.
  - apply bounded_spec. rewrite fexp_spec.
    change (Zdigits2 (Zpos (2 ^ 23))) with 24.
    change (emin F32.prec F32.emax) with (-149).
    unfold F32.prec, F32.emax. lia.
Qed.

(** [val * VPS] is the rounding of the exact product and stays finite. *)
Lemma toVoltage_repr (v : Z) :
  0 <= v <= 32767 ->
  represents F32.prec F32.emax L2 false (toVoltage v)
    (Rv F32.prec F32.emax L2 (v * 2 ^ 149 * sval L1 VPS)) /\
  Rv F32.prec F32.emax L2 (v * 2 ^ 149 * sval L1 VPS) < 2 ^ (F32.emax - L2).
Proof.
  intros Hv. destruct (float_of_int_value v Hv) as (Hn & Hval & Hs).
  pose proof (mul_value (float_of_int v) VPS Hval Hn eq_refl eq_refl) as H.
  rewrite Hs in H. split; [exact H |].
  assert (E : sval L1 VPS = 9929738 * 2 ^ 115) by reflexivity.
  rewrite E.
  assert (Hb : v * 2 ^ 149 * (9929738 * 2 ^ 115) <= 2 ^ 303).
  { change (2 ^ 303) with (2 ^ 15 * 2 ^ 149 * (2 ^ 24 * 2 ^ 115)).
    pose proof (pow2_pos 149 ltac:(lia)). pose proof (pow2_pos 115 ltac:(lia)).
    apply Z.mul_le_mono_nonneg; nia. }
  pose proof (Rv_pow2_bound (v * 2 ^ 149 * (9929738 * 2 ^ 115)) 303) as Hr.
  assert (0 <= v * 2 ^ 149 * (9929738 * 2 ^ 115)).
  { pose proof (pow2_pos 149 ltac:(lia)). pose proof (pow2_pos 115 ltac:(lia)).
    nia. }
  specialize (Hr ltac:(lia) ltac:(lia)).
  eapply Z.le_lt_trans; [exact Hr |].
  apply Z.pow_lt_mono_r; unfold F32.emax, L2; lia.
Qed.

Lemma toVoltage_finite (v : Z) :
  0 <= v <= 32767 -> is_nonneg_finite (toVoltage v) = true.
Proof.
  intros Hv. destruct (toVoltage_repr v Hv) as [Hr Hb].
  exact (proj1 (represents_bounded_inv _ _ _ _ _ Hr Hb)).
Qed.

(** [con], computed in [double] and stored in a [float], is the [float]
    product [slope * 2090]. *)
Lemma con_of_mul (slope : float) :
  F32.valid slope = true ->
  con_of slope = F32.mul slope (float_of_int 2090).
Proof.
  intros Hv. destruct slope as [[|] | [|] | | s m e]; try reflexivity.
  apply con_is_product. exact Hv.
Qed.

(** Finite coefficients from endpoints with a finite positive span. *)
Lemma coeffs_finite (low high : float) :
  F32.valid low = true -> F32.valid high = true ->
  F32.ltb low high = true ->
  is_finite (F32.sub high low) = true ->
  is_nonneg_finite (slope_of low high) = true /\
  is_finite (con_of (slope_of low high)) = true.
Proof.
  intros Hvl Hvh Hlt Hfin.
  pose proof (span_nonneg low high Hvl Hvh Hlt Hfin) as Hspan.
  pose proof (valid_sub high low Hvh Hvl) as Hvspan.
  destruct (slope_finite (F32.sub high low) Hvspan Hspan) as [Hs Hbound].
  fold (slope_of low high) in Hs, Hbound.
  split; [exact Hs |].
  exact (con_finite (slope_of low high) (valid_slope low high) Hs Hbound).
Qed.

Lemma leb_nan_r (x : spec_float) : SFleb x S754_nan = false.
Proof. destruct x as [[|] | [|] | | [|] m e]; reflexivity. Qed.

Lemma zero_between (p : float) :
  F32.leb p (S754_zero false) = true ->
  F32.ltb p (S754_zero false) = false ->
  sign_bit p = false -> p = S754_zero false.
Proof.
  destruct p as [[|] | [|] | | [|] m e]; cbn; intros H1 H2 H3;
    try discriminate; reflexivity.
Qed.

Lemma represents_finite_bound (f : float) (X : Z) :
  represents F32.prec F32.emax L2 false f X -> is_finite f = true ->
  X < 2 ^ (F32.emax - L2).
Proof.
  intros H Hf. destruct H as [| m e Hb | X HX].
  - apply pow2_pos. discriminate.
  - apply (bounded_value _ _ _ Hprec32 Hemax32 HL2 m e Hb).
  - discriminate.
Qed.

(** An endpoint that is not finite gives a slope that is not finite. *)
Lemma slope_of_non_finite (low high : float) :
  is_finite low = false \/ is_finite high = false ->
  slope_of low high = S754_nan \/
  exists s, slope_of low high = S754_infinity s.
Proof.
  intros H.
  assert (E : F32.sub high low = S754_nan \/
              exists s, F32.sub high low = S754_infinity s).
  { destruct H as [H | H].
    - destruct low as [[|] | [|] | | sl ml el]; try discriminate H;
        destruct high as [[|] | [|] | | sh mh eh]; cbn; eauto.
    - destruct high as [[|] | [|] | | sh mh eh]; try discriminate H;
        destruct low as [[|] | [|] | | sl ml el]; cbn; eauto. }
  unfold slope_of. destruct E as [-> | [s ->]]; [left; reflexivity |].
  right. exists s. destruct s; reflexivity.
Qed.

(** ** The configuration write *)

(** C3.  For each channel 1 to 4 the three bytes written are the register
    pointer 1 followed by the two config bytes: the high byte is
    0b11000001, 0b11010001, 0b11100001, 0b11110001 for channels 1, 2, 3, 4
    and the low byte is 0b10000101; bits 14-12 of the 16-bit word hold the
    channel code 0b100 + (channel - 1), which increases strictly with the
    channel. *)
Theorem config_bytes_per_channel (ch ch' : Z) :
  1 <= ch <= 4 -> 1 <= ch' <= 4 ->
  writeBuf ch =
    [1;
     nth (Z.to_nat (ch - 1))
       [bin "11000001"; bin "11010001"; bin "11100001"; bin "11110001"] 0;
     bin "10000101"] /\
  config_word ch = Z.lor (Z.shiftl 1 15)
                     (Z.lor (Z.shiftl (mux_code (config_word ch)) 12) 0x185) /\
  mux_code (config_word ch) = bin "100" + (ch - 1) /\
  (ch < ch' -> mux_code (config_word ch) < mux_code (config_word ch')).
Proof.
  intros Hch Hch'.
  assert (Ec : ch = 1 \/ ch = 2 \/ ch = 3 \/ ch = 4) by lia.
  assert (Ec' : ch' = 1 \/ ch' = 2 \/ ch' = 3 \/ ch' = 4) by lia.
  destruct Ec as [-> | [-> | [-> | ->]]];
    (split; [reflexivity |]; split; [reflexivity |]; split; [reflexivity |]);
    destruct Ec' as [-> | [-> | [-> | ->]]]; intros Hlt;
    try (exfalso; lia); vm_compute; reflexivity.
Qed.

Lemma config_bytes_per_channel_witness :
  writeBuf 2 = [1; 0xD1; 0x85] /\
  mux_code (config_word 2) < mux_code (config_word 3).
Proof.
  pose proof (config_bytes_per_channel 2 3 ltac:(lia) ltac:(lia))
    as (Hw & _ & _ & Hlt).
  split; [exact Hw | apply Hlt; lia].
Defined.

(** ** The raw sample and the clamp *)

(** C8.  The two result bytes form a signed 16-bit value, so the sample
    always lies in [-32768, 32767]; the test [val > 32768] is never true,
    and the clamp fires exactly when bit 7 of the first byte is set.  The
    wire value 40000 (bytes 0x9C, 0x40) arrives as -25536 and is clamped
    to 0 by the [val < 0] test. *)
Theorem sample_is_int16 (b0 b1 : Z) :
  is_uint8 b0 -> is_uint8 b1 ->
  -32768 <= compose b0 b1 <= 32767 /\
  (compose b0 b1 >? 32768) = false /\
  clamp_fires (compose b0 b1) = Z.testbit b0 7 /\
  clamp_fires (compose b0 b1) = (compose b0 b1 <? 0) /\
  0x9C * 256 + 0x40 = 40000 /\
  compose 0x9C 0x40 = -25536 /\
  (compose 0x9C 0x40 <? 0) = true /\
  clamp (compose 0x9C 0x40) = 0.
Proof.
  intros H0 H1.
  pose proof (to_int16_range (Z.lor (Z.shiftl b0 8) b1)) as Hr.
  fold (compose b0 b1) in Hr.
  assert (Hgt : (compose b0 b1 >? 32768) = false).
  { rewrite Z.gtb_ltb. apply Z.ltb_ge. lia. }
  assert (Hf : clamp_fires (compose b0 b1) = (compose b0 b1 <? 0)).
  { unfold clamp_fires. rewrite Hgt. apply orb_false_r. }
  repeat split; try reflexivity; try lia; try assumption.
  rewrite Hf, (testbit_7_uint8 b0 H0), (compose_cases b0 b1 H0 H1).
  destruct H0, H1.
  destruct (Z.ltb_spec b0 128); cbn [negb]; [apply Z.ltb_ge | apply Z.ltb_lt];
    lia.
Qed.

Lemma sample_is_int16_witness :
  clamp_fires (compose 0x9C 0x40) = Z.testbit 0x9C 7.
Proof.
  apply (sample_is_int16 0x9C 0x40); unfold is_uint8; lia.
Defined.

(** C2.  When the sample read from the converter is negative or exceeds
    32768 it is replaced by 0 before it is used: the value reported, the
    voltage and the pressure are those of a sample 0, and that pressure is
    [slope * 0 - con] floored to 0.0 when it is below zero. *)
Theorem out_of_range_sample_is_zero (st : settings) (b0 b1 : Z) :
  compose b0 b1 < 0 \/ compose b0 b1 > 32768 ->
  let slope := slope_of (low st) (high st) in
  let con := con_of slope in
  val (evaluate st b0 b1) = 0 /\
  voltage (evaluate st b0 b1) = toVoltage 0 /\
  pressure (evaluate st b0 b1) = toPressure slope con 0 /\
  (F64.ltb (double_of_float (linear slope con 0)) d_zero = true ->
   pressure (evaluate st b0 b1) = S754_zero false).
Proof.
  intros Hout slope con.
  assert (Hc : clamp (compose b0 b1) = 0).
  { unfold clamp, clamp_fires.
    destruct Hout as [Hneg | Hbig].
    - apply Z.ltb_lt in Hneg. rewrite Hneg. reflexivity.
    - apply Z.gt_lt, Z.ltb_lt in Hbig. rewrite Z.gtb_ltb, Hbig.
      rewrite orb_true_r. reflexivity. }
  unfold evaluate. cbn [val voltage pressure]. rewrite Hc.
  repeat split.
  intros Hneg. fold slope. fold con. unfold toPressure, floor0.
  rewrite Hneg. reflexivity.
Qed.

Lemma out_of_range_sample_is_zero_witness :
  val (evaluate defaults 0x9C 0x40) = 0 /\
  pressure (evaluate defaults 0x9C 0x40) = S754_zero false.
Proof.
  pose proof (out_of_range_sample_is_zero defaults 0x9C 0x40) as H.
  cbv zeta in H.
  destruct H as (Hv & _ & _ & Hp); [left; vm_compute; reflexivity |].
  split; [exact Hv | apply Hp; vm_compute; reflexivity].
Defined.

(** ** The verdict *)

Lemma eq_bound_not_outside (p mn mx : float) :
  F32.leb mn mx = true ->
  F32.eqb p mn = true \/ F32.eqb p mx = true ->
  F32.ltb p mn = false /\ F32.ltb mx p = false.
Proof.
  unfold F32.leb, F32.eqb, F32.ltb. intros Hle Heq.
  apply SFleb_rank in Hle. destruct Hle as (a & b & Ha & Hb & Hab).
  assert (Hp : exists c, rank p = Some c /\ (c = a \/ c = b)).
  { destruct Heq as [Heq | Heq]; apply SFeqb_rank in Heq;
      destruct Heq as (c & Hc1 & Hc2); exists c; split; try assumption;
      [left | right]; congruence. }
  destruct Hp as (c & Hc & Hcab).
  split.
  - destruct (SFltb p mn) eqn:E; [| reflexivity].
    apply SFltb_rank in E. destruct E as (c' & a' & Hc' & Ha' & Hlt).
    assert (c' = c) by congruence. assert (a' = a) by congruence. subst.
    exfalso. destruct Hcab as [-> | ->].
    + exact (lex_lt_irrefl _ Hlt).
    + destruct Hab as [-> | Hab]; [exact (lex_lt_irrefl _ Hlt) |].
      exact (lex_lt_irrefl _ (lex_lt_trans _ _ _ Hab Hlt)).
  - destruct (SFltb mx p) eqn:E; [| reflexivity].
    apply SFltb_rank in E. destruct E as (b' & c' & Hb' & Hc' & Hlt).
    assert (c' = c) by congruence. assert (b' = b) by congruence. subst.
    exfalso. destruct Hcab as [-> | ->].
    + destruct Hab as [-> | Hab]; [exact (lex_lt_irrefl _ Hlt) |].
      exact (lex_lt_irrefl _ (lex_lt_trans _ _ _ Hab Hlt)).
    + exact (lex_lt_irrefl _ Hlt).
Qed.

(** C4, as stated, fails for inverted bounds: a reading equal to
    [minpressure] = 5 with [maxpressure] = 3 is over the maximum and is
    reported CRITICAL. *)
Lemma equal_to_bound_counterexample :
  F32.eqb (F32.of_Z 5) (F32.of_Z 5) = true /\
  classify (F32.of_Z 5) (F32.of_Z 5) (F32.of_Z 3) = CriticalOver.
Proof. split; reflexivity. Qed.

(** C4 (amended).  For every reading and every pair of bounds the verdict
    is CRITICAL if the reading is below [minpressure], CRITICAL if it is
    above [maxpressure], and OK otherwise; when [minpressure <=
    maxpressure], a reading equal to either bound is OK. *)
Theorem verdict_classification (p mn mx : float) :
  (F32.ltb p mn = true -> classify p mn mx = CriticalBelow) /\
  (F32.ltb mx p = true -> is_critical (classify p mn mx) = true) /\
  (F32.ltb p mn = false -> F32.ltb mx p = false -> classify p mn mx = Ok) /\
  (F32.leb mn mx = true ->
   F32.eqb p mn = true \/ F32.eqb p mx = true -> classify p mn mx = Ok).
Proof.
  unfold classify. repeat split.
  - intros ->. reflexivity.
  - intros ->. destruct (F32.ltb p mn); reflexivity.
  - intros -> ->. reflexivity.
  - intros Hle Heq.
    destruct (eq_bound_not_outside p mn mx Hle Heq) as [-> ->]. reflexivity.
Qed.

Lemma verdict_classification_witness :
  classify (F32.of_Z 1) (F32.of_Z 2) (F32.of_Z 8) = CriticalBelow /\
  is_critical (classify (F32.of_Z 9) (F32.of_Z 2) (F32.of_Z 8)) = true /\
  classify (F32.of_Z 5) (F32.of_Z 2) (F32.of_Z 8) = Ok /\
  classify (F32.of_Z 8) (F32.of_Z 2) (F32.of_Z 8) = Ok.
Proof.
  split; [| split; [| split]].
  - apply (proj1 (verdict_classification _ _ _)). reflexivity.
  - apply (proj1 (proj2 (verdict_classification _ _ _))). reflexivity.
  - apply (proj1 (proj2 (proj2 (verdict_classification _ _ _))));
      reflexivity.
  - apply (proj2 (proj2 (proj2 (verdict_classification _ _ _))));
      [reflexivity | right; reflexivity].
Defined.

(** C10, as stated, fails when the pressure is not a number: with
    [-l -3e38 -h 3e38] the difference [high - low] overflows, the slope is
    infinite and every pressure is NaN, which compares false with both
    bounds and is reported OK although [minpressure] = 5 is above
    [maxpressure] = 3. *)
Lemma inverted_bounds_counterexample :
  exists st,
    parse_options
      [Opt_l (F64.of_Z (-3 * 10 ^ 38)); Opt_h (F64.of_Z (3 * 10 ^ 38));
       Opt_m (F64.of_Z 5); Opt_M (F64.of_Z 3)] = Some st /\
    F32.ltb (maxpressure st) (minpressure st) = true /\
    pressure (evaluate st 0x18 0xD8) = S754_nan /\
    status (evaluate st 0x18 0xD8) = Ok.
Proof.
  eexists. split; [reflexivity |]. vm_compute. repeat split.
Qed.

(** C10 (amended).  When [minpressure > maxpressure], every pressure that
    is a number is classified CRITICAL, and a pressure violating both
    bounds gets the below-minimum verdict, whose comparison comes first;
    a NaN pressure is classified OK. *)
Theorem inverted_bounds_always_critical (p mn mx : float) :
  F32.ltb mx mn = true ->
  (is_nan p = false -> is_critical (classify p mn mx) = true) /\
  (F32.ltb p mn = true -> F32.ltb mx p = true ->
   classify p mn mx = CriticalBelow) /\
  classify S754_nan mn mx = Ok.
Proof.
  unfold classify, F32.ltb. intros Hinv. split; [| split].
  - intros Hp.
    destruct (SFltb p mn) eqn:E1; [reflexivity |].
    destruct (SFltb mx p) eqn:E2; [reflexivity |]. exfalso.
    apply SFltb_rank in Hinv. destruct Hinv as (b & a & Hb & Ha & Hlt).
    destruct (rank_not_nan p Hp) as (c & Hc).
    pose proof (SFltb_false_rank _ _ _ _ Hc Ha E1) as H1.
    pose proof (SFltb_false_rank _ _ _ _ Hb Hc E2) as H2.
    destruct H1 as [-> | H1], H2 as [-> | H2].
    + exact (lex_lt_irrefl _ Hlt).
    + exact (lex_lt_irrefl _ (lex_lt_trans _ _ _ Hlt H2)).
    + exact (lex_lt_irrefl _ (lex_lt_trans _ _ _ Hlt H1)).
    + exact (lex_lt_irrefl _
               (lex_lt_trans _ _ _ Hlt (lex_lt_trans _ _ _ H1 H2))).
  - intros -> _. reflexivity.
  - destruct mn, mx; reflexivity.
Qed.

Lemma inverted_bounds_always_critical_witness :
  is_critical (classify (F32.of_Z 4) (F32.of_Z 5) (F32.of_Z 3)) = true /\
  classify (F32.of_Z 4) (F32.of_Z 5) (F32.of_Z 3) = CriticalBelow.
Proof.
  destruct (inverted_bounds_always_critical
              (F32.of_Z 4) (F32.of_Z 5) (F32.of_Z 3)) as (Hc & Hb & _);
    [reflexivity |].
  split; [apply Hc; reflexivity | apply Hb; reflexivity].
Defined.

(** ** Argument checks *)

(** C6.  When the command line parses and the requested channel is
    outside 1..4, the whole program is: print the input error, exit with
    [EXIT_FAILURE].  No device is opened and nothing is written or read.
    In particular this is what happens for a command line that ends in
    [-i n] with [n] outside 1..4. *)
Theorem channel_out_of_range_rejected
    (opts : list cli_opt) (st : settings) (n : Z) :
  parse_options opts = Some st ->
  (input st < 1 \/ input st > 4 ->
   main opts ≅ (ITree.trigger (Printf ErrInput);; Ret EXIT_FAILURE)) /\
  (n < 1 \/ n > 4 ->
   main (opts ++ [Opt_i n])
     ≅ (ITree.trigger (Printf ErrInput);; Ret EXIT_FAILURE)).
Proof.
  intros Hp.
  assert (Ho : forall k, k < 1 \/ k > 4 -> (k <? 1) || (k >? 4) = true).
  { intros k [Hk | Hk].
    - apply Z.ltb_lt in Hk. rewrite Hk. reflexivity.
    - apply Z.gt_lt, Z.ltb_lt in Hk. rewrite Z.gtb_ltb, Hk.
      apply orb_true_r. }
  split; intros Hr; unfold main.
  - rewrite Hp. unfold input_out_of_range. rewrite (Ho _ Hr). reflexivity.
  - unfold parse_options in *. rewrite parse_from_app, Hp.
    cbn [parse_from apply_opt]. unfold input_out_of_range. cbn [input].
    rewrite (Ho _ Hr). reflexivity.
Qed.

Lemma channel_out_of_range_rejected_witness :
  main [Opt_i 0] ≅ (ITree.trigger (Printf ErrInput);; Ret EXIT_FAILURE) /\
  main ([Opt_m (F64.of_Z 2); Opt_M (F64.of_Z 8)] ++ [Opt_i 5])
    ≅ (ITree.trigger (Printf ErrInput);; Ret EXIT_FAILURE).
Proof.
  split.
  - apply (proj1 (channel_out_of_range_rejected [Opt_i 0] _ 0 eq_refl)).
    left. vm_compute. reflexivity.
  - apply (proj2 (channel_out_of_range_rejected
                    [Opt_m (F64.of_Z 2); Opt_M (F64.of_Z 8)] _ 5 eq_refl)).
    right. lia.
Defined.

(** C9, as stated, fails for a value other than -1.0 that rounds to it:
    [-m -1.00000001] is read by [atof] as a double different from -1.0,
    the assignment to the [float] variable rounds it to -1.0, and the
    run is rejected as if [-m] were missing. *)
Lemma rounded_sentinel_counterexample :
  F64.valid (double_literal (-100000001) 8) = true /\
  F64.eqb (double_literal (-100000001) 8) d_minus_one = false /\
  main [Opt_m (double_literal (-100000001) 8); Opt_M (F64.of_Z 8)]
    ≅ (ITree.trigger (Printf ErrThresholds);; Ret EXIT_FAILURE).
Proof.
  split; [reflexivity |]. split; [reflexivity |].
  unfold main.
  change (parse_options
            [Opt_m (double_literal (-100000001) 8); Opt_M (F64.of_Z 8)])
    with (Some (mkSettings 0 1 0x48 "/dev/i2c-1"
                  (S754_finite true 8388608 (-23))
                  (S754_finite false 8388608 (-20))
                  (S754_zero false) (S754_finite false 10485760 (-20)))).
  reflexivity.
Qed.

(** C9 (amended).  The missing-threshold check uses -1.0 as an in-band
    sentinel on the single-precision variables.  When the command line
    parses and the channel is in range: if either threshold variable holds
    -1.0 the run is rejected with the "must be present" error, and
    otherwise (other negative values included) it goes on to the
    acquisition.  An explicit [-m] (or [-M]) whose value converts to the
    single-precision -1.0, with no [-m] (or [-M]) before it, leaves the
    program exactly as if that option had been omitted. *)
Theorem sentinel_threshold (opts : list cli_opt) (st : settings) :
  parse_options opts = Some st ->
  input_out_of_range st = false ->
  (minpressure st = float_of_double d_minus_one \/
   maxpressure st = float_of_double d_minus_one ->
   main opts ≅ (ITree.trigger (Printf ErrThresholds);; Ret EXIT_FAILURE)) /\
  (minpressure st <> float_of_double d_minus_one ->
   maxpressure st <> float_of_double d_minus_one ->
   main opts ≅ acquire st) /\
  (forall (d : double) (pre rest : list cli_opt),
     float_of_double d = float_of_double d_minus_one ->
     (forallb (fun o => negb (is_opt_m o)) pre = true ->
      main (pre ++ Opt_m d :: rest) = main (pre ++ rest)) /\
     (forallb (fun o => negb (is_opt_M o)) pre = true ->
      main (pre ++ Opt_M d :: rest) = main (pre ++ rest))).
Proof.
  intros Hp Hr.
  destruct (parse_from_valid opts defaults st Hp eq_refl eq_refl)
    as [Hvmin Hvmax].
  pose proof (is_sentinel_iff _ Hvmin) as Hmin.
  pose proof (is_sentinel_iff _ Hvmax) as Hmax.
  split; [| split].
  - intros Hs. unfold main. rewrite Hp, Hr.
    assert (Ht : thresholds_missing st = true).
    { unfold thresholds_missing. apply orb_true_iff.
      destruct Hs as [Hs | Hs]; [left; apply Hmin | right; apply Hmax];
        exact Hs. }
    rewrite Ht. reflexivity.
  - intros Hnmin Hnmax. unfold main. rewrite Hp, Hr.
    assert (Ht : thresholds_missing st = false).
    { unfold thresholds_missing. apply orb_false_iff. split.
      - destruct (is_sentinel (minpressure st)); [| reflexivity].
        exfalso. apply Hnmin, Hmin. reflexivity.
      - destruct (is_sentinel (maxpressure st)); [| reflexivity].
        exfalso. apply Hnmax, Hmax. reflexivity. }
    rewrite Ht. reflexivity.
  - intros d pre rest Hd. split; intros Hno; unfold main.
    + rewrite (parse_skip_sentinel_m pre rest d Hno Hd). reflexivity.
    + rewrite (parse_skip_sentinel_M pre rest d Hno Hd). reflexivity.
Qed.

Lemma sentinel_threshold_witness :
  main [Opt_m d_minus_one; Opt_M (F64.of_Z 8)]
    ≅ (ITree.trigger (Printf ErrThresholds);; Ret EXIT_FAILURE) /\
  main [Opt_m (F64.of_Z (-2)); Opt_M (F64.of_Z 8)]
    ≅ acquire (mkSettings 0 1 0x48 "/dev/i2c-1"
                 (S754_finite true 8388608 (-22))
                 (S754_finite false 8388608 (-20))
                 (S754_zero false) (S754_finite false 10485760 (-20))).
Proof.
  split.
  - apply (proj1 (sentinel_threshold
                    [Opt_m d_minus_one; Opt_M (F64.of_Z 8)] _ eq_refl eq_refl)).
    left. reflexivity.
  - apply (proj1 (proj2 (sentinel_threshold
                           [Opt_m (F64.of_Z (-2)); Opt_M (F64.of_Z 8)]
                           _ eq_refl eq_refl))).
    + intros H. vm_compute in H. discriminate H.
    + intros H. vm_compute in H. discriminate H.
Defined.

(** ** The pressure transform *)

(** C5.  For every raw sample and every pair of calibration endpoints the
    pressure assigned at lines 191-193 is never below zero: it is the
    linear value, replaced by 0.0 when that value is negative.  The
    pressure reported for a sample never even carries a sign bit (no
    -0.0). *)
Theorem pressure_never_negative
    (st : settings) (b0 b1 : Z) (low high : float) (raw : Z) :
  let slope := slope_of low high in
  let con := con_of slope in
  F32.ltb (toPressure slope con raw) (S754_zero false) = false /\
  F64.ltb (double_of_float (toPressure slope con raw)) d_zero = false /\
  toPressure slope con raw =
    (if F64.ltb (double_of_float (linear slope con raw)) d_zero
     then S754_zero false else linear slope con raw) /\
  F32.ltb (pressure (evaluate st b0 b1)) (S754_zero false) = false /\
  sign_bit (pressure (evaluate st b0 b1)) = false.
Proof.
  intros slope con.
  assert (Hv : forall lo hi v,
             F32.valid (linear (slope_of lo hi) (con_of (slope_of lo hi)) v)
             = true).
  { intros lo hi v. apply valid_linear; [apply valid_slope | apply valid_con]. }
  split; [| split; [| split; [| split]]].
  - apply floor0_not_negative. apply Hv.
  - apply floor0_not_negative. apply Hv.
  - reflexivity.
  - unfold evaluate. cbn [pressure]. apply floor0_not_negative. apply Hv.
  - unfold evaluate. cbn [pressure].
    apply pressure_sign_clear; [apply valid_slope | apply clamp_nonneg].
Qed.

(** C1, evaluated on the code.  Whatever the endpoints, the raw constant
    2090 gives the pressure 0.0 (a NaN when the slope is not finite), not
    [low].  With the default endpoints (low 0, high 10) the raw constants
    2090 and 10630 give 0.0 and 10.0; with [-l 1 -h 10] they give 0.0 and
    9.0, not 1.0 and 10.0: the transform [slope * val - slope * 2090]
    never adds [low]. *)
Theorem endpoints_at_raw_constants :
  (forall low high : float,
     toPressure (slope_of low high) (con_of (slope_of low high)) 2090
       = S754_zero false \/
     toPressure (slope_of low high) (con_of (slope_of low high)) 2090
       = S754_nan) /\
  compose 0x08 0x2A = 2090 /\ compose 0x29 0x86 = 10630 /\
  pressure (evaluate defaults 0x08 0x2A) = low defaults /\
  pressure (evaluate defaults 0x29 0x86) = high defaults /\
  exists st,
    parse_options [Opt_l (F64.of_Z 1); Opt_h (F64.of_Z 10);
                   Opt_m (F64.of_Z 2); Opt_M (F64.of_Z 8)] = Some st /\
    low st = F32.of_Z 1 /\ high st = F32.of_Z 10 /\
    pressure (evaluate st 0x08 0x2A) = S754_zero false /\
    pressure (evaluate st 0x29 0x86) = F32.of_Z 9.
Proof.
  split; [exact pressure_at_minval |].
  repeat split. eexists. split; [reflexivity |]. vm_compute. repeat split.
Qed.

(** C7, as stated, fails when [high - low] overflows: with low = -3e38
    and high = 3e38 the slope is infinite, the pressures of raw 0 and raw
    1 are both NaN, and NaN is not below or equal to NaN. *)
Lemma overflowing_span_counterexample :
  F32.valid (float_of_double (F64.of_Z (-3 * 10 ^ 38))) = true /\
  F32.valid (float_of_double (F64.of_Z (3 * 10 ^ 38))) = true /\
  F32.ltb (float_of_double (F64.of_Z (-3 * 10 ^ 38)))
          (float_of_double (F64.of_Z (3 * 10 ^ 38))) = true /\
  slope_of (float_of_double (F64.of_Z (-3 * 10 ^ 38)))
           (float_of_double (F64.of_Z (3 * 10 ^ 38))) = S754_infinity false /\
  F32.leb
    (toPressure
       (slope_of (float_of_double (F64.of_Z (-3 * 10 ^ 38)))
                 (float_of_double (F64.of_Z (3 * 10 ^ 38))))
       (con_of (slope_of (float_of_double (F64.of_Z (-3 * 10 ^ 38)))
                         (float_of_double (F64.of_Z (3 * 10 ^ 38))))) 0)
    (toPressure
       (slope_of (float_of_double (F64.of_Z (-3 * 10 ^ 38)))
                 (float_of_double (F64.of_Z (3 * 10 ^ 38))))
       (con_of (slope_of (float_of_double (F64.of_Z (-3 * 10 ^ 38)))
                         (float_of_double (F64.of_Z (3 * 10 ^ 38))))) 1)
  = false.
Proof. vm_compute. repeat split. Qed.

(** C7 (amended).  For coefficients derived from binary32 endpoints with
    [high > low] whose difference [high - low] is finite (does not
    overflow), the slope is zero or positive, slope and intercept are
    finite, and the pressure is monotonically non-decreasing in the raw
    sample over the range 0..32767 that the clamp leaves. *)
Theorem pressure_monotone (low high : float) (raw1 raw2 : Z) :
  F32.valid low = true -> F32.valid high = true ->
  F32.ltb low high = true ->
  is_finite (F32.sub high low) = true ->
  0 <= raw1 <= raw2 -> raw2 <= 32767 ->
  is_nonneg_finite (slope_of low high) = true /\
  is_finite (con_of (slope_of low high)) = true /\
  F32.leb (toPressure (slope_of low high) (con_of (slope_of low high)) raw1)
          (toPressure (slope_of low high) (con_of (slope_of low high)) raw2)
  = true.
Proof.
  intros Hvl Hvh Hlt Hfin Hr Hr2.
  pose proof (span_nonneg low high Hvl Hvh Hlt Hfin) as Hspan.
  pose proof (valid_sub high low Hvh Hvl) as Hvspan.
  destruct (slope_finite (F32.sub high low) Hvspan Hspan) as [Hs Hbound].
  fold (slope_of low high) in Hs, Hbound.
  pose proof (valid_slope low high) as Hvs.
  pose proof (con_finite (slope_of low high) Hvs Hs Hbound) as Hc.
  split; [exact Hs |]. split; [exact Hc |].
  apply toPressure_mono_coeffs; try assumption. apply valid_con.
Qed.

Lemma pressure_monotone_witness :
  F32.leb
    (toPressure (slope_of (low defaults) (high defaults))
       (con_of (slope_of (low defaults) (high defaults))) 6360)
    (toPressure (slope_of (low defaults) (high defaults))
       (con_of (slope_of (low defaults) (high defaults))) 10630)
  = true.
Proof.
  apply (pressure_monotone (low defaults) (high defaults) 6360 10630);
    [reflexivity | reflexivity | reflexivity | reflexivity | lia | lia].
Defined.

(* ===================================================================== *)
(** ** Further properties of the program *)
(* ===================================================================== *)

(** *** The command line *)

(** X1.  The option loop assigns each variable independently.  If an
    option reaches the [default] case the program prints the usage text
    and exits; otherwise every variable holds the value of the last option
    that assigns it, or its default when there is none.  [-a] and [-A]
    assign the same variable, [ads_address]. *)
Theorem options_set_fields (opts : list cli_opt) :
  parse_options opts =
  if existsb is_other opts then None
  else Some (mkSettings
               (last_of sets_verbose 0 opts)
               (last_of sets_input 1 opts)
               (last_of sets_address 0x48 opts)
               (last_of sets_device "/dev/i2c-1"%string opts)
               (last_of sets_min (float_of_double d_minus_one) opts)
               (last_of sets_max (float_of_double d_minus_one) opts)
               (last_of sets_low (float_of_double d_zero) opts)
               (last_of sets_high (float_of_double d_ten) opts)).
Proof. unfold parse_options. rewrite parse_from_fields. reflexivity. Qed.

(** X2.  A device path shorter than [BUFSIZE - 1] = 255 characters, given
    by the last [-d] option, is stored unchanged in [i2cdevice]. *)
Theorem short_device_path_kept
    (pre post : list cli_opt) (s : string) (st : settings) :
  (String.length s < Z.to_nat BUFSIZE - 1)%nat ->
  forallb (fun o => negb (is_opt_d o)) post = true ->
  parse_options (pre ++ Opt_d s :: post) = Some st ->
  i2cdevice st = s.
Proof.
  intros Hlen Hpost. unfold parse_options. rewrite parse_from_app.
  destruct (parse_from defaults pre) as [st0 |]; [| discriminate].
  cbn [parse_from apply_opt]. rewrite parse_from_fields.
  destruct (existsb is_other post); [discriminate |].
  intros E. injection E as <-. cbn [i2cdevice].
  rewrite last_of_none.
  - unfold strncpy. apply substring_all.
    change (Z.to_nat (BUFSIZE - 1)) with 255%nat.
    change (Z.to_nat BUFSIZE - 1)%nat with 255%nat in Hlen. lia.
  - intros o Ho. rewrite forallb_forall in Hpost. specialize (Hpost o Ho).
    destruct o; try reflexivity. discriminate.
Qed.

Lemma short_device_path_kept_witness :
  i2cdevice (mkSettings 0 1 0x48 "/dev/i2c-0"
               (float_of_double d_minus_one) (float_of_double d_minus_one)
               (float_of_double d_zero) (float_of_double d_ten))
  = "/dev/i2c-0"%string.
Proof.
  apply (short_device_path_kept [] [] "/dev/i2c-0");
    [cbn; lia | reflexivity | reflexivity].
Defined.



(** *** The runs of the program *)

(** X4.  For an accepted command line the terminating runs of [main] are
    exactly the seven outcomes: [open] fails; [ioctl] fails; the config
    write does not return 3; a read of the polling loop does not return 2;
    the pointer write does not return 1; the final read does not return
    2; or the run completes.  Each makes the calls of [trace_of], in this
    order, and exits with [exit_of]: [EXIT_FAILURE], or on completion the
    status of the verdict computed from the two bytes of the final read. *)
Theorem accepted_command_line (opts : list cli_opt) (st : settings)
    (tr : list io) (r : Z) :
  parse_options opts = Some st ->
  input_out_of_range st = false ->
  thresholds_missing st = false ->
  runs (main opts) tr r <->
  exists o, possible o = true /\ tr = trace_of st o /\ r = exit_of st o.
Proof.
  intros Hp Hi Ht. rewrite main_runs, Hp, Hi, Ht. reflexivity.
Qed.

Lemma accepted_command_line_witness :
  runs (main demo_opts) (trace_of demo_settings demo_outcome) 2.
Proof.
  apply (proj2 (accepted_command_line demo_opts demo_settings
                  (trace_of demo_settings demo_outcome) 2
                  eq_refl eq_refl eq_refl)).
  exists demo_outcome. split; [reflexivity |]. split; reflexivity.
Defined.

(** X5.  Every terminating run of [main], on any command line and with any
    answers of the system calls, exits with status 0, [EXIT_FAILURE] or
    2. *)
Theorem exit_status_is_0_1_2 (opts : list cli_opt) (tr : list io) (r : Z) :
  runs (main opts) tr r -> r = 0 \/ r = EXIT_FAILURE \/ r = 2.
Proof.
  intros H. apply main_runs in H.
  destruct (parse_options opts) as [st |]; [| right; left; tauto].
  destruct (input_out_of_range st); [right; left; tauto |].
  destruct (thresholds_missing st); [right; left; tauto |].
  destruct H as (o & _ & _ & ->). apply exit_of_cases.
Qed.

Lemma exit_status_is_0_1_2_witness : 2 = 0 \/ 2 = EXIT_FAILURE \/ 2 = 2.
Proof. exact (exit_status_is_0_1_2 _ _ _ demo_run). Defined.

(** X6.  In every terminating run [open] is called at most once; every
    descriptor passed to [ioctl], [write], [read] or [close] is the one
    [open] answered, and it is not negative; a run that exits with
    [EXIT_FAILURE] never calls [close], and a run that exits with 0 or 2
    closes exactly the descriptor it opened. *)
Theorem descriptor_discipline (opts : list cli_opt) (tr : list io) (r : Z) :
  runs (main opts) tr r ->
  (List.length (opened tr) <= 1)%nat /\
  (forall fd, In fd (used tr) -> opened tr = [fd] /\ 0 <= fd) /\
  (r = EXIT_FAILURE -> closed tr = []) /\
  (r <> EXIT_FAILURE -> closed tr = opened tr /\ List.length (opened tr) = 1%nat).
Proof.
  intros H. apply main_runs in H.
  destruct (parse_options opts) as [st |];
    [destruct (input_out_of_range st);
     [| destruct (thresholds_missing st)] |];
    try (destruct H as [-> ->]; cbn;
         repeat split; auto; try contradiction; lia).
  destruct H as (o & Ho & -> & ->).
  rewrite opened_trace, closed_trace. split; [destruct o; cbn; lia |].
  split.
  - intros fd Hin. apply used_trace in Hin.
    destruct o; cbn in Ho; bools; try contradiction; subst; split;
      try reflexivity; lia.
  - destruct o; cbn [exit_of]; split; intros E; try reflexivity;
      try (exfalso; apply E; reflexivity).
    + exfalso. revert E. apply exit_failure_not_verdict. exact st.
    + split; reflexivity.
Qed.

Lemma descriptor_discipline_witness :
  closed (trace_of demo_settings demo_outcome)
  = opened (trace_of demo_settings demo_outcome).
Proof.
  apply (descriptor_discipline _ _ _ demo_run). discriminate.
Defined.

(** X7.  The buffers [main] writes are, in order, a prefix of: the three
    config bytes for the chosen input, then the single byte 0 that selects
    the conversion register.  A run that exits with 0 or 2 wrote both.
    When anything is written the input is in 1..4, so the last [else] of
    lines 136-144 is taken for input 4 only. *)
Theorem register_writes (opts : list cli_opt) (st : settings)
    (tr : list io) (r : Z) :
  parse_options opts = Some st ->
  runs (main opts) tr r ->
  (written tr = [] \/ written tr = [writeBuf (input st)] \/
   written tr = [writeBuf (input st); [0]]) /\
  (r <> EXIT_FAILURE -> written tr = [writeBuf (input st); [0]]) /\
  (written tr <> [] -> 1 <= input st <= 4).
Proof.
  intros Hp H. apply main_runs in H. rewrite Hp in H.
  unfold input_out_of_range in H.
  destruct (input st <? 1) eqn:E1; cbn [orb] in H;
    [destruct H as [-> ->]; cbn; repeat split; auto; congruence |].
  destruct (input st >? 4) eqn:E4;
    [destruct H as [-> ->]; cbn; repeat split; auto; congruence |].
  assert (Hin : 1 <= input st <= 4) by lia.
  destruct (thresholds_missing st);
    [destruct H as [-> ->]; cbn; repeat split; auto; congruence |].
  destruct H as (o & Ho & -> & ->). rewrite written_trace.
  destruct o; cbn [exit_of]; repeat split; auto; try lia; intros E;
    exfalso; apply E; reflexivity.
Qed.

Lemma register_writes_witness :
  written (trace_of demo_settings demo_outcome) = [writeBuf 1; [0]].
Proof.
  apply (register_writes demo_opts demo_settings _ 2 demo_parse demo_run).
  discriminate.
Defined.

(** X8.  The exit status agrees with the line printed: a run that exits
    with 0 printed exactly one verdict line, the OK line; a run that exits
    with 2 printed exactly one, a CRITICAL line; a run that exits with
    [EXIT_FAILURE] printed none. *)
Theorem exit_status_matches_line (opts : list cli_opt) (tr : list io) (r : Z) :
  runs (main opts) tr r ->
  announced tr = if r =? EXIT_FAILURE then [] else [r].
Proof.
  intros H. apply main_runs in H.
  destruct (parse_options opts) as [st |];
    [destruct (input_out_of_range st);
     [| destruct (thresholds_missing st)] |];
    try (destruct H as [-> ->]; reflexivity).
  destruct H as (o & Ho & -> & ->). rewrite announced_trace.
  destruct o; try reflexivity. cbn [exit_of].
  destruct (status _); reflexivity.
Qed.

Lemma exit_status_matches_line_witness :
  announced (trace_of demo_settings demo_outcome) = [2].
Proof. exact (exit_status_matches_line _ _ _ demo_run). Defined.

(** X9.  Adding [-v] anywhere on the command line changes nothing but the
    [DEBUG] lines: with those removed, the runs of [main] with and without
    the option are the same, calls, answers and exit status. *)
Theorem verbose_only_adds_debug_lines
    (pre post : list cli_opt) (q : list io) (r : Z) :
  (exists tr, runs (main (pre ++ post)) tr r /\ quiet tr = q) <->
  (exists tr, runs (main (pre ++ Opt_v :: post)) tr r /\ quiet tr = q).
Proof.
  pose proof (parse_skip_v pre post) as Hs.
  split; intros (tr & H & Hq); apply main_runs in H.
  - destruct (runs_same _ _ q r Hs) as (tr' & H' & Hq').
    { exists tr. split; assumption. }
    exists tr'. split; [apply main_runs; exact H' | exact Hq'].
  - assert (Hs' : match parse_options (pre ++ Opt_v :: post),
                        parse_options (pre ++ post) with
                  | Some a, Some b => same_but_verbose a b
                  | None, None => True
                  | _, _ => False
                  end).
    { destruct (parse_options (pre ++ post)),
        (parse_options (pre ++ Opt_v :: post)); try contradiction;
        [apply same_sym; exact Hs | exact I]. }
    destruct (runs_same _ _ q r Hs') as (tr' & H' & Hq').
    { exists tr. split; assumption. }
    exists tr'. split; [apply main_runs; exact H' | exact Hq'].
Qed.

Lemma verbose_only_adds_debug_lines_witness :
  exists tr,
    runs (main ([] ++ Opt_v :: demo_opts)) tr 2 /\
    quiet tr = quiet (trace_of demo_settings demo_outcome).
Proof.
  apply (proj1 (verbose_only_adds_debug_lines [] demo_opts
                  (quiet (trace_of demo_settings demo_outcome)) 2)).
  exists (trace_of demo_settings demo_outcome).
  split; [exact demo_run | reflexivity].
Defined.

(** *** The sample *)

(** X10.  [val = readBuf[0] << 8 | readBuf[1]] decodes big-endian two's
    complement: every 16-bit signed value is recovered from its high and
    low byte, and two byte pairs that give the same [val] are equal. *)
Theorem compose_decodes_twos_complement :
  (forall v, -32768 <= v <= 32767 ->
     is_uint8 (v mod 65536 / 256) /\ is_uint8 (v mod 256) /\
     compose (v mod 65536 / 256) (v mod 256) = v) /\
  (forall b0 b1 c0 c1,
     is_uint8 b0 -> is_uint8 b1 -> is_uint8 c0 -> is_uint8 c1 ->
     compose b0 b1 = compose c0 c1 -> b0 = c0 /\ b1 = c1).
Proof.
  split.
  - intros v Hv.
    assert (H0 : is_uint8 (v mod 65536 / 256)).
    { unfold is_uint8. pose proof (Z.mod_pos_bound v 65536 ltac:(lia)).
      split; [apply Z.div_pos; lia | apply Z.div_lt_upper_bound; lia]. }
    assert (H1 : is_uint8 (v mod 256)).
    { unfold is_uint8. apply Z.mod_pos_bound. lia. }
    split; [exact H0 |]. split; [exact H1 |].
    rewrite compose_cases by assumption.
    assert (E : v mod 65536 = v mod 65536 / 256 * 256 + v mod 256).
    { replace (v mod 256) with ((v mod 65536) mod 256).
      - rewrite Z.mul_comm. apply Z.div_mod. lia.
      - apply Z.mod_mod_divide. exists 256. reflexivity. }
    destruct (Z.ltb_spec (v mod 65536 / 256) 128) as [Hlt | Hge].
    + rewrite <- E.
      destruct (Z.le_gt_cases 0 v); [apply Z.mod_small; lia |].
      exfalso. replace v with (v + 65536 + (-1) * 65536) in Hlt by lia.
      rewrite Z.mod_add in Hlt by lia. rewrite Z.mod_small in Hlt by lia.
      assert (128 <= (v + 65536) / 256) by (apply Z.div_le_lower_bound; lia).
      lia.
    + rewrite <- E.
      destruct (Z.le_gt_cases 0 v).
      * exfalso. rewrite Z.mod_small in Hge by lia.
        assert (v / 256 < 128) by (apply Z.div_lt_upper_bound; lia). lia.
      * replace v with (v + 65536 + (-1) * 65536) at 1 by lia.
        rewrite Z.mod_add by lia. rewrite Z.mod_small by lia. lia.
  - intros b0 b1 c0 c1 Hb0 Hb1 Hc0 Hc1.
    rewrite !compose_cases by assumption. unfold is_uint8 in *.
    destruct (Z.ltb_spec b0 128), (Z.ltb_spec c0 128); lia.
Qed.

Lemma compose_decodes_twos_complement_witness :
  compose (-25536 mod 65536 / 256) (-25536 mod 256) = -25536 /\
  (0x9C = 0x9C /\ 0x40 = 0x40).
Proof.
  split.
  - apply (proj1 compose_decodes_twos_complement (-25536)). lia.
  - apply (proj2 compose_decodes_twos_complement 0x9C 0x40 0x9C 0x40);
      [unfold is_uint8; lia | unfold is_uint8; lia | unfold is_uint8; lia
      | unfold is_uint8; lia | reflexivity].
Defined.

(** X11.  For two bytes the value kept after the clamp is
    [b0 * 256 + b1] when [b0 < 128] and 0 otherwise; it lies in
    0..32767. *)
Theorem reading_value (st : settings) (b0 b1 : Z) :
  is_uint8 b0 -> is_uint8 b1 ->
  val (evaluate st b0 b1) = (if b0 <? 128 then b0 * 256 + b1 else 0) /\
  0 <= val (evaluate st b0 b1) <= 32767.
Proof.
  intros H0 H1. cbn [evaluate val]. unfold clamp, clamp_fires.
  rewrite compose_cases by assumption. unfold is_uint8 in *.
  destruct (Z.ltb_spec b0 128).
  - destruct (Z.ltb_spec (b0 * 256 + b1) 0); [lia |].
    destruct (Z.gtb_spec (b0 * 256 + b1) 32768); [lia |]. cbn. lia.
  - destruct (Z.ltb_spec (b0 * 256 + b1 - 65536) 0); [cbn; lia | lia].
Qed.

Lemma reading_value_witness :
  val (evaluate demo_settings 0x29 0x86) = 10630.
Proof.
  apply (reading_value demo_settings 0x29 0x86); unfold is_uint8; lia.
Defined.

(** *** The voltage *)

(** X12.  For samples [0 <= v1 <= v2 <= 32767] the voltage [val * VPS] is
    finite and not negative, and it does not decrease from [v1] to [v2];
    the voltage of every reading is finite, not negative and at most that
    of 32767. *)
Theorem voltage_monotone (v1 v2 : Z) :
  0 <= v1 <= v2 -> v2 <= 32767 ->
  is_nonneg_finite (toVoltage v1) = true /\
  F32.leb (toVoltage v1) (toVoltage v2) = true /\
  (forall st b0 b1, is_uint8 b0 -> is_uint8 b1 ->
     is_nonneg_finite (voltage (evaluate st b0 b1)) = true /\
     F32.leb (voltage (evaluate st b0 b1)) (toVoltage 32767) = true).
Proof.
  intros H1 H2.
  assert (Hmono : forall a b, 0 <= a <= b -> b <= 32767 ->
                    F32.leb (toVoltage a) (toVoltage b) = true).
  { intros a b Ha Hb.
    destruct (toVoltage_repr a ltac:(lia)) as [Hra _].
    destruct (toVoltage_repr b ltac:(lia)) as [Hrb _].
    apply (represents_le _ _ _ Hprec32 Hemax32 HL2 _ _ _ _ Hra Hrb).
    apply (Rv_mono0 _ _ _ Hprec32 Hemax32 HL2).
    assert (0 <= sval L1 VPS) by (apply sval_nonneg; reflexivity).
    pose proof (pow2_pos 149 ltac:(lia)). nia. }
  split; [apply toVoltage_finite; lia |].
  split; [apply Hmono; lia |].
  intros st b0 b1 Hb0 Hb1. pose proof (val_range st b0 b1 Hb0 Hb1) as Hv.
  change (voltage (evaluate st b0 b1)) with (toVoltage (val (evaluate st b0 b1))).
  split; [apply toVoltage_finite; exact Hv | apply Hmono; lia].
Qed.

Lemma voltage_monotone_witness :
  F32.leb (toVoltage 2090) (toVoltage 10630) = true.
Proof.
  exact (proj1 (proj2 (voltage_monotone 2090 10630 ltac:(lia) ltac:(lia)))).
Defined.

(** *** The pressure *)

(** X13.  For all endpoints, [con = slope * minval], computed in [double]
    and stored in a [float], is the single-precision product of [slope]
    and 2090: the detour through [double] makes no difference. *)
Theorem con_rounds_once (low high : float) :
  con_of (slope_of low high)
  = F32.mul (slope_of low high) (float_of_int 2090).
Proof. apply con_of_mul. apply valid_slope. Qed.

(** X14.  With [low < high] and a finite difference [high - low], the
    pressure of every sample from 0 to [minval] = 2090 is exactly +0.0. *)
Theorem pressure_zero_up_to_minval (low high : float) (raw : Z) :
  F32.valid low = true -> F32.valid high = true ->
  F32.ltb low high = true ->
  is_finite (F32.sub high low) = true ->
  0 <= raw <= 2090 ->
  toPressure (slope_of low high) (con_of (slope_of low high)) raw
  = S754_zero false.
Proof.
  intros Hvl Hvh Hlt Hfin Hr.
  destruct (coeffs_finite low high Hvl Hvh Hlt Hfin) as [Hs Hc].
  pose proof (valid_slope low high) as Hvs.
  pose proof (toPressure_mono_coeffs _ _ raw 2090 Hvs Hs
                (valid_con _) Hc ltac:(lia) ltac:(lia)) as Hle.
  apply zero_between.
  - destruct (pressure_at_minval low high) as [E | E]; rewrite E in Hle.
    + exact Hle.
    + unfold F32.leb in Hle. rewrite leb_nan_r in Hle. discriminate.
  - pose proof (valid_linear _ (con_of (slope_of low high)) raw Hvs
                  (valid_con _)) as Hvq.
    exact (proj1 (floor0_not_negative _ Hvq)).
  - apply pressure_sign_clear; [exact Hvs | lia].
Qed.

Lemma pressure_zero_up_to_minval_witness :
  toPressure (slope_of (low defaults) (high defaults))
    (con_of (slope_of (low defaults) (high defaults))) 1000
  = S754_zero false.
Proof.
  apply (pressure_zero_up_to_minval (low defaults) (high defaults) 1000);
    [reflexivity | reflexivity | reflexivity | reflexivity | lia].
Defined.

(** X15.  With [low < high] and a finite difference [high - low], for every
    sample from 2090 to 32767 the floor at 0.0 changes nothing: the
    pressure is [(slope * val) - con] as computed, and it is not a NaN. *)
Theorem floor_inactive_from_minval (low high : float) (raw : Z) :
  F32.valid low = true -> F32.valid high = true ->
  F32.ltb low high = true ->
  is_finite (F32.sub high low) = true ->
  2090 <= raw <= 32767 ->
  toPressure (slope_of low high) (con_of (slope_of low high)) raw
  = linear (slope_of low high) (con_of (slope_of low high)) raw /\
  is_nan (toPressure (slope_of low high) (con_of (slope_of low high)) raw)
  = false.
Proof.
  intros Hvl Hvh Hlt Hfin Hr.
  destruct (coeffs_finite low high Hvl Hvh Hlt Hfin) as [Hs Hc].
  pose proof (valid_slope low high) as Hvs.
  set (slope := slope_of low high) in *. clearbody slope.
  pose proof (valid_con slope) as Hvc.
  destruct (float_of_int_value raw ltac:(lia)) as (Hn & Hv & Hsv).
  destruct (float_of_int_value 2090 ltac:(lia)) as (Hn0 & Hv0 & Hsv0).
  pose proof (mul_value slope _ Hvs Hs Hv Hn) as Ha.
  pose proof (mul_value slope _ Hvs Hs Hv0 Hn0) as Hcon.
  rewrite <- (con_of_mul slope Hvs) in Hcon.
  rewrite Hsv in Ha. rewrite Hsv0 in Hcon.
  pose proof (represents_finite_bound _ _ Hcon Hc) as Hcb.
  destruct (represents_bounded_inv _ _ _ _ _ Hcon Hcb) as [_ Hcv].
  pose proof (sval_nonneg L1 slope Hs) as Hs0.
  pose proof (pow2_pos 149 ltac:(lia)) as Hp.
  assert (HA : Rv F32.prec F32.emax L2 (sval L1 slope * (2090 * 2 ^ 149))
               <= Rv F32.prec F32.emax L2 (sval L1 slope * (raw * 2 ^ 149))).
  { apply (Rv_mono0 _ _ _ Hprec32 Hemax32 HL2). nia. }
  unfold toPressure, linear.
  set (A := Rv F32.prec F32.emax L2 (sval L1 slope * (raw * 2 ^ 149))) in *.
  set (a := F32.mul slope (float_of_int raw)) in *. clearbody A a.
  destruct (Z.lt_ge_cases A (2 ^ (F32.emax - L2))) as [Hlt' | Hge].
  - pose proof (sub_value a (con_of slope) A Ha Hlt' Hvc Hc) as Hp1.
    destruct (floor0_spec _ _ Hp1) as [_ Hpos].
    destruct (Z.eq_dec (A - sval L2 (con_of slope)) 0) as [E0 | Hne].
    + rewrite E0 in Hp1. apply srep_zero in Hp1. rewrite Hp1.
      split; reflexivity.
    + destruct (Hpos ltac:(lia)) as [E Hrep]. rewrite E.
      split; [reflexivity |].
      exact (represents_not_nan _ _ _ _ _ _ Hrep).
  - destruct Ha as [| m e Hb | X HX].
    + pose proof (pow2_pos (F32.emax - L2) ltac:(discriminate)). lia.
    + pose proof (bounded_value _ _ _ Hprec32 Hemax32 HL2 m e Hb). lia.
    + rewrite (sub_inf _ Hc). split; reflexivity.
Qed.

Lemma floor_inactive_from_minval_witness :
  toPressure (slope_of (low defaults) (high defaults))
    (con_of (slope_of (low defaults) (high defaults))) 6360
  = linear (slope_of (low defaults) (high defaults))
      (con_of (slope_of (low defaults) (high defaults))) 6360.
Proof.
  apply (floor_inactive_from_minval (low defaults) (high defaults) 6360);
    [reflexivity | reflexivity | reflexivity | reflexivity | lia].
Defined.

(** X16.  With [low = high], finite, [slope] and [con] are +0.0 and the
    pressure of every sample in 0..32767 is +0.0. *)
Theorem equal_endpoints_give_zero (x : float) (raw : Z) :
  is_finite x = true -> 0 <= raw <= 32767 ->
  slope_of x x = S754_zero false /\
  con_of (slope_of x x) = S754_zero false /\
  toPressure (slope_of x x) (con_of (slope_of x x)) raw = S754_zero false.
Proof.
  intros Hx Hr.
  assert (E : slope_of x x = S754_zero false).
  { unfold slope_of. destruct (sub_self x) as [-> | E]; [reflexivity |].
    destruct x as [[|] | [|] | | s m e]; try discriminate Hx;
      try discriminate E.
    cbn [F32.sub SFsub] in E. rewrite Z.sub_diag in E. discriminate E. }
  rewrite E. split; [reflexivity |]. split; [reflexivity |].
  destruct (float_of_int_value raw Hr) as (Hn & _ & _).
  unfold toPressure, linear.
  destruct (float_of_int raw) as [[|] | [|] | | [|] m e];
    try discriminate Hn; reflexivity.
Qed.

Lemma equal_endpoints_give_zero_witness :
  toPressure (slope_of (F32.of_Z 4) (F32.of_Z 4))
    (con_of (slope_of (F32.of_Z 4) (F32.of_Z 4))) 10630 = S754_zero false.
Proof.
  apply (equal_endpoints_give_zero (F32.of_Z 4) 10630); [reflexivity | lia].
Defined.

(** X17.  If [low] or [high] is not finite (an infinity or a NaN, which
    [atof] accepts), the pressure of every reading is a NaN, both
    comparisons with the thresholds are false, and the verdict is OK with
    exit status 0, whatever the sample and the thresholds. *)
Theorem non_finite_endpoint_reports_ok (st : settings) (b0 b1 : Z) :
  is_finite (low st) = false \/ is_finite (high st) = false ->
  is_uint8 b0 -> is_uint8 b1 ->
  pressure (evaluate st b0 b1) = S754_nan /\
  status (evaluate st b0 b1) = Ok /\
  nagiosexit (status (evaluate st b0 b1)) = 0.
Proof.
  intros H Hb0 Hb1.
  pose proof (val_range st b0 b1 Hb0 Hb1) as Hv.
  destruct (float_of_int_value _ Hv) as (Hn & _ & _).
  assert (E : pressure (evaluate st b0 b1) = S754_nan).
  { cbn [evaluate pressure val] in *. unfold toPressure, linear.
    destruct (float_of_int (clamp (compose b0 b1)))
      as [[|] | [|] | | [|] m e]; try discriminate Hn;
      destruct (slope_of_non_finite _ _ H) as [-> | [[|] ->]]; reflexivity. }
  split; [exact E |].
  assert (Es : status (evaluate st b0 b1) = Ok).
  { cbn [evaluate status pressure] in *. rewrite E.
    unfold classify, F32.ltb.
    destruct (minpressure st) as [[|] | [|] | | [|] m e];
      destruct (maxpressure st) as [[|] | [|] | | [|] m' e'];
      reflexivity. }
  rewrite Es. split; reflexivity.
Qed.

Lemma non_finite_endpoint_reports_ok_witness :
  status (evaluate
            (mkSettings 0 1 0x48 "/dev/i2c-1" (F32.of_Z 2) (F32.of_Z 8)
               (F32.of_Z 0) (S754_infinity false)) 0x29 0x86) = Ok.
Proof.
  apply (non_finite_endpoint_reports_ok
           (mkSettings 0 1 0x48 "/dev/i2c-1" (F32.of_Z 2) (F32.of_Z 8)
              (F32.of_Z 0) (S754_infinity false)) 0x29 0x86);
    [right; reflexivity | unfold is_uint8; lia | unfold is_uint8; lia].
Defined.

(** *** The verdict *)

(** X18.  Widening the thresholds never turns OK into CRITICAL. *)
Theorem wider_bounds_keep_ok (p mn mx mn' mx' : float) :
  F32.leb mn' mn = true -> F32.leb mx mx' = true ->
  classify p mn mx = Ok -> classify p mn' mx' = Ok.
Proof.
  intros Hmn Hmx H. apply classify_Ok in H. destruct H as [H1 H2].
  apply classify_Ok. unfold F32.ltb, F32.leb in *. split.
  - destruct (SFltb p mn') eqn:E; [| reflexivity].
    rewrite (ltb_leb_trans _ _ _ E Hmn) in H1. discriminate.
  - destruct (SFltb mx' p) eqn:E; [| reflexivity].
    rewrite (leb_ltb_trans _ _ _ Hmx E) in H2. discriminate.
Qed.

Lemma wider_bounds_keep_ok_witness :
  classify (F32.of_Z 5) (F32.of_Z 1) (F32.of_Z 9) = Ok.
Proof.
  apply (wider_bounds_keep_ok (F32.of_Z 5) (F32.of_Z 2) (F32.of_Z 8));
    reflexivity.
Defined.

(** X19.  With [low < high] and a finite difference [high - low]: of two
    readings, the one with the smaller value is CRITICAL below whenever
    the other is; and when the one with the smaller value is CRITICAL
    over, the other is CRITICAL. *)
Theorem alarms_follow_the_sample (st : settings) (b0 b1 c0 c1 : Z) :
  F32.valid (low st) = true -> F32.valid (high st) = true ->
  F32.ltb (low st) (high st) = true ->
  is_finite (F32.sub (high st) (low st)) = true ->
  is_uint8 b0 -> is_uint8 b1 -> is_uint8 c0 -> is_uint8 c1 ->
  val (evaluate st b0 b1) <= val (evaluate st c0 c1) ->
  (status (evaluate st c0 c1) = CriticalBelow ->
   status (evaluate st b0 b1) = CriticalBelow) /\
  (status (evaluate st b0 b1) = CriticalOver ->
   is_critical (status (evaluate st c0 c1)) = true).
Proof.
  intros Hvl Hvh Hlt Hfin Hb0 Hb1 Hc0 Hc1 Hle.
  pose proof (val_range st b0 b1 Hb0 Hb1) as Hrb.
  pose proof (val_range st c0 c1 Hc0 Hc1) as Hrc.
  destruct (coeffs_finite _ _ Hvl Hvh Hlt Hfin) as [Hs Hc].
  pose proof (toPressure_mono_coeffs _ _ _ _ (valid_slope _ _) Hs
                (valid_con _) Hc (conj (proj1 Hrb) Hle) (proj2 Hrc)) as Hm.
  cbn [evaluate val status] in *.
  set (p1 := toPressure _ _ (clamp (compose b0 b1))) in *.
  set (p2 := toPressure _ _ (clamp (compose c0 c1))) in *.
  clearbody p1 p2. unfold classify, F32.ltb, F32.leb in *. split.
  - destruct (SFltb p2 (minpressure st)) eqn:E2.
    + intros _. rewrite (leb_ltb_trans _ _ _ Hm E2). reflexivity.
    + destruct (SFltb (maxpressure st) p2); discriminate.
  - destruct (SFltb p1 (minpressure st)); [discriminate |].
    destruct (SFltb (maxpressure st) p1) eqn:E1; [| discriminate].
    intros _. rewrite (ltb_leb_trans _ _ _ E1 Hm).
    destruct (SFltb p2 (minpressure st)); reflexivity.
Qed.

Lemma alarms_follow_the_sample_witness :
  status (evaluate demo_settings 0x08 0x2A) = CriticalBelow.
Proof.
  apply (proj1 (alarms_follow_the_sample demo_settings 0x08 0x2A 0x0B 0xB8
                  eq_refl eq_refl eq_refl eq_refl
                  ltac:(unfold is_uint8; lia) ltac:(unfold is_uint8; lia)
                  ltac:(unfold is_uint8; lia) ltac:(unfold is_uint8; lia)
                  ltac:(vm_compute; discriminate))).
  reflexivity.
Defined.
